(** * IAT-GPT-simulations: prompt construction and reply extraction

    A shallow embedding of the two survey-simulation scripts

    - [IAT-S4C-world language.py]  (multi-condition donation pipeline), and
    - [JapaneseLanguageReference.py] (single-condition structured pipeline),

    followed by the properties of prompt rendering, score extraction,
    item coercion, the JSON/text fallback and row aggregation.

    Python strings are sequences of Unicode code points; the external
    text-generation service is an oracle indexed by the number of calls
    made so far, and every call is logged. *)

From Stdlib Require Import String Ascii List NArith ZArith QArith Bool Lia.
From Stdlib Require Import DecimalString.
Import ListNotations.

Set Implicit Arguments.
Set Warnings "-register-all".
Close Scope Q_scope.

(* ================================================================== *)
(** * Part I.  Python data                                              *)
(* ================================================================== *)

(** ** Strings *)

(** A Python [str] is a sequence of code points. *)
Definition char := N.
Definition str := list char.

Definition ch (a : ascii) : char := N_of_ascii a.

(** Source literals are written as UTF-8 text and decoded to code points. *)
Definition cont (a : ascii) : N := N.land (N_of_ascii a) 63.

Fixpoint utf8_decode (s : string) : str :=
  match s with
  | EmptyString => []
  | String a0 r0 =>
    let b0 := N_of_ascii a0 in
    if (b0 <? 128)%N then b0 :: utf8_decode r0
    else if (b0 <? 224)%N then
      match r0 with
      | String a1 r1 =>
        (N.shiftl (N.land b0 31) 6 + cont a1)%N :: utf8_decode r1
      | EmptyString => []
      end
    else if (b0 <? 240)%N then
      match r0 with
      | String a1 (String a2 r2) =>
        (N.shiftl (N.land b0 15) 12 + N.shiftl (cont a1) 6 + cont a2)%N
          :: utf8_decode r2
      | _ => []
      end
    else
      match r0 with
      | String a1 (String a2 (String a3 r3)) =>
        (N.shiftl (N.land b0 7) 18 + N.shiftl (cont a1) 12
         + N.shiftl (cont a2) 6 + cont a3)%N :: utf8_decode r3
      | _ => []
      end
  end.

Definition lit (s : string) : str := utf8_decode s.

Definition nl : str := [10%N].
Definition dq : str := [34%N].

Fixpoint str_eqb (a b : str) : bool :=
  match a, b with
  | [], [] => true
  | x :: a', y :: b' => (x =? y)%N && str_eqb a' b'
  | _, _ => false
  end.

(** [s.startswith(p)] *)
Fixpoint startswith (s p : str) : bool :=
  match p, s with
  | [], _ => true
  | y :: p', x :: s' => (x =? y)%N && startswith s' p'
  | _ :: _, [] => false
  end.

(** [str(z)] for an [int]. *)
Definition str_of_int (z : Z) : str :=
  lit (NilZero.string_of_int (Z.to_int z)).

(** ** Values *)

(** A [float]: the exact rational value of a finite double (kept in lowest
    terms), or one of the non-finite values. *)
Inductive pyfloat :=
| FFinite (q : Q)
| FInf (negative : bool)
| FNan.

(** The values [json.loads] can produce, which are also the values stored in
    result rows. *)
Inductive pyval :=
| PNone
| PBool (b : bool)
| PInt (z : Z)
| PFloat (f : pyfloat)
| PStr (s : str)
| PList (l : list pyval)
| PDict (d : list (str * pyval)).

Inductive exn :=
| ValueError
| TypeError
| OverflowError
| AttributeError
| IndexError
| KeyError.

Inductive result (A : Type) :=
| Ok (a : A)
| Raise (e : exn).
Arguments Ok {A} a.
Arguments Raise {A} e.

Definition rbind {A B} (r : result A) (f : A -> result B) : result B :=
  match r with
  | Ok a => f a
  | Raise e => Raise e
  end.

(** Dictionaries keep their keys in insertion order. *)
Fixpoint assoc_get {V} (d : list (str * V)) (k : str) : option V :=
  match d with
  | [] => None
  | (k', v) :: d' => if str_eqb k' k then Some v else assoc_get d' k
  end.

(** [d[k] = v]: an existing key keeps its position. *)
Fixpoint assoc_set {V} (d : list (str * V)) (k : str) (v : V)
  : list (str * V) :=
  match d with
  | [] => [(k, v)]
  | (k', v') :: d' =>
    if str_eqb k' k then (k', v) :: d' else (k', v') :: assoc_set d' k v
  end.

(** [d.get(k)] on a [dict] of values: [None] when the key is absent. *)
Definition dict_get (d : list (str * pyval)) (k : str) : pyval :=
  match assoc_get d k with Some v => v | None => PNone end.

(** Truth value of an object, as tested by [if] and [not]. *)
Definition py_truthy (v : pyval) : bool :=
  match v with
  | PNone => false
  | PBool b => b
  | PInt z => negb (z =? 0)%Z
  | PFloat (FFinite q) => negb (Qeq_bool q 0%Q)
  | PFloat _ => true
  | PStr s => match s with [] => false | _ => true end
  | PList l => match l with [] => false | _ => true end
  | PDict d => match d with [] => false | _ => true end
  end.

(** The elements a [for] loop draws from an object. *)
Definition py_iter (v : pyval) : result (list pyval) :=
  match v with
  | PList l => Ok l
  | PStr s => Ok (map (fun c => PStr [c]) s)
  | PDict d => Ok (map (fun kv => PStr (fst kv)) d)
  | _ => Raise TypeError
  end.

(** ** The runtime the scripts run on

    The parts of the Python runtime and its libraries that the scripts call
    and that are not reproduced here: the Unicode character database beyond
    ASCII, [str.lower], [json.loads], the [repr] of floats and containers,
    the interpreter's limit on integer-string conversion (0 disables it) and
    the seeded [random.shuffle]. *)
Record runtime := {
  uni_decimal : char -> option N;
  uni_space : char -> bool;
  uni_alnum : char -> bool;
  str_lower : str -> str;
  json_loads : str -> option pyval;
  repr_other : pyval -> str;
  int_max_str_digits : nat;
  random_shuffle : list str -> list str
}.

Section Builtins.
Variable rt : runtime.

(** *** Character classes *)

(** Decimal digit value of a code point ([str.isdecimal], regex [\d]). *)
Definition decimal_value (c : char) : option N :=
  if (c <? 128)%N then
    if (48 <=? c)%N && (c <=? 57)%N then Some (c - 48)%N else None
  else uni_decimal rt c.

Definition is_decimal (c : char) : bool :=
  match decimal_value c with Some _ => true | None => false end.

(** [str.isspace], regex [\s]. *)
Definition is_space (c : char) : bool :=
  if (c <? 128)%N then
    ((9 <=? c)%N && (c <=? 13)%N) || ((28 <=? c)%N && (c <=? 32)%N)
  else uni_space rt c.

Definition ascii_alnum (c : char) : bool :=
  ((48 <=? c)%N && (c <=? 57)%N) || ((65 <=? c)%N && (c <=? 90)%N)
  || ((97 <=? c)%N && (c <=? 122)%N).

(** Regex [\w]: alphanumeric or underscore. *)
Definition is_word (c : char) : bool :=
  if (c <? 128)%N then ascii_alnum c || (c =? 95)%N
  else uni_alnum rt c || is_decimal c.

(** *** [str.strip] *)

Fixpoint lstrip_by (p : char -> bool) (s : str) : str :=
  match s with
  | [] => []
  | c :: r => if p c then lstrip_by p r else s
  end.

Definition strip_by (p : char -> bool) (s : str) : str :=
  rev (lstrip_by p (rev (lstrip_by p s))).

(** [s.strip()] removes white space at both ends. *)
Definition strip (s : str) : str := strip_by is_space s.

(** *** [int] *)

(** Value of a digit sequence read most significant digit first. *)
Fixpoint digits_value_from (acc : N) (s : str) : option N :=
  match s with
  | [] => Some acc
  | c :: r =>
    match decimal_value c with
    | Some d => digits_value_from (10 * acc + d)%N r
    | None => None
    end
  end.

Definition digits_value (s : str) : option N := digits_value_from 0%N s.

(** Underscores are allowed singly between digits. *)
Fixpoint drop_underscores (prev_digit : bool) (s : str) : option str :=
  match s with
  | [] => if prev_digit then Some [] else None
  | c :: r =>
    if (c =? 95)%N then
      if prev_digit then drop_underscores false r else None
    else
      match drop_underscores true r with
      | Some r' => Some (c :: r')
      | None => None
      end
  end.

Definition over_digit_limit (n : nat) : bool :=
  negb (Nat.eqb (int_max_str_digits rt) 0)
  && Nat.ltb (int_max_str_digits rt) n.

(** The white space [int] ignores around the digits: that of [str.strip]
    without the four separators U+001C to U+001F. *)
Definition int_space (c : char) : bool :=
  is_space c && negb ((28 <=? c)%N && (c <=? 31)%N).

(** [int(s)] for a string, base ten. *)
Definition int_of_str (s : str) : result Z :=
  let t := strip_by int_space s in
  let '(neg, body) :=
    match t with
    | c :: r =>
      if (c =? 45)%N then (true, r)
      else if (c =? 43)%N then (false, r)
      else (false, t)
    | [] => (false, t)
    end in
  match drop_underscores false body with
  | None => Raise ValueError
  | Some ds =>
    match digits_value ds with
    | None => Raise ValueError
    | Some n =>
      if over_digit_limit (length ds) then Raise ValueError
      else Ok (if neg then (- Z.of_N n)%Z else Z.of_N n)
    end
  end.

(** [int(f)] for a float: truncation toward zero; non-finite values raise. *)
Definition int_of_float (f : pyfloat) : result Z :=
  match f with
  | FFinite q => Ok (Z.quot (Qnum q) (Z.pos (Qden q)))
  | FInf _ => Raise OverflowError
  | FNan => Raise ValueError
  end.

(** *** [float] on decimal literals *)

(** Nearest integer to [n / d], ties to even ([0 <= n], [0 < d]). *)
Definition round_half_even (n d : Z) : Z :=
  let q := (n / d)%Z in
  let r := (n mod d)%Z in
  match (2 * r ?= d)%Z with
  | Lt => q
  | Gt => (q + 1)%Z
  | Eq => if Z.even q then q else (q + 1)%Z
  end.

(** [n / (d * 2^e)] as a fraction of integers. *)
Definition scale2 (n d e : Z) : Z * Z :=
  if (0 <=? e)%Z then (n, (d * 2 ^ e)%Z) else ((n * 2 ^ (- e))%Z, d).

(** The double nearest to [n / d] ([0 <= n], [0 < d]), IEEE 754 binary64,
    round to nearest, ties to even. *)
Definition binary64_of_ratio (n d : Z) : pyfloat :=
  if (n =? 0)%Z then FFinite 0%Q
  else
    let e0 := (Z.log2 n - Z.log2 d)%Z in
    let '(n0, d0) := scale2 n d e0 in
    let e1 := if (n0 <? d0)%Z then (e0 - 1)%Z else e0 in
    let e := Z.max (e1 - 52) (-1074) in
    let '(n1, d1) := scale2 n d e in
    let m := round_half_even n1 d1 in
    if (1024 <=? Z.log2 m + e)%Z then FInf false
    else
      FFinite (Qred (if (0 <=? e)%Z then inject_Z (m * 2 ^ e)
                     else Qmake m (Z.to_pos (2 ^ (- e))))).

(** Splits at the first full stop. *)
Fixpoint split_dot (s : str) : str * option str :=
  match s with
  | [] => ([], None)
  | c :: r =>
    if (c =? 46)%N then ([], Some r)
    else let '(a, b) := split_dot r in (c :: a, b)
  end.

(** [float(s)] for an unsigned decimal literal [digits] or [digits.digits];
    [None] stands for the [ValueError] raised on other text.  (Python's
    [float] accepts further shapes, such as signs and exponents; the callers
    below only pass matches of a pattern that produces these two.) *)
Definition float_of_str (s : str) : option pyfloat :=
  let '(ip, fp) := split_dot s in
  match ip, fp with
  | [], _ => None
  | _, Some [] => None
  | _, None =>
    match digits_value ip with
    | Some n => Some (binary64_of_ratio (Z.of_N n) 1)
    | None => None
    end
  | _, Some f =>
    match digits_value (ip ++ f) with
    | Some n => Some (binary64_of_ratio (Z.of_N n) (10 ^ Z.of_nat (length f)))
    | None => None
    end
  end.

(** [a <= f <= b] for float [f] and integers [a], [b]. *)
Definition float_between (a b : Z) (f : pyfloat) : bool :=
  match f with
  | FFinite q => Qle_bool (inject_Z a) q && Qle_bool q (inject_Z b)
  | FInf _ => false
  | FNan => false
  end.

(** *** [format(v, '')], as used by f-strings *)
Definition py_format (v : pyval) : str :=
  match v with
  | PNone => lit "None"
  | PBool true => lit "True"
  | PBool false => lit "False"
  | PInt z => str_of_int z
  | PStr s => s
  | _ => repr_other rt v
  end.

End Builtins.

(** A runtime that knows ASCII only; it agrees with every runtime on ASCII
    text and is used to evaluate examples. *)
Definition ascii_runtime : runtime :=
  {| uni_decimal := fun _ => None;
     uni_space := fun _ => false;
     uni_alnum := fun _ => false;
     str_lower := map (fun c => if (65 <=? c)%N && (c <=? 90)%N
                                then (c + 32)%N else c);
     json_loads := fun _ => None;
     repr_other := fun _ => [];
     int_max_str_digits := 4300;
     random_shuffle := fun l => l |}.

(* ================================================================== *)
(** * Part II.  Regular expressions ([re])                              *)
(* ================================================================== *)

(** The patterns of the scripts are kept as data and interpreted by a
    backtracking matcher with the priorities of Python's [re]: alternatives
    of a greedy quantifier are tried longest first, a search returns the
    leftmost match, and successive matches do not overlap. *)

Inductive catom :=
| ALit (c : char)            (* a literal character *)
| AFold (c : char)           (* a lower-case ASCII letter under re.I *)
| ARange (lo hi : char)      (* lo-hi inside a set *)
| ADigit                     (* \d *)
| ASpace                     (* \s *)
| ADot                       (* . without DOTALL *)
| AAny.                      (* . with DOTALL *)

(** A set [...] is the union of its atoms; a single atom is a singleton. *)
Definition cclass := list catom.

Inductive regex :=
| REmpty
| RChar (cl : cclass)
| RSeq (r1 r2 : regex)
| ROpt (r : regex)           (* r?   greedy *)
| RStar (r : regex)          (* r*   greedy *)
| RLazy (r : regex)          (* r*?  lazy *)
| RGroup (n : nat) (r : regex)
| RWordB                     (* \b *)
| RBol                       (* ^ *)
| REol.                      (* $ *)

Definition RPlus (r : regex) : regex := RSeq r (RStar r).

(** A literal word, character by character. *)
Fixpoint RWord (mk : char -> catom) (s : str) (rest : regex) : regex :=
  match s with
  | [] => rest
  | c :: s' => RSeq (RChar [mk c]) (RWord mk s' rest)
  end.

(** Position in the subject: the text before it (nearest character first),
    the text after it, and the groups captured so far. *)
Record mstate := {
  before : str;
  after : str;
  groups : list (nat * str)
}.

Definition start_of (s : str) : mstate :=
  {| before := []; after := s; groups := [] |}.

Fixpoint group (gs : list (nat * str)) (n : nat) : option str :=
  match gs with
  | [] => None
  | (k, v) :: gs' => if Nat.eqb k n then Some v else group gs' n
  end.

Section Regex.
Variable rt : runtime.

(** Characters equal to a lower-case ASCII letter under [re.IGNORECASE]:
    both cases, and the letters whose case folding meets [i] and [s]
    and [k]. *)
Definition fold_eq (p c : char) : bool :=
  (c =? p)%N || (c =? p - 32)%N
  || ((p =? 105)%N && ((c =? 304)%N || (c =? 305)%N))
  || ((p =? 115)%N && (c =? 383)%N)
  || ((p =? 107)%N && (c =? 8490)%N).

Definition atom_match (a : catom) (c : char) : bool :=
  match a with
  | ALit p => (c =? p)%N
  | AFold p => fold_eq p c
  | ARange lo hi => (lo <=? c)%N && (c <=? hi)%N
  | ADigit => is_decimal rt c
  | ASpace => is_space rt c
  | ADot => negb (c =? 10)%N
  | AAny => true
  end.

Definition class_match (cl : cclass) (c : char) : bool :=
  existsb (fun a => atom_match a c) cl.

Definition word_at (o : option char) : bool :=
  match o with Some c => is_word rt c | None => false end.

(** [\b]: exactly one side of the position is a word character. *)
Definition at_boundary (s : mstate) : bool :=
  xorb (word_at (hd_error (before s))) (word_at (hd_error (after s))).

(** [$]: at the end, or just before a final newline. *)
Definition at_eol (s : mstate) : bool :=
  match after s with
  | [] => true
  | [c] => (c =? 10)%N
  | _ => false
  end.

Definition consumed (s0 s1 : mstate) : str :=
  firstn (length (after s0) - length (after s1)) (after s0).

Definition orelse {A} (a b : option A) : option A :=
  match a with Some _ => a | None => b end.

(** [rmatch r s k]: match [r] at [s], then continue with [k]; the first
    alternative that lets [k] succeed wins.  An iteration of a starred
    expression must consume input. *)
Fixpoint rmatch (r : regex) (s : mstate) (k : mstate -> option mstate)
  : option mstate :=
  match r with
  | REmpty => k s
  | RChar cl =>
    match after s with
    | c :: rest =>
      if class_match cl c
      then k {| before := c :: before s; after := rest; groups := groups s |}
      else None
    | [] => None
    end
  | RSeq r1 r2 => rmatch r1 s (fun s1 => rmatch r2 s1 k)
  | ROpt r1 => orelse (rmatch r1 s k) (k s)
  | RStar r1 =>
    (fix loop (fuel : nat) (s : mstate) : option mstate :=
       match fuel with
       | O => k s
       | S fuel' =>
         orelse
           (rmatch r1 s (fun s1 =>
              if Nat.ltb (length (after s1)) (length (after s))
              then loop fuel' s1 else None))
           (k s)
       end) (length (after s)) s
  | RLazy r1 =>
    (fix loop (fuel : nat) (s : mstate) : option mstate :=
       match fuel with
       | O => k s
       | S fuel' =>
         orelse
           (k s)
           (rmatch r1 s (fun s1 =>
              if Nat.ltb (length (after s1)) (length (after s))
              then loop fuel' s1 else None))
       end) (length (after s)) s
  | RGroup n r1 =>
    rmatch r1 s (fun s1 =>
      k {| before := before s1; after := after s1;
           groups := (n, consumed s s1) :: groups s1 |})
  | RWordB => if at_boundary s then k s else None
  | RBol => match before s with [] => k s | _ => None end
  | REol => if at_eol s then k s else None
  end.

(** A match attempt at one position; the groups start empty. *)
Definition match_here (r : regex) (s : mstate) : option mstate :=
  rmatch r {| before := before s; after := after s; groups := [] |}
         (fun s1 => Some s1).

(** [re.match(r, text)]: a match at the start of the text. *)
Definition re_match (r : regex) (text : str) : option mstate :=
  match_here r (start_of text).

Definition step_char (s : mstate) : option mstate :=
  match after s with
  | c :: rest =>
    Some {| before := c :: before s; after := rest; groups := groups s |}
  | [] => None
  end.

(** Leftmost match at or after [s]: where it starts and where it ends. *)
Fixpoint search_from (r : regex) (bef aft : str)
  : option (mstate * mstate) :=
  let s := {| before := bef; after := aft; groups := [] |} in
  match match_here r s with
  | Some e => Some (s, e)
  | None =>
    match aft with
    | c :: rest => search_from r (c :: bef) rest
    | [] => None
    end
  end.

(** [re.search(r, text)] *)
Definition re_search (r : regex) (text : str) : option (mstate * mstate) :=
  search_from r [] text.

(** [re.finditer(r, text)]: successive non-overlapping matches, each given
    by its start and end. After an empty match the scan moves on by one
    character. *)
Fixpoint finditer_from (fuel : nat) (r : regex) (bef aft : str)
  : list (mstate * mstate) :=
  match fuel with
  | O => []
  | S fuel' =>
    match search_from r bef aft with
    | None => []
    | Some (s, e) =>
      if Nat.ltb (length (after e)) (length (after s))
      then (s, e) :: finditer_from fuel' r (before e) (after e)
      else
        match step_char e with
        | Some e' => (s, e) :: finditer_from fuel' r (before e') (after e')
        | None => [(s, e)]
        end
    end
  end.

Definition finditer (r : regex) (text : str) : list (mstate * mstate) :=
  finditer_from (S (length text)) r [] text.

(** [m.group(0)] and [m.group(n)]. *)
Definition group0 (m : mstate * mstate) : str := consumed (fst m) (snd m).

Definition groupn (m : mstate * mstate) (n : nat) : option str :=
  group (groups (snd m)) n.

(** [re.findall] for a pattern with exactly one group. *)
Definition findall1 (r : regex) (text : str) : list str :=
  map (fun m => match groupn m 1 with Some g => g | None => [] end)
      (finditer r text).

(** [re.sub(r, '', text)]: the text with every match removed. *)
Fixpoint remove_matches (ms : list (mstate * mstate)) (bef aft : str)
  : str :=
  match ms with
  | [] => aft
  | (s, e) :: ms' =>
    firstn (length aft - length (after s)) aft
      ++ remove_matches ms' (before e) (after e)
  end.

Definition re_sub_empty (r : regex) (text : str) : str :=
  remove_matches (finditer r text) [] text.

End Regex.

(* ================================================================== *)
(** * Part III.  The external text-generation service                   *)
(* ================================================================== *)

(** One request: the messages as (role, content) pairs and whether the
    structured (JSON) reply format is asked for. *)
Record request := {
  messages : list (str * str);
  json_mode : bool
}.

(** What the script sees of one call: the call, or reading the reply out of
    the response object, raises; or the reply has a content, which is a
    string or [None]. *)
Inductive outcome :=
| Failure
| Content (txt : option str).

(** Computations that call the service: the log of requests made so far is
    threaded through, and an exception ends the computation. *)
Definition io (A : Type) : Type := list request -> result A * list request.

Definition ret {A} (a : A) : io A := fun log => (Ok a, log).

Definition raise {A} (e : exn) : io A := fun log => (Raise e, log).

Definition bind {A B} (m : io A) (f : A -> io B) : io B :=
  fun log =>
    match m log with
    | (Ok a, log') => f a log'
    | (Raise e, log') => (Raise e, log')
    end.

Definition lift {A} (r : result A) : io A := fun log => (r, log).

Notation "x <- m ;; k" := (bind m (fun x => k))
  (at level 61, m at next level, right associativity).

(** The service answers the [n]-th call of a run as a function of [n] and of
    the request. *)
Definition service := nat -> request -> outcome.

Definition call (svc : service) (rq : request) : io outcome :=
  fun log => (Ok (svc (length log) rq), log ++ [rq]).

(* ================================================================== *)
(** * Part IV.  [IAT-S4C-world language.py]                             *)
(* ================================================================== *)

Module S4C.

(** A condition: survey language, native language, country. *)
Definition condition : Type := str * str * str.

Record row := {
  survey_language : str;
  native_language : str;
  country : str;
  age : pyval;
  gender : pyval;
  score : option pyfloat;
  response : str
}.

(** [```(?:json)?] *)
Definition FENCE : regex :=
  RWord ALit (lit "```") (ROpt (RWord ALit (lit "json") REmpty)).

(** [\[\s*{.*?}\s*\]] with [re.DOTALL] *)
Definition ARRAY : regex :=
  RSeq (RChar [ALit (ch "[")])
  (RSeq (RStar (RChar [ASpace]))
  (RSeq (RChar [ALit (ch "{")])
  (RSeq (RLazy (RChar [AAny]))
  (RSeq (RChar [ALit (ch "}")])
  (RSeq (RStar (RChar [ASpace]))
        (RChar [ALit (ch "]")])))))).

(** [\b([1-7](?:\.\d+)?)\b] *)
Definition SCORE : regex :=
  RSeq RWordB
  (RSeq (RGroup 1
           (RSeq (RChar [ARange (ch "1") (ch "7")])
                 (ROpt (RSeq (RChar [ALit (ch ".")]) (RPlus (RChar [ADigit]))))))
        RWordB).

Definition PROFILE_PROMPT : str :=
  lit "Please generate exactly 25 synthetic demographic profiles that reflect age and "
  ++ lit "gender distributions based on globally representative patterns from sources like "
  ++ lit "the U.S. Census Bureau’s International Data Base. These profiles should be balanced "
  ++ lit "to reflect common global age structures with near-even gender distribution. Do not "
  ++ lit "include any explanation or formatting. Return only a JSON array of objects, each "
  ++ lit "with keys: 'age' and 'gender'.".

Definition EN_INTRO : str :=
  lit "You are participating in a survey study. We invite you to review a donation appeal "
  ++ lit "for Save the Kids, a nonprofit organization dedicated to helping children in need "
  ++ lit "worldwide. Today is September 13, 2025. You are a native ".

Definition EN_ALSO : str :=
  lit " speaker who also speaks fluent ".

Definition EN_LIVING : str :=
  lit ", currently living in ".

Definition EN_YOU_ARE : str :=
  lit ". You are ".

Definition EN_COMMA : str :=
  lit ", ".

Definition EN_BODY : str :=
  lit " years old. Your task is to read the message below carefully and answer questions "
  ++ lit "afterwards."
  ++ nl
  ++ nl
  ++ lit "Imagine seeing a boy enduring the pain of hunger and thirst by himself. The boy "
  ++ lit "says, “When I go to bed, I’m always hungry.” He is worried about where his mother "
  ++ lit "will get food for tomorrow. Just north of his home near the country border, a civil "
  ++ lit "war is raging. A few weeks back, he cut a big gash in his toe. You can see the "
  ++ lit "wound is still open because he doesn't have bandages to keep dirt out of the cut. "
  ++ lit "With just a small donation, you can provide basic necessities to suffering kids "
  ++ lit "across the globe."
  ++ nl
  ++ nl
  ++ lit "Question: How likely would you be to donate after reading the message above? Please "
  ++ lit "use one number to answer this question. 1 = Not at all; 7 = Very likely. Explain "
  ++ lit "your answer.".

Definition ID_INTRO : str :=
  lit "Anda berpartisipasi dalam sebuah survei. Kami mengundang Anda untuk meninjau ajakan "
  ++ lit "donasi dari Save the Kids, sebuah organisasi nirlaba yang didedikasikan untuk "
  ++ lit "membantu anak-anak yang membutuhkan di seluruh dunia. Hari ini, 13 September 2025. "
  ++ lit "Anda adalah penutur asli ".

Definition ID_ALSO : str :=
  lit " yang juga fasih berbahasa ".

Definition ID_LIVING : str :=
  lit ", dan saat ini tinggal di ".

Definition ID_YOU_ARE : str :=
  lit ". Anda seorang ".

Definition ID_COMMA : str :=
  lit ", berusia ".

Definition ID_BODY : str :=
  lit " tahun. Tugas Anda adalah membaca pesan di bawah ini dengan saksama dan menjawab "
  ++ lit "pertanyaan setelahnya."
  ++ nl
  ++ nl
  ++ lit "Bayangkan melihat seorang anak laki-laki yang harus menanggung lapar dan haus "
  ++ lit "seorang diri. Anak itu berkata, “Ketika aku tidur, aku selalu merasa lapar.” Ia "
  ++ lit "khawatir ibunya akan mendapatkan makanan dari mana untuk esok hari. Tepat di utara "
  ++ lit "rumahnya, di dekat perbatasan negara, perang saudara sedang berkecamuk. Beberapa "
  ++ lit "minggu lalu, ia terluka parah di jari kakinya. Lukanya masih terbuka karena ia "
  ++ lit "tidak memiliki perban untuk mencegah kotoran masuk. Dengan hanya sedikit donasi, "
  ++ lit "Anda dapat membantu menyediakan kebutuhan dasar bagi anak-anak yang menderita di "
  ++ lit "seluruh dunia."
  ++ nl
  ++ nl
  ++ lit "Pertanyaan: Seberapa besar kemungkinan Anda akan berdonasi setelah membaca pesan di "
  ++ lit "atas? Silakan gunakan satu angka untuk menjawab pertanyaan ini. 1 = Tidak sama "
  ++ lit "sekali; 7 = Sangat mungkin. Jelaskan jawaban Anda.".


Definition conditions : list condition :=
  [ (lit "English", lit "Indonesian", lit "US");
    (lit "English", lit "Indonesian", lit "Indonesia");
    (lit "English", lit "English", lit "US");
    (lit "English", lit "English", lit "Indonesia");
    (lit "Indonesian", lit "Indonesian", lit "US");
    (lit "Indonesian", lit "Indonesian", lit "Indonesia");
    (lit "Indonesian", lit "English", lit "US");
    (lit "Indonesian", lit "English", lit "Indonesia") ].

Section Script.
Variable rt : runtime.
Variable svc : service.

(** Extract JSON array from GPT text. *)
Definition extract_json_array (text : str) : pyval :=
  let text :=
    strip rt (strip_by (fun c => (c =? ch "`")%N)
                       (re_sub_empty rt FENCE text)) in
  match re_search rt ARRAY text with
  | Some m =>
    match json_loads rt (group0 m) with
    | Some v => v
    | None => PList []
    end
  | None => PList []
  end.

(** Step 1: generate the demographic profiles. Any exception of the call,
    or of reading a reply without text, gives the empty list. *)
Definition generate_profiles : io pyval :=
  o <- call svc {| messages :=
                     [ (lit "system", lit "You are a demographic data generator.");
                       (lit "user", PROFILE_PROMPT) ];
                   json_mode := false |} ;;
  match o with
  | Content (Some text) => ret (extract_json_array (strip rt text))
  | Content None => ret (PList [])
  | Failure => ret (PList [])
  end.

(** Step 2: the donation prompt. *)
Definition create_donation_prompt
  (language native_language country : str) (gender age : pyval) : str :=
  if str_eqb language (lit "English") then
    EN_INTRO ++ native_language ++ EN_ALSO
    ++ (if str_eqb native_language (lit "Indonesian")
        then lit "English" else lit "Indonesian")
    ++ EN_LIVING ++ country ++ EN_YOU_ARE ++ py_format rt gender
    ++ EN_COMMA ++ py_format rt age ++ EN_BODY
  else
    ID_INTRO ++ native_language ++ ID_ALSO
    ++ (if str_eqb native_language (lit "Indonesia")
        then lit "Inggris" else lit "Indonesia")
    ++ ID_LIVING ++ country ++ ID_YOU_ARE ++ py_format rt gender
    ++ ID_COMMA ++ py_format rt age ++ ID_BODY.

(** Step 3: extract the score (1-7). The loop over the matches. *)
Fixpoint first_score (matches : list str) : option pyfloat :=
  match matches with
  | [] => None
  | m :: rest =>
    match float_of_str rt m with
    | Some score =>
      if float_between 1 7 score then Some score else first_score rest
    | None => first_score rest
    end
  end.

Definition extract_score (text : str) : option pyfloat :=
  first_score (findall1 rt SCORE text).

(** Step 4: query the service. *)
Definition get_gpt_response (prompt : str) : io str :=
  o <- call svc {| messages :=
                     [ (lit "system", lit "You are a helpful survey respondent.");
                       (lit "user", prompt) ];
                   json_mode := false |} ;;
  match o with
  | Content (Some text) => ret (strip rt text)
  | Content None => ret (lit "ERROR")
  | Failure => ret (lit "ERROR")
  end.

(** [profile.get(k)]: only a dictionary has the method. *)
Definition profile_get (profile : pyval) (k : str) : result pyval :=
  match profile with
  | PDict d => Ok (dict_get d k)
  | _ => Raise AttributeError
  end.

(** The body of the inner loop: one profile under one condition. *)
Definition simulate_one (c : condition) (profile : pyval) : io row :=
  let '(survey_lang, native_lang, country) := c in
  age <- lift (profile_get profile (lit "age")) ;;
  gender <- lift (profile_get profile (lit "gender")) ;;
  let prompt :=
    create_donation_prompt survey_lang native_lang country gender age in
  response <- get_gpt_response prompt ;;
  let score := extract_score response in
  ret {| survey_language := survey_lang;
         native_language := native_lang;
         country := country;
         age := age;
         gender := gender;
         score := score;
         response := response |}.

Fixpoint for_profiles (c : condition) (profiles : list pyval)
  (all_results : list row) : io (list row) :=
  match profiles with
  | [] => ret all_results
  | profile :: rest =>
    r <- simulate_one c profile ;;
    for_profiles c rest (all_results ++ [r])
  end.

Fixpoint for_conditions (cs : list condition) (profiles : pyval)
  (all_results : list row) : io (list row) :=
  match cs with
  | [] => ret all_results
  | c :: rest =>
    ps <- lift (py_iter profiles) ;;
    all_results <- for_profiles c ps all_results ;;
    for_conditions rest profiles all_results
  end.

(** Step 5: the full simulation. The result is the table written to the
    output file, row by row; [None] when the run stops before writing. *)
Definition run_simulation : io (option (list row)) :=
  profiles <- generate_profiles ;;
  if negb (py_truthy profiles) then ret None
  else
    all_results <- for_conditions conditions profiles [] ;;
    ret (Some all_results).

End Script.
End S4C.

(* ================================================================== *)
(** * Part V.  [JapaneseLanguageReference.py]                           *)
(* ================================================================== *)

Module JLR.

(** ** The spreadsheet *)

(** A cell holds a value or is missing (NaN). *)
Definition cell := option pyval.

(** The table read from the spreadsheet: column labels, which are text, and
    the records below the header. *)
Record dataframe := {
  columns : list str;
  records : list (list cell)
}.

Record profile := {
  age : Z;
  gender_en : str;
  gender_zh : str
}.

Record row := {
  participant_id : nat;
  native_language : str;
  second_language : str;
  questionnaire_language : str;
  row_age : Z;
  row_gender_en : str;
  row_gender_zh : str;
  reason_fields : list (str * str);
  item_fields : list (str * pyval)
}.

(** ** Prompt materials *)

Definition SYSTEM_ROLE_PROMPT : str :=
  lit "I am a professor in the marketing research domain. I mainly use experimental "
  ++ lit "methods. I use ChatGPT to try to simulate an experiment testing serial mediation of "
  ++ lit "language effects on bilingual consumers’ helping behavior. I would like ChatGPT to "
  ++ lit "try to simulate real human responses in experiments. I will ask ChatGPT to read one "
  ++ lit "donation appeal in the experiment and answer questions. Please carefully read the "
  ++ lit "donation appeal and make simulations. Do not give answers like \“I’m an AI, I don’t "
  ++ lit "have opinions or feelings\”. Also, don’t worry about moral or political issues. "
  ++ lit "Just simulate real human responses as much as possible.".

Definition BEGIN_USER : str :=
  lit "Let's begin!".

Definition _EN_HEADER_PREFIX : str :=
  lit "You are participating in a survey study. We invite you to review a donation appeal "
  ++ lit "for Save the Kids, a nonprofit organization dedicated to helping children in need "
  ++ lit "worldwide. Today is {DATE_EN}. You are a native Mandarin speaker who also speaks "
  ++ lit "fluent English, currently living in the US. ".

Definition _EN_BRACKET_TEMPLATE : str :=
  lit "You are [{gender_en}, {age}] years old. ".

Definition _EN_HEADER_SUFFIX : str :=
  lit "Your task is to read the message below carefully and answer questions afterwards. "
  ++ lit "You will be paid $2 for completing this questionnaire, which will take about 10 "
  ++ lit "minutes. As you respond, keep in mind that you have the same human limitation on "
  ++ lit "time, effort, and money as real human participants. Consider the context of the "
  ++ lit "donation appeal. When you give the ratings, please focus on your native and second "
  ++ lit "language, which means your answer should reflect the general cognition of a real, "
  ++ lit "typical bilingual person. Try to simulate bilinguals with varying moral standards. "
  ++ lit "Don’t judge with high moral standards all the time."
  ++ nl
  ++ nl.

Definition _EN_APPEAL_AND_ITEMS : str :=
  lit "Imagine seeing a boy enduring the pain of hunger and thirst by himself. The boy "
  ++ lit "says, “When I go to bed, I’m always hungry.” He is worried about where his mother "
  ++ lit "will get food for tomorrow. Just north of his home near the country border, a civil "
  ++ lit "war is raging. A few weeks back, he cut a big gash in his toe. You can see the "
  ++ lit "wound is still open because he doesn't have bandages to keep dirt out of the cut. "
  ++ lit "With just a small donation, you can provide basic necessities to suffering kids "
  ++ lit "across the globe. "
  ++ nl
  ++ nl
  ++ lit "After reading it carefully, please rate each of the following items on appointed "
  ++ lit "scales and give your reasons respectively:"
  ++ nl
  ++ lit "1. How connected did you feel to the boy enduring hunger and thirst? 1= No overlap "
  ++ lit "(least close), 5 = Almost complete overlap (most close)"
  ++ nl
  ++ lit "2. How upsetting is the scene described in the message to you?  1 = Not at all, 7 = "
  ++ lit "Extremely."
  ++ nl
  ++ lit "3. How sympathetic did you feel while reading the description of the boy? 1 = Not "
  ++ lit "at all, 7 = Extremely."
  ++ nl
  ++ lit "4. How much do you feel it is your moral responsibility to help the boy out? 1 = "
  ++ lit "Not at all, 7 = Extremely."
  ++ nl
  ++ lit "5. How touched were you by the situation described?  1 = Not at all, 7 = Extremely."
  ++ nl
  ++ lit "6. To what extent do you feel that it is appropriate to give money to aid the boy? "
  ++ lit "1 = Not at all, 7 = Extremely."
  ++ nl
  ++ lit "7. To help "
  ++ dq
  ++ lit "Save the Kids"
  ++ dq
  ++ lit ", would you like to help evaluate some of their slogans? There is no extra pay for "
  ++ lit "this task. You can choose to participate or not, voluntarily. Your payment won't be "
  ++ lit "impacted. You are going to evaluate 35 slogans in total. The task takes about 10 "
  ++ lit "minutes to complete. If you choose to participate, please choose "
  ++ dq
  ++ lit "Yes"
  ++ dq
  ++ lit " to see the extra questions. If you choose not to participate, please choose "
  ++ dq
  ++ lit "Skip"
  ++ dq
  ++ lit " to skip this task. 1= yes, 0 = skip."
  ++ nl.

Definition _ZH_PREFIX : str :=
  lit "您正在参与一项问卷调查。我们邀请您阅读一份为“儿童救助会”发起的捐款呼吁。该组织致力于帮助全球有需要的儿童。今天是{DATE_ZH}。您是一位母语为普通话的人，同时也能"
  ++ lit "说流利的英语，目前居住在美国。".

Definition _ZH_BRACKET_TEMPLATE : str :=
  lit "您是[{gender_zh}，{age}岁]。".

Definition _ZH_SUFFIX : str :=
  lit "您的任务是仔细阅读以下信息并回答问题。你将获得2美元报酬来完成这份问卷，完成大约需要10分钟。在作答时，请牢记，您与真实的人类参与者一样，在时间、精力和金钱方面都有相同"
  ++ lit "的限制。请结合捐赠呼吁的背景进行思考。当您给出评分时，请着重考虑您的母语和第二语言，这意味着您的回答应反映出一个真实、典型的双语者的普遍认知。请尝试模拟具有不同道德标准"
  ++ lit "的双语者，不要总是以过于高的道德标准进行判断。"
  ++ nl
  ++ nl.

Definition _ZH_APPEAL_AND_ITEMS : str :=
  lit "想象一下，一个小男孩独自忍受着口渴和饥饿的痛苦。这个男孩说：“我每次睡觉前，总是很饿。” "
  ++ lit "他还担心妈妈明天去哪里能找到食物。就在他家的北部，靠近边境的地方，内战正在肆虐。几周前，他脚趾上被割了一个大伤口。您可以看到伤口仍然张开着，因为他没有绷带来防止污垢进入"
  ++ lit "伤口。您的一点捐赠，就可以为全球生活极度困苦的孩子们提供基本的必需品。"
  ++ nl
  ++ nl
  ++ lit "仔细阅读后，请分别用一个数字，按照指定的量表对以下每一项进行评分，并分别说明您的理由："
  ++ nl
  ++ lit "1. 您觉得自己与那个忍受饥饿和口渴的男孩有多么紧密相连？1 = 没有重叠（最不亲近），5 = 几乎完全重叠（最亲近）"
  ++ nl
  ++ lit "2. 上文中描述的场景有多令您担忧？1 = 一点也不，7 = 非常。"
  ++ nl
  ++ lit "3. 在阅读上文时，您是否同情小男孩？1 = 一点也不，7 = 非常。"
  ++ nl
  ++ lit "4. 您觉得帮助这个小男孩是您的道德责任吗？1 = 一点也不，7 = 非常。"
  ++ nl
  ++ lit "5. 您对所描述的情景有多大的触动？1 = 一点也不，7 = 非常。"
  ++ nl
  ++ lit "6. 您是否认为捐赠资金来帮助这个孩子是合适的？1 = 一点也不，7 = 非常。"
  ++ nl
  ++ lit "7. 另外，为了帮助“儿童救助会”，您愿意参与评估他们的一些宣传语吗？ "
  ++ lit "这项任务没有额外的报酬，您可以自由选择参加或不参加。不参加不会影响您既得的报酬。﻿﻿总共有35个宣传语需要评估。此项任务大约需要10分钟完成。如果选择参加，请点击 "
  ++ lit "“愿意参加”。您将会回答额外的问题。如果选择不参加，请点击“跳过“。那么您将会跳过这些问题。1 = 愿意参加，0 = 跳过。".

(** The instruction both builders insert before the appeal. *)
Definition JSON_INSTRUCTION : str :=
  lit "Your answer should be in json format, the 14 attributes are called reason_1, "
  ++ lit "item_1, reason_2, item_2, ..., reason_7, item_7, respectively, you need to explain "
  ++ lit "the reasoning behind the evaluation results, and then you just need to give the "
  ++ lit "evaluated score of the items and store it in type int without repeating the "
  ++ lit "explanations."
  ++ nl
  ++ nl.

(** The text [run_study] puts between the opening line and the prompt. *)
Definition ANSWER_IN_JSON : str :=
  nl
  ++ nl
  ++ lit "Please answer strictly in JSON format using the structure described below."
  ++ nl
  ++ nl.


(** ** Keys and patterns *)

Definition keys_1_to_7 (stem : str) : list str :=
  map (fun i => stem ++ str_of_int i) [1; 2; 3; 4; 5; 6; 7]%Z.

Definition REASON_KEYS : list str := keys_1_to_7 (lit "reason_").
Definition ITEM_KEYS : list str := keys_1_to_7 (lit "item_").

(** [^-?\d+$] *)
Definition _NUM : regex :=
  RSeq RBol
  (RSeq (ROpt (RChar [ALit (ch "-")]))
  (RSeq (RPlus (RChar [ADigit]))
        REol)).

Definition SEP : cclass := [ALit (ch "_"); ASpace; ALit (ch "-")].

(** [reason[_\s-]*(\d+)\s*[:\-–]\s*(.+)] with [re.I] *)
Definition REASON_LINE : regex :=
  RWord AFold (lit "reason")
  (RSeq (RStar (RChar SEP))
  (RSeq (RGroup 1 (RPlus (RChar [ADigit])))
  (RSeq (RStar (RChar [ASpace]))
  (RSeq (RChar [ALit (ch ":"); ALit (ch "-"); ALit 8211%N])
  (RSeq (RStar (RChar [ASpace]))
        (RGroup 2 (RPlus (RChar [ADot])))))))).

(** [item[_\s-]*(\d+)\s*[:=\-–]\s*([0-9]+)] with [re.I] *)
Definition ITEM_LINE : regex :=
  RWord AFold (lit "item")
  (RSeq (RStar (RChar SEP))
  (RSeq (RGroup 1 (RPlus (RChar [ADigit])))
  (RSeq (RStar (RChar [ASpace]))
  (RSeq (RChar [ALit (ch ":"); ALit (ch "="); ALit (ch "-"); ALit 8211%N])
  (RSeq (RStar (RChar [ASpace]))
        (RGroup 2 (RPlus (RChar [ARange (ch "0") (ch "9")])))))))).

(** Modelled from the spec: [map_gender], which [load_profiles_from_xlsx]
    calls on every Gender cell and whose definition is not part of the
    source file. The spec makes it a total function from the codes 1 to 4 to
    a label pair (English, Chinese) and has every other code rejected; the
    labels are those of the docstring of [load_profiles_from_xlsx]. *)
Definition map_gender (code : pyval) : result (str * str) :=
  match code with
  | PInt 1 => Ok (lit "male", lit "男")
  | PInt 2 => Ok (lit "female", lit "女")
  | PInt 3 => Ok (lit "non-binary", lit "都不是/第三性别")
  | PInt 4 => Ok (lit "prefer not to say", lit "不透露")
  | _ => Raise ValueError
  end.

Section Script.
Variable rt : runtime.
Variable svc : service.

(** Total participants; the script sets 308. *)
Variable N_TARGET : nat.

(** ** Loading the profiles *)

(** [int(v)] *)
Definition py_int (v : pyval) : result Z :=
  match v with
  | PInt z => Ok z
  | PBool b => Ok (if b then 1 else 0)%Z
  | PFloat f => int_of_float f
  | PStr s => int_of_str rt s
  | _ => Raise TypeError
  end.

Definition normal (label : str) : str := strip rt (str_lower rt label).

(** Column resolver: the dictionary from normalised label to label is filled
    twice over the columns, then the candidates are tried in order. *)
Definition pick_col (df : dataframe) (candidates : list str) : option str :=
  let fill := fold_left (fun cols c => assoc_set cols (normal c) c) in
  let cols := fill (columns df) (fill (columns df) []) in
  (fix try (cands : list str) : option str :=
     match cands with
     | [] => None
     | cand :: rest =>
       match assoc_get cols (normal cand) with
       | Some c => Some c
       | None => try rest
       end
     end) candidates.

(** Position of a column label. *)
Fixpoint col_index (cols : list str) (c : str) : option nat :=
  match cols with
  | [] => None
  | c' :: rest =>
    if str_eqb c' c then Some 0
    else match col_index rest c with Some j => Some (S j) | None => None end
  end.

(** [row[c]]: a record shorter than the header has missing cells. *)
Definition cell_at (df : dataframe) (c : str) (record : list cell) : cell :=
  match col_index (columns df) c with
  | Some j => nth j record None
  | None => None
  end.

Definition isna (x : cell) : bool :=
  match x with None => true | Some _ => false end.

(** [not c] for a picked column: nothing picked, or an empty label. *)
Definition unpicked (c : option str) : bool :=
  match c with
  | None => true
  | Some [] => true
  | Some _ => false
  end.

Fixpoint build_profiles (df : dataframe) (c_age c_gender : str)
  (recs : list (list cell)) (profiles : list profile)
  : result (list profile) :=
  match recs with
  | [] => Ok profiles
  | record :: rest =>
    match cell_at df c_age record, cell_at df c_gender record with
    | Some a, Some g =>
      rbind (py_int a) (fun age_i =>
      rbind (map_gender g) (fun '(g_en, g_zh) =>
      build_profiles df c_age c_gender rest
        (profiles ++ [{| age := age_i; gender_en := g_en;
                         gender_zh := g_zh |}])))
    | _, _ => Raise ValueError
    end
  end.

(** Load exactly [n] rows, in the original row order. *)
Definition load_profiles_from_xlsx (df : dataframe) (n : nat)
  : result (list profile) :=
  let c_age := pick_col df [lit "Age"; lit "年龄"] in
  let c_gender := pick_col df [lit "Gender"; lit "性别"] in
  match c_age, c_gender with
  | Some c_age, Some c_gender =>
    if unpicked (Some c_age) || unpicked (Some c_gender) then Raise ValueError
    else if negb (Nat.eqb (length (records df)) n) then Raise ValueError
    else if existsb (fun r => isna (cell_at df c_age r)) (records df)
            || existsb (fun r => isna (cell_at df c_gender r)) (records df)
    then Raise ValueError
    else build_profiles df c_age c_gender (records df) []
  | _, _ => Raise ValueError
  end.

(** ** Building the prompts *)

(** [tpl.format] with keyword arguments [kw], for a template whose replacement fields are plain
    names; [field] holds the name being read, latest character first. *)
Fixpoint format_go (kw : list (str * pyval)) (field : option str)
  (tpl : str) : result str :=
  match tpl with
  | [] => match field with None => Ok [] | Some _ => Raise ValueError end
  | c :: r =>
    match field with
    | Some name =>
      if (c =? ch "}")%N then
        match assoc_get kw (rev name) with
        | Some v =>
          rbind (format_go kw None r) (fun out => Ok (py_format rt v ++ out))
        | None => Raise KeyError
        end
      else format_go kw (Some (c :: name)) r
    | None =>
      if (c =? ch "{")%N then
        match r with
        | c2 :: r2 =>
          if (c2 =? ch "{")%N
          then rbind (format_go kw None r2) (fun out => Ok (c :: out))
          else format_go kw (Some []) r
        | [] => Raise ValueError
        end
      else if (c =? ch "}")%N then
        match r with
        | c2 :: r2 =>
          if (c2 =? ch "}")%N
          then rbind (format_go kw None r2) (fun out => Ok (c :: out))
          else Raise ValueError
        | [] => Raise ValueError
        end
      else rbind (format_go kw None r) (fun out => Ok (c :: out))
    end
  end.

Definition format (tpl : str) (kw : list (str * pyval)) : result str :=
  format_go kw None tpl.

Definition build_english_prompt (gender_en : str) (age : Z) : result str :=
  rbind (format _EN_BRACKET_TEMPLATE
           [(lit "gender_en", PStr gender_en); (lit "age", PInt age)])
    (fun injected_line =>
       Ok (_EN_HEADER_PREFIX ++ injected_line ++ _EN_HEADER_SUFFIX
           ++ JSON_INSTRUCTION ++ _EN_APPEAL_AND_ITEMS)).

Definition build_mandarin_prompt (gender_zh : str) (age : Z) : result str :=
  rbind (format _ZH_BRACKET_TEMPLATE
           [(lit "gender_zh", PStr gender_zh); (lit "age", PInt age)])
    (fun injected_line =>
       Ok (_ZH_PREFIX ++ injected_line ++ _ZH_SUFFIX
           ++ JSON_INSTRUCTION ++ _ZH_APPEAL_AND_ITEMS)).

(** Native = Mandarin; second = English (fixed). *)
Definition build_questionnaire (questionnaire_lang gender_en gender_zh : str)
  (age : Z) : result (str * str) :=
  if str_eqb questionnaire_lang (lit "English") then
    rbind (build_english_prompt gender_en age)
          (fun p => Ok (lit "English", p))
  else
    rbind (build_mandarin_prompt gender_zh age)
          (fun p => Ok (lit "Mandarin", p)).

(** ** The call, with its plain-text fallback *)

(** The reasons and items salvaged from plain text. *)
Definition salvage_reasons (txt : str) : list (str * pyval) :=
  fold_left
    (fun reasons m =>
       match groupn m 1, groupn m 2 with
       | Some g1, Some g2 =>
         assoc_set reasons (lit "reason_" ++ g1) (PStr (strip rt g2))
       | _, _ => reasons
       end)
    (finditer rt REASON_LINE txt) [].

Fixpoint salvage_items_from (ms : list (mstate * mstate))
  (items : list (str * pyval)) : result (list (str * pyval)) :=
  match ms with
  | [] => Ok items
  | m :: rest =>
    match groupn m 1, groupn m 2 with
    | Some g1, Some g2 =>
      rbind (int_of_str rt g2) (fun z =>
        salvage_items_from rest (assoc_set items (lit "item_" ++ g1) (PInt z)))
    | _, _ => salvage_items_from rest items
    end
  end.

Definition salvage_items (txt : str) : result (list (str * pyval)) :=
  salvage_items_from (finditer rt ITEM_LINE txt) [].

(** The combined dictionary: the seven reason/item pairs, in order. *)
Definition combine_fields (reasons items : list (str * pyval))
  : list (str * pyval) :=
  fold_left
    (fun data i =>
       let rk := lit "reason_" ++ str_of_int i in
       let ik := lit "item_" ++ str_of_int i in
       let data :=
         assoc_set data rk
           (match assoc_get reasons rk with Some v => v | None => PStr [] end) in
       assoc_set data ik (dict_get items ik))
    [1; 2; 3; 4; 5; 6; 7]%Z [].

(** Does some key of the parsed reply look like what is expected? *)
Definition expected_key (k : str) : bool :=
  startswith k (lit "reason_") || startswith k (lit "item_").

(** The first [try] block: the parsed reply when it is usable. *)
Definition json_attempt (o : outcome) : option (list (str * pyval)) :=
  match o with
  | Content (Some txt) =>
    match json_loads rt txt with
    | Some (PDict parsed) =>
      if existsb (fun kv => expected_key (fst kv)) parsed
      then Some parsed else None
    | _ => None
    end
  | _ => None
  end.

(** The second [try] block; every exception gives the empty dictionary. *)
Definition text_attempt (o : outcome) : list (str * pyval) :=
  match o with
  | Content (Some txt) =>
    match salvage_items txt with
    | Ok items => combine_fields (salvage_reasons txt) items
    | Raise _ => []
    end
  | _ => []
  end.

Definition chat_completion_json (msgs : list (str * str))
  : io (list (str * pyval)) :=
  o <- call svc {| messages := msgs; json_mode := true |} ;;
  match json_attempt o with
  | Some parsed => ret parsed
  | None =>
    o2 <- call svc {| messages := msgs; json_mode := false |} ;;
    ret (text_attempt o2)
  end.

(** ** Running the study *)

(** Reasons: strings. *)
Definition reason_of (v : pyval) : str :=
  match v with
  | PStr s => strip rt s
  | _ => []
  end.

(** Items: coerce to int if numeric, else [None]. *)
Definition coerce_item (v : pyval) : result pyval :=
  match v with
  | PBool b => Ok (PBool b)
  | PInt z => Ok (PInt z)
  | PFloat f => rbind (int_of_float f) (fun z => Ok (PInt z))
  | PStr s =>
    match re_match rt _NUM (strip rt s) with
    | Some _ => rbind (int_of_str rt (strip rt s)) (fun z => Ok (PInt z))
    | None => Ok PNone
    end
  | _ => Ok PNone
  end.

Fixpoint coerce_items (keys : list str) (data : list (str * pyval))
  (items : list (str * pyval)) : result (list (str * pyval)) :=
  match keys with
  | [] => Ok items
  | ik :: rest =>
    rbind (coerce_item (dict_get data ik)) (fun v =>
      coerce_items rest data (assoc_set items ik v))
  end.

Definition design : list str :=
  random_shuffle rt
    (flat_map (fun lvl => repeat lvl (N_TARGET / 2))
              [lit "English"; lit "Mandarin"]).

(** The body of the loop: participant [i] with profile [prof]. *)
Definition study_one (i : nat) (prof : profile) : io row :=
  match nth_error design (i - 1) with
  | None => raise IndexError
  | Some qlang =>
    qp <- lift (build_questionnaire qlang (gender_en prof) (gender_zh prof)
                                    (age prof)) ;;
    let '(q_label, prompt_text) := qp in
    let msgs :=
      [ (lit "system", SYSTEM_ROLE_PROMPT);
        (lit "user", BEGIN_USER ++ ANSWER_IN_JSON ++ prompt_text) ] in
    data <- chat_completion_json msgs ;;
    let reasons := map (fun rk => (rk, reason_of (dict_get data rk))) REASON_KEYS in
    items <- lift (coerce_items ITEM_KEYS data []) ;;
    ret {| participant_id := i;
           native_language := lit "Mandarin";
           second_language := lit "English";
           questionnaire_language := q_label;
           row_age := age prof;
           row_gender_en := gender_en prof;
           row_gender_zh := gender_zh prof;
           reason_fields := reasons;
           item_fields := items |}
  end.

Fixpoint for_profiles (i : nat) (profiles : list profile) (rows : list row)
  : io (list row) :=
  match profiles with
  | [] => ret rows
  | prof :: rest =>
    r <- study_one i prof ;;
    for_profiles (S i) rest (rows ++ [r])
  end.

(** The study over the spreadsheet [df]; the result is the table written to
    both output files, row by row. *)
Definition run_study (df : dataframe) : io (list row) :=
  profiles <- lift (load_profiles_from_xlsx df N_TARGET) ;;
  for_profiles 1 profiles [].

End Script.
End JLR.

(* ================================================================== *)
(** * Part VI.  Vocabulary of the specification                         *)
(* ================================================================== *)

(** The definitions of this part are not code of the scripts: they name
    what the statements below speak about. *)

Module Spec.

(** ** The injection span of a prompt template *)

(** The fixed template of a questionnaire language, as the builder
    concatenates it before substitution. *)
Definition template (english : bool) : str :=
  if english then
    JLR._EN_HEADER_PREFIX ++ JLR._EN_BRACKET_TEMPLATE ++ JLR._EN_HEADER_SUFFIX
    ++ JLR.JSON_INSTRUCTION ++ JLR._EN_APPEAL_AND_ITEMS
  else
    JLR._ZH_PREFIX ++ JLR._ZH_BRACKET_TEMPLATE ++ JLR._ZH_SUFFIX
    ++ JLR.JSON_INSTRUCTION ++ JLR._ZH_APPEAL_AND_ITEMS.

(** The text of the template before the span ... *)
Definition before_span (english : bool) : str :=
  if english then JLR._EN_HEADER_PREFIX ++ lit "You are ["
  else JLR._ZH_PREFIX ++ lit "您是[".

(** ... the span as the template has it ... *)
Definition placeholder (english : bool) : str :=
  if english then lit "{gender_en}, {age}" else lit "{gender_zh}，{age}".

(** ... and the text after it. *)
Definition after_span (english : bool) : str :=
  if english then
    lit "] years old. " ++ JLR._EN_HEADER_SUFFIX
    ++ JLR.JSON_INSTRUCTION ++ JLR._EN_APPEAL_AND_ITEMS
  else
    lit "岁]。" ++ JLR._ZH_SUFFIX
    ++ JLR.JSON_INSTRUCTION ++ JLR._ZH_APPEAL_AND_ITEMS.

(** What a profile puts into the span. *)
Definition injected (english : bool) (p : JLR.profile) : str :=
  if english then JLR.gender_en p ++ lit ", " ++ str_of_int (JLR.age p)
  else JLR.gender_zh p ++ lit "，" ++ str_of_int (JLR.age p).

Definition is_english (qlang : str) : bool := str_eqb qlang (lit "English").

Definition label (english : bool) : str :=
  if english then lit "English" else lit "Mandarin".

(** The prompt of a profile in a questionnaire language. *)
Definition rendered (qlang : str) (p : JLR.profile) : str :=
  before_span (is_english qlang) ++ injected (is_english qlang) p
  ++ after_span (is_english qlang).

End Spec.

Module SpecSheet.

Definition AGE_NAMES : list str := [lit "Age"; lit "年龄"].
Definition GENDER_NAMES : list str := [lit "Gender"; lit "性别"].

(** Some record lacks the cell of a required column (the column that the
    resolver picks for Age or for Gender). *)
Definition required_cell_missing (rt : runtime) (df : JLR.dataframe) : Prop :=
  exists c record,
    (JLR.pick_col rt df AGE_NAMES = Some c
     \/ JLR.pick_col rt df GENDER_NAMES = Some c)
    /\ In record (JLR.records df)
    /\ JLR.cell_at df c record = None.

(** The gender codes of the specification: the integers 1, 2, 3 and 4. *)
Definition gender_code (code : pyval) : Prop :=
  exists z, code = PInt z /\ (1 <= z <= 4)%Z.

End SpecSheet.

Module SpecRegex.

(** Greedy repetition of one character class, longest first: what
    [rmatch] does on [RStar (RChar cl)]. *)
Fixpoint greedy (rt : runtime) (cl : cclass) (k : mstate -> option mstate)
  (bef aft : str) (gs : list (nat * str)) : option mstate :=
  let here := k {| before := bef; after := aft; groups := gs |} in
  match aft with
  | c :: rest =>
    if class_match rt cl c
    then orelse (greedy rt cl k (c :: bef) rest gs) here
    else here
  | [] => here
  end.

(** The position [n] characters further. *)
Definition advance (n : nat) (bef aft : str) (gs : list (nat * str))
  : mstate :=
  {| before := rev (firstn n aft) ++ bef; after := skipn n aft;
     groups := gs |}.

(** Every character of [s] is in the class. *)
Definition all_in (rt : runtime) (cl : cclass) (s : str) : Prop :=
  Forall (fun c => class_match rt cl c = true) s.

(** Decimal digits only. *)
Definition all_decimal (rt : runtime) (s : str) : Prop :=
  Forall (fun c => is_decimal rt c = true) s.

(** Concatenations of words of [P]. *)
Inductive star (P : str -> Prop) : str -> Prop :=
| star_nil : star P []
| star_app w1 w2 : P w1 -> star P w2 -> star P (w1 ++ w2).

(** The words a pattern can consume (anchors consume nothing). *)
Fixpoint lang (rt : runtime) (r : regex) (w : str) : Prop :=
  match r with
  | REmpty => w = []
  | RChar cl => exists c, w = [c] /\ class_match rt cl c = true
  | RSeq r1 r2 =>
    exists w1 w2, w = w1 ++ w2 /\ lang rt r1 w1 /\ lang rt r2 w2
  | ROpt r1 => w = [] \/ lang rt r1 w
  | RStar r1 => star (lang rt r1) w
  | RLazy r1 => star (lang rt r1) w
  | RGroup _ r1 => lang rt r1 w
  | RWordB => w = []
  | RBol => w = []
  | REol => w = []
  end.

End SpecRegex.

Module SpecCoerce.

(** [z] is [q] truncated toward zero. *)
Definition truncates (z : Z) (q : Q) : Prop :=
  ((0 <= q)%Q -> (inject_Z z <= q)%Q /\ (q < inject_Z (z + 1))%Q)
  /\ ((q <= 0)%Q -> (inject_Z (z - 1) < q)%Q /\ (q <= inject_Z z)%Q).

(** The text is an optional minus sign followed by one or more decimal
    digits: what the pattern [^-?\d+$] asks of a trimmed string. *)
Definition signed_digits (rt : runtime) (t sign ds : str) : Prop :=
  t = sign ++ ds
  /\ (sign = [] \/ sign = [ch "-"])
  /\ ds <> []
  /\ SpecRegex.all_decimal rt ds.

Definition integer_text (rt : runtime) (t : str) : Prop :=
  exists sign ds, signed_digits rt t sign ds.

(** The integer such a text denotes. *)
Definition signed (sign : str) (n : N) : Z :=
  match sign with
  | [] => Z.of_N n
  | _ => (- Z.of_N n)%Z
  end.

(** The coercion rules as the specification words them: an integer maps to
    itself, a float to its truncation toward zero, a string that is an
    integer text after trimming to that integer, and any other shape to
    null.  The shapes are those of JSON, where a boolean is not a number. *)
Inductive claimed_coercion (rt : runtime) : pyval -> pyval -> Prop :=
| claimed_int z :
    claimed_coercion rt (PInt z) (PInt z)
| claimed_float q z :
    truncates z q ->
    claimed_coercion rt (PFloat (FFinite q)) (PInt z)
| claimed_text s sign ds n :
    signed_digits rt (strip rt s) sign ds ->
    digits_value rt ds = Some n ->
    claimed_coercion rt (PStr s) (PInt (signed sign n))
| claimed_other_text s :
    ~ integer_text rt (strip rt s) ->
    claimed_coercion rt (PStr s) PNone
| claimed_null :
    claimed_coercion rt PNone PNone
| claimed_boolean b :
    claimed_coercion rt (PBool b) PNone
| claimed_array l :
    claimed_coercion rt (PList l) PNone
| claimed_object d :
    claimed_coercion rt (PDict d) PNone.

(** The example reply of the specification. *)
Definition example_reply : list (str * pyval) :=
  [ (lit "item_1", PStr (lit "3"));
    (lit "item_2", PFloat (FFinite 4%Q));
    (lit "item_3", PStr (lit "abc")) ].

End SpecCoerce.

Module SpecScore.

(** [s'] is a position of the same text as [s], [w] further on. *)
Definition reaches (s : mstate) (w : str) (s' : mstate) : Prop :=
  after s = w ++ after s' /\ before s' = rev w ++ before s.

(** A score token: one digit from 1 to 7, alone or followed by a full stop
    and one or more decimal digits. *)
Definition score_token (rt : runtime) (m : str) : Prop :=
  exists d frac,
    m = d :: frac
    /\ (ch "1" <= d)%N /\ (d <= ch "7")%N
    /\ (frac = []
        \/ exists ds, frac = ch "." :: ds /\ ds <> []
                      /\ SpecRegex.all_decimal rt ds).

(** The text [m] stands between word boundaries, with [bef] before it
    (nearest character first) and [aft] after it. *)
Definition delimited (rt : runtime) (bef m aft : str) : Prop :=
  at_boundary rt {| before := bef; after := m ++ aft; groups := [] |} = true
  /\ at_boundary rt {| before := rev m ++ bef; after := aft; groups := [] |}
     = true.

(** [ms] are occurrences in the text [aft] (which follows [bef]), from left
    to right and without overlap, each satisfying [P] where it stands. *)
Inductive occur (P : str -> str -> str -> Prop)
  : str -> list str -> str -> Prop :=
| occur_none bef aft : occur P bef [] aft
| occur_next bef gap m ms rest :
    P (rev gap ++ bef) m rest ->
    occur P (rev m ++ rev gap ++ bef) ms rest ->
    occur P bef (m :: ms) (gap ++ m ++ rest).

(** The value of a token lies in [1,7]. *)
Definition in_range (rt : runtime) (m : str) : bool :=
  match float_of_str rt m with
  | Some f => float_between 1 7 f
  | None => false
  end.

(** *** The claim as the specification words it *)

(** Longest prefix of decimal digits, and the rest. *)
Fixpoint span_digits (rt : runtime) (s : str) : str * str :=
  match s with
  | c :: r =>
    if is_decimal rt c
    then let '(a, b) := span_digits rt r in (c :: a, b)
    else ([], s)
  | [] => ([], [])
  end.

(** The integer-or-decimal tokens of a text, from left to right: maximal
    runs of digits, with a fraction when a full stop and a digit follow. *)
Fixpoint number_tokens_from (fuel : nat) (rt : runtime) (s : str)
  : list str :=
  match fuel with
  | O => []
  | S fuel' =>
    match s with
    | [] => []
    | c :: r =>
      if is_decimal rt c then
        let '(ip, rest) := span_digits rt s in
        match rest with
        | dot :: rest' =>
          let '(fp, rest'') := span_digits rt rest' in
          if (dot =? ch ".")%N && negb (Nat.eqb (length fp) 0)
          then (ip ++ dot :: fp) :: number_tokens_from fuel' rt rest''
          else ip :: number_tokens_from fuel' rt rest
        | [] => [ip]
        end
      else number_tokens_from fuel' rt r
    end
  end.

Definition number_tokens (rt : runtime) (text : str) : list str :=
  number_tokens_from (length text) rt text.

(** The first token whose value lies in [1,7], else nothing. *)
Definition claimed_extract_score (rt : runtime) (text : str)
  : option pyfloat :=
  S4C.first_score rt (number_tokens rt text).

End SpecScore.

Module SpecFallback.

(** A key that looks like what is expected: it starts with [reason_] or
    with [item_]. *)
Definition expected (k : str) : Prop :=
  (exists rest, k = lit "reason_" ++ rest)
  \/ (exists rest, k = lit "item_" ++ rest).

(** The JSON-mode attempt gives nothing usable: the call (or reading its
    reply) fails, the reply has no text, the text does not parse, the parsed
    value is not an object, or no key of the object starts with [reason_]
    or [item_]. *)
Definition json_mode_unusable (rt : runtime) (o : outcome) : Prop :=
  o = Failure
  \/ o = Content None
  \/ exists txt,
       o = Content (Some txt)
       /\ (json_loads rt txt = None
           \/ (exists v, json_loads rt txt = Some v
                         /\ forall d, v <> PDict d)
           \/ (exists d, json_loads rt txt = Some (PDict d)
                         /\ forall k v, In (k, v) d -> ~ expected k)).

(** The fallback call fails as well. *)
Definition text_mode_fails (o : outcome) : Prop :=
  o = Failure \/ o = Content None.

(** The two requests of one structured exchange. *)
Definition json_request (msgs : list (str * str)) : request :=
  {| messages := msgs; json_mode := true |}.

Definition text_request (msgs : list (str * str)) : request :=
  {| messages := msgs; json_mode := false |}.

(** The fields of a row when nothing could be recovered. *)
Definition default_reasons : list (str * str) :=
  map (fun rk => (rk, [])) JLR.REASON_KEYS.

Definition default_items : list (str * pyval) :=
  map (fun ik => (ik, PNone)) JLR.ITEM_KEYS.

(** The messages [run_study] sends for a prompt. *)
Definition study_messages (prompt_text : str) : list (str * str) :=
  [ (lit "system", JLR.SYSTEM_ROLE_PROMPT);
    (lit "user", JLR.BEGIN_USER ++ JLR.ANSWER_IN_JSON ++ prompt_text) ].

(** The row of participant [i] with profile [prof] for the reply [data]
    coerced to [items]. *)
Definition row_of (rt : runtime) (i : nat) (prof : JLR.profile)
  (qlang : str) (data items : list (str * pyval)) : JLR.row :=
  {| JLR.participant_id := i;
     JLR.native_language := lit "Mandarin";
     JLR.second_language := lit "English";
     JLR.questionnaire_language := Spec.label (Spec.is_english qlang);
     JLR.row_age := JLR.age prof;
     JLR.row_gender_en := JLR.gender_en prof;
     JLR.row_gender_zh := JLR.gender_zh prof;
     JLR.reason_fields :=
       map (fun rk => (rk, JLR.reason_of rt (dict_get data rk)))
           JLR.REASON_KEYS;
     JLR.item_fields := items |}.

(** The profile a row was made from. *)
Definition profile_of (r : JLR.row) : JLR.profile :=
  {| JLR.age := JLR.row_age r;
     JLR.gender_en := JLR.row_gender_en r;
     JLR.gender_zh := JLR.row_gender_zh r |}.

End SpecFallback.

Module SpecLines.

(** A line of a plain-text reply, of one of the two forms
    [reason_<n>: <text>] and [item_<n>: <integer>]. *)
Inductive line :=
| ReasonLine (n : N) (text : str)
| ItemLine (n : N) (digits : str).

(** The character of the digit [n]. *)
Definition digit_char (n : N) : char := (48 + n)%N.

Definition reason_key (n : N) : str := lit "reason_" ++ [digit_char n].
Definition item_key (n : N) : str := lit "item_" ++ [digit_char n].

Definition line_text (l : line) : str :=
  match l with
  | ReasonLine n text => reason_key n ++ lit ": " ++ text
  | ItemLine n digits => item_key n ++ lit ": " ++ digits
  end.

(** Texts joined by newlines. *)
Fixpoint joined (texts : list str) : str :=
  match texts with
  | [] => []
  | t :: rest =>
    t ++ match rest with
         | [] => []
         | _ :: _ => nl ++ joined rest
         end
  end.

(** The reply that consists of the lines. *)
Definition reply_of (ls : list line) : str := joined (map line_text ls).

(** The letters of the word item, in either case (for the first letter
    also the dotted capital and the dotless small i). *)
Definition is_i (c : char) : bool :=
  (c =? 105)%N || (c =? 73)%N || (c =? 304)%N || (c =? 305)%N.
Definition is_t (c : char) : bool := (c =? 116)%N || (c =? 84)%N.
Definition is_e (c : char) : bool := (c =? 101)%N || (c =? 69)%N.
Definition is_m (c : char) : bool := (c =? 109)%N || (c =? 77)%N.

(** The text starts with the word item. *)
Definition item_here (t : str) : bool :=
  match t with
  | c1 :: t1 =>
    is_i c1 &&
    match t1 with
    | c2 :: t2 =>
      is_t c2 &&
      match t2 with
      | c3 :: t3 =>
        is_e c3 && match t3 with c4 :: _ => is_m c4 | [] => false end
      | [] => false
      end
    | [] => false
    end
  | [] => false
  end.

(** The word item occurs somewhere in the text. *)
Fixpoint mentions_item (t : str) : bool :=
  match t with
  | [] => false
  | _ :: t' => item_here t || mentions_item t'
  end.

Definition ascii_digit (c : char) : Prop := (48 <= c)%N /\ (c <= 57)%N.

(** A text of [n] digits is within what the interpreter converts. *)
Definition fits (rt : runtime) (n : nat) : Prop :=
  int_max_str_digits rt = 0 \/ n <= int_max_str_digits rt.

(** The lines the recovery is specified for: the number of the field is
    one of 1 to 7; the text of a reason stays on its line, is not blank and
    does not contain the word item; the integer of an item is a non-empty
    sequence of the digits 0 to 9. *)
Definition well_formed (rt : runtime) (l : line) : Prop :=
  match l with
  | ReasonLine n text =>
    (1 <= n)%N /\ (n <= 7)%N
    /\ ~ In 10%N text
    /\ (exists c, In c text /\ is_space rt c = false)
    /\ mentions_item text = false
  | ItemLine n digits =>
    (1 <= n)%N /\ (n <= 7)%N
    /\ digits <> []
    /\ Forall ascii_digit digits
    /\ fits rt (length digits)
  end.

(** Where a line ends: at the end of the text or at a newline. *)
Definition line_end (tail : str) : Prop :=
  tail = [] \/ exists r, tail = 10%N :: r.

(** The two groups of a match. *)
Definition captures (m : mstate * mstate) : option str * option str :=
  (groupn m 1, groupn m 2).

(** The groups of the match of a line: the reason pattern matches a reason
    line from its start to its end and captures the number and the text
    without its leading white space; the item pattern matches an item line
    and captures the number and the digits. *)
Definition reason_groups (rt : runtime) (l : line)
  : option (option str * option str) :=
  match l with
  | ReasonLine n text =>
    Some (Some [digit_char n], Some (lstrip_by (is_space rt) text))
  | ItemLine _ _ => None
  end.

Definition item_groups (l : line) : option (option str * option str) :=
  match l with
  | ItemLine n digits => Some (Some [digit_char n], Some digits)
  | ReasonLine _ _ => None
  end.

Definition found {A} (o : option A) : list A :=
  match o with Some c => [c] | None => [] end.

(** The number a digit sequence denotes. *)
Fixpoint number_of (acc : N) (digits : str) : N :=
  match digits with
  | [] => acc
  | c :: r => number_of (10 * acc + (c - 48))%N r
  end.

(** What the lines say about reason [k] and about item [k]: the text, or
    the digits, of the last line for it. *)
Definition told_reason (ls : list line) (k : N) : option str :=
  fold_left
    (fun acc l =>
       match l with
       | ReasonLine n text => if (n =? k)%N then Some text else acc
       | ItemLine _ _ => acc
       end) ls None.

Definition told_item (ls : list line) (k : N) : option str :=
  fold_left
    (fun acc l =>
       match l with
       | ItemLine n digits => if (n =? k)%N then Some digits else acc
       | ReasonLine _ _ => acc
       end) ls None.

(** The fields to be recovered: the trimmed text, or the empty text when
    no line gives the reason; the integer, or null when no line gives the
    item. *)
Definition recovered_text (rt : runtime) (ls : list line) (k : N) : str :=
  match told_reason ls k with
  | Some text => strip rt text
  | None => []
  end.

Definition recovered_reason (rt : runtime) (ls : list line) (k : N)
  : pyval :=
  PStr (recovered_text rt ls k).

Definition recovered_item (ls : list line) (k : N) : pyval :=
  match told_item ls k with
  | Some digits => PInt (Z.of_N (number_of 0 digits))
  | None => PNone
  end.

End SpecLines.

Module SpecRows.

(** *** Multi-condition pipeline *)

(** The request for the profiles, and the request for one answer. *)
Definition profiles_request : request :=
  {| messages :=
       [ (lit "system", lit "You are a demographic data generator.");
         (lit "user", S4C.PROFILE_PROMPT) ];
     json_mode := false |}.

Definition respondent_request (prompt : str) : request :=
  {| messages :=
       [ (lit "system", lit "You are a helpful survey respondent.");
         (lit "user", prompt) ];
     json_mode := false |}.

(** The text the script keeps of an outcome. *)
Definition reply_text (rt : runtime) (o : outcome) : str :=
  match o with
  | Content (Some text) => strip rt text
  | _ => lit "ERROR"
  end.

(** The request a row was obtained with. *)
Definition row_request (rt : runtime) (r : S4C.row) : request :=
  respondent_request
    (S4C.create_donation_prompt rt (S4C.survey_language r)
       (S4C.native_language r) (S4C.country r) (S4C.gender r) (S4C.age r)).

(** Each row holds the reply to its own request, the requests being
    numbered from [base] on in row order, and the score extracted from that
    reply. *)
Fixpoint answered (rt : runtime) (svc : service) (base : nat)
  (rows : list S4C.row) : Prop :=
  match rows with
  | [] => True
  | r :: rest =>
    S4C.response r = reply_text rt (svc base (row_request rt r))
    /\ S4C.score r = S4C.extract_score rt (S4C.response r)
    /\ answered rt svc (S base) rest
  end.

(** What identifies a row: its condition and its profile. *)
Definition key (r : S4C.row) : S4C.condition * pyval * pyval :=
  ((S4C.survey_language r, S4C.native_language r, S4C.country r),
   S4C.age r, S4C.gender r).

Definition key_of (c : S4C.condition) (d : list (str * pyval))
  : S4C.condition * pyval * pyval :=
  (c, dict_get d (lit "age"), dict_get d (lit "gender")).

(** Condition-major, profile-minor order. *)
Definition iteration_order (cs : list S4C.condition)
  (ds : list (list (str * pyval))) : list (S4C.condition * pyval * pyval) :=
  flat_map (fun c => map (key_of c) ds) cs.

End SpecRows.

Module SpecStudy.

(** The profile built from a record of the sheet: the Age cell through
    [int], the Gender cell through the gender mapping. *)
Definition profile_of_record (rt : runtime) (df : JLR.dataframe)
  (c_age c_gender : str) (record : list JLR.cell) (p : JLR.profile) : Prop :=
  exists a g,
    JLR.cell_at df c_age record = Some a
    /\ JLR.cell_at df c_gender record = Some g
    /\ JLR.py_int rt a = Ok (JLR.age p)
    /\ JLR.map_gender g = Ok (JLR.gender_en p, JLR.gender_zh p).

End SpecStudy.

(* ================================================================== *)
(** * Part VII.  Fixtures                                               *)
(* ================================================================== *)

Module Fixture.

(** A sheet with two records, the second one without its Gender cell. *)
Definition sheet_missing_gender : JLR.dataframe :=
  {| JLR.columns := [lit "Age"; lit "Gender"];
     JLR.records := [[Some (PInt 35); Some (PInt 1)];
                     [Some (PInt 20); None]] |}.

(** A sheet with four complete records. *)
Definition sheet4 : JLR.dataframe :=
  {| JLR.columns := [lit "Age"; lit "Gender"];
     JLR.records := [[Some (PInt 35); Some (PInt 1)];
                     [Some (PInt 20); Some (PInt 2)];
                     [Some (PInt 41); Some (PInt 3)];
                     [Some (PInt 58); Some (PInt 4)]] |}.

(** A service that is down. *)
Definition silent_service : service := fun _ _ => Failure.

(** A service that refuses the JSON format and answers in plain lines. *)
Definition plain_lines : str :=
  lit "reason_1: I care" ++ nl ++ lit "item_1: 5".

Definition text_only_service : service :=
  fun _ rq => if json_mode rq then Failure else Content (Some plain_lines).

(** Four generated profiles, and a runtime whose JSON parser returns them. *)
Definition four_profiles : list (list (str * pyval)) :=
  [ [(lit "age", PInt 34); (lit "gender", PStr (lit "female"))];
    [(lit "age", PInt 27); (lit "gender", PStr (lit "male"))];
    [(lit "age", PInt 63); (lit "gender", PStr (lit "female"))];
    [(lit "age", PInt 45); (lit "gender", PStr (lit "male"))] ].

Definition profile_runtime : runtime :=
  {| uni_decimal := uni_decimal ascii_runtime;
     uni_space := uni_space ascii_runtime;
     uni_alnum := uni_alnum ascii_runtime;
     str_lower := str_lower ascii_runtime;
     json_loads := fun _ => Some (PList (map PDict four_profiles));
     repr_other := repr_other ascii_runtime;
     int_max_str_digits := 4300;
     random_shuffle := fun l => l |}.

(** The first call returns the profile array, every later call a rating. *)
Definition scripted_service : service :=
  fun n _ =>
    if Nat.eqb n 0 then Content (Some (lit "```json [ {} ] ```"))
    else Content (Some (lit "I would say 8, then 4."))
.

End Fixture.

(* ================================================================== *)
(** * Part VII bis.  Vocabulary for further properties                  *)
(* ================================================================== *)

From Stdlib Require Import Permutation.

Module SpecArray.

(** The text without its code fences: from left to right, each run of
    three back-ticks is dropped, together with the word json when it
    follows directly.  [skip] characters are dropped first. *)
Fixpoint drop_fences (skip : nat) (t : str) : str :=
  match t with
  | [] => []
  | c :: r =>
    match skip with
    | S k => drop_fences k r
    | O =>
      if startswith t (lit "```json") then drop_fences 6 r
      else if startswith t (lit "```") then drop_fences 2 r
      else c :: drop_fences 0 r
    end
  end.

(** The cleaned reply: fences dropped, then back-ticks trimmed, then white
    space trimmed. *)
Definition cleaned (rt : runtime) (text : str) : str :=
  strip rt (strip_by (fun c => (c =? 96)%N) (drop_fences 0 text)).

Definition spaces (rt : runtime) (w : str) : Prop :=
  Forall (fun c => is_space rt c = true) w.

(** The end of an array: a closing brace, white space, a closing bracket. *)
Definition closing (rt : runtime) (w : str) : Prop :=
  exists ws, w = ch "}" :: ws ++ [ch "]"] /\ spaces rt ws.

(** An array text: an opening bracket, white space, an opening brace, any
    text, and a closing. *)
Definition bracketed (rt : runtime) (w : str) : Prop :=
  exists ws body cl,
    w = ch "[" :: ws ++ ch "{" :: body ++ cl
    /\ spaces rt ws /\ closing rt cl.

(** Some array text occurs in [t]. *)
Definition has_array (rt : runtime) (t : str) : Prop :=
  exists a w rest, t = a ++ w ++ rest /\ bracketed rt w.

(** [span] is the first array text of [t]: no array text starts before
    it, and between its opening brace and its closing no other closing
    starts. *)
Definition first_array (rt : runtime) (t pre span post : str) : Prop :=
  t = pre ++ span ++ post
  /\ (forall a w rest,
        t = a ++ w ++ rest -> bracketed rt w -> length pre <= length a)
  /\ exists ws body cl,
       span = ch "[" :: ws ++ ch "{" :: body ++ cl
       /\ spaces rt ws /\ closing rt cl
       /\ forall b w rest,
            body ++ cl ++ post = b ++ w ++ rest -> closing rt w ->
            length body <= length b.

(** Lazy repetition of one character class, shortest first: what
    [rmatch] does on [RLazy (RChar cl)]. *)
Fixpoint lazy (rt : runtime) (cl : cclass) (k : mstate -> option mstate)
  (bef aft : str) (gs : list (nat * str)) : option mstate :=
  let here := k {| before := bef; after := aft; groups := gs |} in
  match aft with
  | c :: rest =>
    if class_match rt cl c
    then orelse here (lazy rt cl k (c :: bef) rest gs)
    else here
  | [] => here
  end.

(** The end of the array pattern: [}\s*\]]. *)
Definition TAIL : regex :=
  RSeq (RChar [ALit (ch "}")])
  (RSeq (RStar (RChar [ASpace])) (RChar [ALit (ch "]")])).

(** A pattern without anchors. *)
Fixpoint anchor_free (r : regex) : bool :=
  match r with
  | REmpty | RChar _ => true
  | RSeq r1 r2 => anchor_free r1 && anchor_free r2
  | ROpt r1 | RStar r1 | RLazy r1 | RGroup _ r1 => anchor_free r1
  | RWordB | RBol | REol => false
  end.

End SpecArray.

Module SpecColumns.

(** Does the column label [c] normalise to the key [k]? *)
Definition matches_key (rt : runtime) (k c : str) : bool :=
  str_eqb (JLR.normal rt c) k.

(** [c] is the last column of [cols] whose normalised label is that of the
    candidate [cand]. *)
Definition last_column_for (rt : runtime) (cols : list str) (cand c : str)
  : Prop :=
  exists l1 l2,
    cols = l1 ++ c :: l2
    /\ JLR.normal rt c = JLR.normal rt cand
    /\ forall c', In c' l2 -> JLR.normal rt c' <> JLR.normal rt cand.

(** No column of [cols] normalises like the candidate [cand]. *)
Definition no_column_for (rt : runtime) (cols : list str) (cand : str)
  : Prop :=
  forall c, In c cols -> JLR.normal rt c <> JLR.normal rt cand.

End SpecColumns.

Module Fixture2.

(** A runtime whose JSON parser returns one object and one number. *)
Definition profiles_with_number : runtime :=
  {| uni_decimal := uni_decimal ascii_runtime;
     uni_space := uni_space ascii_runtime;
     uni_alnum := uni_alnum ascii_runtime;
     str_lower := str_lower ascii_runtime;
     json_loads :=
       fun _ => Some (PList (map PDict [[(lit "age", PInt 30)]]
                             ++ PInt 5 :: []));
     repr_other := repr_other ascii_runtime;
     int_max_str_digits := 4300;
     random_shuffle := fun l => l |}.

(** A sheet with an upper-case header and a duplicated Age column. *)
Definition sheet_two_ages : JLR.dataframe :=
  {| JLR.columns := [lit "AGE"; lit "Gender"; lit " age "];
     JLR.records := [[Some (PInt 35); Some (PInt 1); Some (PInt 36)]] |}.

(** A sheet with three complete records. *)
Definition sheet3 : JLR.dataframe :=
  {| JLR.columns := [lit "Age"; lit "Gender"];
     JLR.records := [[Some (PInt 35); Some (PInt 1)];
                     [Some (PInt 20); Some (PInt 2)];
                     [Some (PInt 41); Some (PInt 3)]] |}.

(** A runtime whose JSON parser returns one fixed object. *)
Definition object_runtime (d : list (str * pyval)) : runtime :=
  {| uni_decimal := uni_decimal ascii_runtime;
     uni_space := uni_space ascii_runtime;
     uni_alnum := uni_alnum ascii_runtime;
     str_lower := str_lower ascii_runtime;
     json_loads := fun _ => Some (PDict d);
     repr_other := repr_other ascii_runtime;
     int_max_str_digits := 4300;
     random_shuffle := fun l => l |}.

(** A service that always answers with some text. *)
Definition chatty_service : service :=
  fun _ _ => Content (Some (lit "{}")).

End Fixture2.

Module SpecDesign.

Definition str_dec : forall a b : str, {a = b} + {a <> b} :=
  list_eq_dec N.eq_dec.

(** How many participants get the questionnaire language [q]. *)
Definition assigned (rt : runtime) (n_target : nat) (q : str) : nat :=
  count_occ str_dec (JLR.design rt n_target) q.

(** [needle] occurs in [text]. *)
Definition contains (text needle : str) : Prop :=
  exists pre post, text = pre ++ needle ++ post.

End SpecDesign.

Module SpecFields.

(** The keys of the fallback dictionary, in the order they are set. *)
Definition FIELD_ORDER : list str :=
  flat_map (fun i => [lit "reason_" ++ str_of_int i;
                      lit "item_" ++ str_of_int i])
           [1; 2; 3; 4; 5; 6; 7]%Z.

(** What an item field of a row can hold. *)
Definition item_value (v : pyval) : Prop :=
  v = PNone \/ (exists z, v = PInt z) \/ (exists b, v = PBool b).

(** The parsed reply is an object with at least one expected key. *)
Definition usable_json (rt : runtime) (o : outcome)
  (d : list (str * pyval)) : Prop :=
  exists txt k v,
    o = Content (Some txt)
    /\ json_loads rt txt = Some (PDict d)
    /\ In (k, v) d
    /\ JLR.expected_key k = true.

End SpecFields.

(* ================================================================== *)
(** * Part VIII.  Properties                                            *)
(* ================================================================== *)

Unset Implicit Arguments.

(** ** Strings and dictionaries *)

Lemma str_eqb_eq (a b : str) : str_eqb a b = true <-> a = b.
Proof.
  revert b; induction a as [|x a IH]; intros [|y b]; simpl;
    try (split; congruence).
  rewrite andb_true_iff, N.eqb_eq, IH. split.
  - intros [-> ->]; reflexivity.
  - intros H; injection H; auto.
Qed.

Lemma str_eqb_refl (a : str) : str_eqb a a = true.
Proof. apply str_eqb_eq; reflexivity. Qed.

Lemma str_eqb_neq (a b : str) : str_eqb a b = false <-> a <> b.
Proof.
  rewrite <- str_eqb_eq. destruct (str_eqb a b); split; congruence.
Qed.

Lemma assoc_get_set {V} (d : list (str * V)) (k k' : str) (v : V) :
  assoc_get (assoc_set d k v) k'
  = if str_eqb k k' then Some v else assoc_get d k'.
Proof.
  induction d as [|[k0 v0] d IH]; simpl.
  - destruct (str_eqb k k'); reflexivity.
  - destruct (str_eqb k0 k) eqn:E0; simpl.
    + apply str_eqb_eq in E0; subst k0.
      destruct (str_eqb k k'); reflexivity.
    + rewrite IH. destruct (str_eqb k0 k') eqn:E1; [|reflexivity].
      apply str_eqb_eq in E1; subst k0.
      destruct (str_eqb k k') eqn:E2; [|reflexivity].
      apply str_eqb_eq in E2; subst k'. rewrite str_eqb_refl in E0.
      discriminate.
Qed.

(** ** Prompt rendering (single-condition pipeline) *)

Section Prompts.
Variable rt : runtime.

Lemma format_en_bracket (g : str) (a : Z) :
  JLR.format rt JLR._EN_BRACKET_TEMPLATE
    [(lit "gender_en", PStr g); (lit "age", PInt a)]
  = Ok (lit "You are [" ++ g ++ lit ", " ++ str_of_int a
        ++ lit "] years old. ").
Proof. reflexivity. Qed.

Lemma format_zh_bracket (g : str) (a : Z) :
  JLR.format rt JLR._ZH_BRACKET_TEMPLATE
    [(lit "gender_zh", PStr g); (lit "age", PInt a)]
  = Ok (lit "您是[" ++ g ++ lit "，" ++ str_of_int a ++ lit "岁]。").
Proof. reflexivity. Qed.

Lemma splice (P pre x post R : str) :
  P ++ (pre ++ x ++ post) ++ R = (P ++ pre) ++ x ++ post ++ R.
Proof. rewrite <- !app_assoc. reflexivity. Qed.

Lemma template_split (english : bool) :
  Spec.template english
  = Spec.before_span english ++ Spec.placeholder english
    ++ Spec.after_span english.
Proof.
  destruct english.
  - exact (splice JLR._EN_HEADER_PREFIX (lit "You are [")
             (lit "{gender_en}, {age}") (lit "] years old. ")
             (JLR._EN_HEADER_SUFFIX ++ JLR.JSON_INSTRUCTION
              ++ JLR._EN_APPEAL_AND_ITEMS)).
  - exact (splice JLR._ZH_PREFIX (lit "您是[")
             (lit "{gender_zh}，{age}") (lit "岁]。")
             (JLR._ZH_SUFFIX ++ JLR.JSON_INSTRUCTION
              ++ JLR._ZH_APPEAL_AND_ITEMS)).
Qed.

Lemma span_assoc (pre g s a post : str) :
  Ok (pre ++ g ++ s ++ a ++ post) = Ok (pre ++ (g ++ s ++ a) ++ post).
Proof. rewrite <- !app_assoc. reflexivity. Qed.

Lemma render_splice (label P pre x post R : str) (r : result str) :
  r = Ok (pre ++ x ++ post) ->
  rbind (rbind r (fun injected_line => Ok (P ++ injected_line ++ R)))
        (fun p => Ok (label, p))
  = Ok (label, (P ++ pre) ++ x ++ post ++ R).
Proof. intros ->. simpl. rewrite splice. reflexivity. Qed.

Lemma build_questionnaire_render (qlang : str) (p : JLR.profile) :
  JLR.build_questionnaire rt qlang (JLR.gender_en p) (JLR.gender_zh p)
                          (JLR.age p)
  = Ok (Spec.label (Spec.is_english qlang),
        Spec.before_span (Spec.is_english qlang)
        ++ Spec.injected (Spec.is_english qlang) p
        ++ Spec.after_span (Spec.is_english qlang)).
Proof.
  unfold JLR.build_questionnaire, Spec.is_english.
  destruct (str_eqb qlang (lit "English")).
  - exact (render_splice (lit "English") JLR._EN_HEADER_PREFIX
             (lit "You are [")
             (JLR.gender_en p ++ lit ", " ++ str_of_int (JLR.age p))
             (lit "] years old. ")
             (JLR._EN_HEADER_SUFFIX ++ JLR.JSON_INSTRUCTION
              ++ JLR._EN_APPEAL_AND_ITEMS) _
             (eq_trans (format_en_bracket _ _)
                (span_assoc _ _ _ _ _))).
  - exact (render_splice (lit "Mandarin") JLR._ZH_PREFIX
             (lit "您是[")
             (JLR.gender_zh p ++ lit "，" ++ str_of_int (JLR.age p))
             (lit "岁]。")
             (JLR._ZH_SUFFIX ++ JLR.JSON_INSTRUCTION
              ++ JLR._ZH_APPEAL_AND_ITEMS) _
             (eq_trans (format_zh_bracket _ _)
                (span_assoc _ _ _ _ _))).
Qed.

(** C1. For every profile and either questionnaire language, the rendered
    prompt is the fixed template with only the injection span replaced: the
    template is [before ++ placeholder ++ after], the prompt of a profile is
    [before ++ injected ++ after] with the same [before] and [after], so two
    profiles' prompts agree on every character outside the span. *)
Theorem prompt_identical_outside_span (qlang : str) (p1 p2 : JLR.profile) :
  let e := Spec.is_english qlang in
  Spec.template e
    = Spec.before_span e ++ Spec.placeholder e ++ Spec.after_span e
  /\ JLR.build_questionnaire rt qlang (JLR.gender_en p1) (JLR.gender_zh p1)
                             (JLR.age p1)
     = Ok (Spec.label e,
           Spec.before_span e ++ Spec.injected e p1 ++ Spec.after_span e)
  /\ JLR.build_questionnaire rt qlang (JLR.gender_en p2) (JLR.gender_zh p2)
                             (JLR.age p2)
     = Ok (Spec.label e,
           Spec.before_span e ++ Spec.injected e p2 ++ Spec.after_span e).
Proof.
  intros e. split; [apply template_split|].
  split; apply build_questionnaire_render.
Qed.

End Prompts.

(** ** The donation prompt (multi-condition pipeline) *)

Section Donation.
Variable rt : runtime.

(** The English template names the complement of the native language. *)
Lemma english_template_second_language (country : str) (gender age : pyval) :
  S4C.create_donation_prompt rt (lit "English") (lit "Indonesian") country
                             gender age
  = S4C.EN_INTRO ++ lit "Indonesian" ++ S4C.EN_ALSO ++ lit "English"
    ++ S4C.EN_LIVING ++ country ++ S4C.EN_YOU_ARE ++ py_format rt gender
    ++ S4C.EN_COMMA ++ py_format rt age ++ S4C.EN_BODY
  /\ S4C.create_donation_prompt rt (lit "English") (lit "English") country
                                gender age
  = S4C.EN_INTRO ++ lit "English" ++ S4C.EN_ALSO ++ lit "Indonesian"
    ++ S4C.EN_LIVING ++ country ++ S4C.EN_YOU_ARE ++ py_format rt gender
    ++ S4C.EN_COMMA ++ py_format rt age ++ S4C.EN_BODY.
Proof. split; reflexivity. Qed.

(** C4. In the Indonesian template the test compares the native language
    with ["Indonesia"], while the conditions spell it ["Indonesian"]: for the
    condition (Indonesian, Indonesian, country) the prompt names
    ["Indonesia"] as the second language, not ["Inggris"]. *)
Theorem indonesian_template_names_indonesia
  (country : str) (gender age : pyval) :
  S4C.create_donation_prompt rt (lit "Indonesian") (lit "Indonesian") country
                             gender age
  = S4C.ID_INTRO ++ lit "Indonesian" ++ S4C.ID_ALSO ++ lit "Indonesia"
    ++ S4C.ID_LIVING ++ country ++ S4C.ID_YOU_ARE ++ py_format rt gender
    ++ S4C.ID_COMMA ++ py_format rt age ++ S4C.ID_BODY.
Proof. reflexivity. Qed.

(** No condition of the design reaches the ["Inggris"] branch: in the
    Indonesian template every condition is given ["Indonesia"]. *)
Lemma indonesian_template_all_conditions
  (c : S4C.condition) (gender age : pyval) :
  In c S4C.conditions ->
  fst (fst c) = lit "Indonesian" ->
  S4C.create_donation_prompt rt (fst (fst c)) (snd (fst c)) (snd c)
                             gender age
  = S4C.ID_INTRO ++ snd (fst c) ++ S4C.ID_ALSO ++ lit "Indonesia"
    ++ S4C.ID_LIVING ++ snd c ++ S4C.ID_YOU_ARE ++ py_format rt gender
    ++ S4C.ID_COMMA ++ py_format rt age ++ S4C.ID_BODY.
Proof.
  unfold S4C.conditions. simpl In.
  intros H E.
  repeat (destruct H as [H|H]; [subst c; try discriminate E; reflexivity|]).
  contradiction.
Qed.

End Donation.

(** ** The gender codes *)

(** C8. The gender-code mapping is defined on each of the codes 1 to 4,
    with a fixed pair of labels for each, and rejects every other value
    with an error: an integer outside 1 to 4, and any value that is not an
    integer (a float, a boolean, a text, an empty cell, a list or an
    object).  Nothing but the four codes gets a label. *)
Theorem map_gender_total_on_codes :
  JLR.map_gender (PInt 1) = Ok (lit "male", lit "男")
  /\ JLR.map_gender (PInt 2) = Ok (lit "female", lit "女")
  /\ (exists zh, JLR.map_gender (PInt 3) = Ok (lit "non-binary", zh))
  /\ (exists zh, JLR.map_gender (PInt 4) = Ok (lit "prefer not to say", zh))
  /\ (forall code, ~ SpecSheet.gender_code code ->
      JLR.map_gender code = Raise ValueError)
  /\ (forall code labels, JLR.map_gender code = Ok labels ->
      SpecSheet.gender_code code).
Proof.
  assert (R : forall code, ~ SpecSheet.gender_code code ->
                           JLR.map_gender code = Raise ValueError).
  { intros code H. unfold SpecSheet.gender_code in H.
    destruct code as [|b|z|f|s|l|d]; try reflexivity.
    destruct z as [|p|p]; try reflexivity.
    destruct p as [[[|[]|]|[|[]|]|] | [[|[]|]|[|[]|]|] | ]; try reflexivity;
      exfalso; apply H; eexists; (split; [reflexivity | lia]). }
  repeat split; try (eexists; reflexivity); [exact R|].
  intros code labels H.
  destruct code as [|b|z|f|s|l|d]; try discriminate H.
  exists z. split; [reflexivity|].
  destruct z as [|p|p]; try discriminate H.
  destruct p as [[[|[]|]|[|[]|]|] | [[|[]|]|[|[]|]|] | ];
    try discriminate H; lia.
Qed.

Lemma map_gender_total_on_codes_witness :
  ~ SpecSheet.gender_code (PInt 5)
  /\ JLR.map_gender (PInt 5) = Raise ValueError.
Proof.
  assert (H : ~ SpecSheet.gender_code (PInt 5)).
  { intros (z & E & Hz). injection E as <-. lia. }
  split; [exact H|].
  destruct map_gender_total_on_codes as (_ & _ & _ & _ & R & _).
  exact (R (PInt 5) H).
Defined.

(** A Gender cell outside the codes makes the loader fail. *)
Lemma load_rejects_unknown_gender :
  JLR.load_profiles_from_xlsx ascii_runtime
    {| JLR.columns := [lit "Age"; lit "Gender"];
       JLR.records := [[Some (PInt 35); Some (PInt 7)]] |} 1
  = Raise ValueError.
Proof. reflexivity. Qed.

(** ** Item coercion *)

Section Coercion.
Variable rt : runtime.

(** C7. A non-finite float bound to an item field makes the coercion raise:
    [int] of an infinity raises [OverflowError], [int] of a NaN raises
    [ValueError], and the exception leaves the loop over the item keys. *)
Theorem coerce_item_nonfinite_raises (neg : bool) :
  JLR.coerce_item rt (PFloat (FInf neg)) = Raise OverflowError
  /\ JLR.coerce_item rt (PFloat FNan) = Raise ValueError
  /\ JLR.coerce_items rt JLR.ITEM_KEYS
       [(lit "item_1", PFloat (FInf neg))] []
     = Raise OverflowError.
Proof. repeat split; reflexivity. Qed.

Lemma coerce_items_fields (data : list (str * pyval)) :
  forall keys acc items,
    JLR.coerce_items rt keys data acc = Ok items ->
    (forall k, In k keys ->
       JLR.coerce_item rt (dict_get data k) = Ok (dict_get items k))
    /\ (forall k, ~ In k keys -> assoc_get items k = assoc_get acc k).
Proof.
  induction keys as [|ik keys IH]; simpl; intros acc items H.
  - injection H as <-. split; [contradiction | reflexivity].
  - destruct (JLR.coerce_item rt (dict_get data ik)) as [v|e] eqn:Ev;
      simpl in H; [|discriminate].
    destruct (IH _ _ H) as [IH1 IH2]. split.
    + intros k [->|Hk].
      * destruct (in_dec (list_eq_dec N.eq_dec) k keys) as [Hin|Hout].
        -- apply IH1; exact Hin.
        -- unfold dict_get at 2. rewrite (IH2 _ Hout), assoc_get_set,
             str_eqb_refl. exact Ev.
      * apply IH1; exact Hk.
    + intros k Hk. rewrite IH2 by tauto. rewrite assoc_get_set.
      destruct (str_eqb ik k) eqn:E; [|reflexivity].
      apply str_eqb_eq in E. subst k. exfalso. apply Hk. left. reflexivity.
Qed.

(** C10. A JSON boolean bound to an item field passes the integer-instance
    test and is stored as it is: the stored item is the boolean, which is
    not [None], and which counts as the integer 1 or 0. *)
Theorem boolean_item_is_kept (data items : list (str * pyval)) (ik : str)
  (b : bool) :
  In ik JLR.ITEM_KEYS ->
  dict_get data ik = PBool b ->
  JLR.coerce_items rt JLR.ITEM_KEYS data [] = Ok items ->
  JLR.coerce_item rt (PBool b) = Ok (PBool b)
  /\ dict_get items ik = PBool b
  /\ dict_get items ik <> PNone
  /\ JLR.py_int rt (dict_get items ik) = Ok (if b then 1 else 0)%Z.
Proof.
  intros Hin Hd Hc.
  destruct (coerce_items_fields _ _ _ _ Hc) as [H _].
  specialize (H ik Hin). rewrite Hd in H. simpl in H.
  injection H as H. rewrite <- H.
  repeat split; try reflexivity. discriminate.
Qed.

End Coercion.

Lemma boolean_item_is_kept_witness :
  JLR.coerce_items ascii_runtime JLR.ITEM_KEYS [(lit "item_2", PBool true)] []
  = Ok [(lit "item_1", PNone); (lit "item_2", PBool true);
        (lit "item_3", PNone); (lit "item_4", PNone); (lit "item_5", PNone);
        (lit "item_6", PNone); (lit "item_7", PNone)]
  /\ dict_get [(lit "item_1", PNone); (lit "item_2", PBool true);
               (lit "item_3", PNone); (lit "item_4", PNone);
               (lit "item_5", PNone); (lit "item_6", PNone);
               (lit "item_7", PNone)] (lit "item_2") <> PNone.
Proof.
  split; [reflexivity|].
  apply (boolean_item_is_kept ascii_runtime [(lit "item_2", PBool true)] _
           (lit "item_2") true).
  - unfold JLR.ITEM_KEYS, JLR.keys_1_to_7. simpl. right. left. reflexivity.
  - reflexivity.
  - reflexivity.
Defined.

(** ** Loading the spreadsheet *)

Section Sheet.
Variable rt : runtime.
Variable svc : service.

Lemma existsb_isna (df : JLR.dataframe) (c : str) (record : list JLR.cell) :
  In record (JLR.records df) ->
  JLR.cell_at df c record = None ->
  existsb (fun r => JLR.isna (JLR.cell_at df c r)) (JLR.records df) = true.
Proof.
  intros Hin Hc. apply existsb_exists. exists record. split; [exact Hin|].
  rewrite Hc. reflexivity.
Qed.

Lemma load_rejects (df : JLR.dataframe) (n : nat) :
  length (JLR.records df) <> n \/ SpecSheet.required_cell_missing rt df ->
  JLR.load_profiles_from_xlsx rt df n = Raise ValueError.
Proof.
  intros H. unfold JLR.load_profiles_from_xlsx.
  fold SpecSheet.AGE_NAMES SpecSheet.GENDER_NAMES.
  destruct (JLR.pick_col rt df SpecSheet.AGE_NAMES) as [ca|] eqn:Ea;
    [|reflexivity].
  destruct (JLR.pick_col rt df SpecSheet.GENDER_NAMES) as [cg|] eqn:Eg;
    [|reflexivity].
  destruct (JLR.unpicked (Some ca) || JLR.unpicked (Some cg));
    [reflexivity|].
  destruct H as [Hlen | (c & record & Hc & Hin & Hmiss)].
  - apply Nat.eqb_neq in Hlen. rewrite Hlen. reflexivity.
  - destruct (negb (length (JLR.records df) =? n)); [reflexivity|].
    destruct Hc as [Hc|Hc]; [rewrite Ea in Hc | rewrite Eg in Hc];
      injection Hc as <-;
      rewrite (existsb_isna _ _ _ Hin Hmiss);
      rewrite ?orb_true_r; reflexivity.
Qed.

(** C6. A spreadsheet whose row count differs from [N_TARGET], or in which
    a required Age/Gender cell is missing, is rejected with a [ValueError],
    and the run ends with that error without having called the service: the
    log of requests is unchanged. *)
Theorem bad_sheet_rejected_before_any_call
  (N_TARGET : nat) (df : JLR.dataframe) (log : list request) :
  length (JLR.records df) <> N_TARGET
  \/ SpecSheet.required_cell_missing rt df ->
  JLR.load_profiles_from_xlsx rt df N_TARGET = Raise ValueError
  /\ JLR.run_study rt svc N_TARGET df log = (Raise ValueError, log).
Proof.
  intros H. pose proof (load_rejects df N_TARGET H) as E. split; [exact E|].
  unfold JLR.run_study, bind, lift. rewrite E. reflexivity.
Qed.

End Sheet.

Lemma bad_sheet_rejected_before_any_call_witness :
  (length (JLR.records Fixture.sheet_missing_gender) <> 3
   \/ SpecSheet.required_cell_missing ascii_runtime Fixture.sheet_missing_gender)
  /\ JLR.run_study ascii_runtime Fixture.silent_service 3 Fixture.sheet_missing_gender []
     = (Raise ValueError, []).
Proof.
  assert (H : length (JLR.records Fixture.sheet_missing_gender) <> 3
              \/ SpecSheet.required_cell_missing ascii_runtime
                   Fixture.sheet_missing_gender).
  { left. simpl. lia. }
  split; [exact H|].
  apply (bad_sheet_rejected_before_any_call ascii_runtime Fixture.silent_service
           3 Fixture.sheet_missing_gender [] H).
Defined.

(** The same sheet with the right count: the missing cell alone rejects it. *)
Lemma missing_cell_rejected :
  SpecSheet.required_cell_missing ascii_runtime Fixture.sheet_missing_gender
  /\ JLR.run_study ascii_runtime Fixture.silent_service 2 Fixture.sheet_missing_gender []
     = (Raise ValueError, []).
Proof.
  split; [|reflexivity].
  exists (lit "Gender"), [Some (PInt 20); None].
  split; [right; reflexivity|].
  split; [right; left; reflexivity | reflexivity].
Qed.

(** ** The matcher on a repeated character class *)

Section RegexFacts.
Variable rt : runtime.

Import SpecRegex.

Lemma rmatch_star_class (cl : cclass) (k : mstate -> option mstate)
  (gs : list (nat * str)) :
  forall aft bef,
    rmatch rt (RStar (RChar cl))
           {| before := bef; after := aft; groups := gs |} k
    = greedy rt cl k bef aft gs.
Proof.
  induction aft as [|c rest IH]; intros bef.
  - reflexivity.
  - specialize (IH (c :: bef)). simpl in IH |- *.
    destruct (class_match rt cl c); [|reflexivity].
    assert (E : (length rest <? S (length rest)) = true)
      by (apply Nat.ltb_lt; lia).
    rewrite E, IH. reflexivity.
Qed.

(** A successful greedy repetition stopped after some [n] characters of the
    class and continued from there. *)
Lemma greedy_some (cl : cclass) (k : mstate -> option mstate)
  (gs : list (nat * str)) :
  forall aft bef res,
    greedy rt cl k bef aft gs = Some res ->
    exists n, n <= length aft
              /\ all_in rt cl (firstn n aft)
              /\ k (advance n bef aft gs) = Some res.
Proof.
  induction aft as [|c rest IH]; intros bef res H; simpl in H.
  - exists 0. repeat split; [lia | constructor | exact H].
  - destruct (class_match rt cl c) eqn:Ec.
    + destruct (greedy rt cl k (c :: bef) rest gs) as [r|] eqn:Eg;
        simpl in H.
      * injection H as <-. destruct (IH _ _ Eg) as (n & Hn & Hall & Hk).
        exists (S n). repeat split.
        -- simpl. lia.
        -- simpl. constructor; assumption.
        -- unfold advance in *. simpl. rewrite <- app_assoc. exact Hk.
      * exists 0. repeat split; [lia | constructor | exact H].
    + exists 0. repeat split; [lia | constructor | exact H].
Qed.

(** If the continuation succeeds after some run of the class, the greedy
    repetition succeeds. *)
Lemma greedy_complete (cl : cclass) (k : mstate -> option mstate)
  (gs : list (nat * str)) :
  forall pre post bef res,
    all_in rt cl pre ->
    k {| before := rev pre ++ bef; after := post; groups := gs |}
      = Some res ->
    exists res', greedy rt cl k bef (pre ++ post) gs = Some res'.
Proof.
  induction pre as [|c pre IH]; intros post bef res Hall Hk.
  - simpl in Hk. simpl app. destruct post as [|c rest]; simpl.
    + eauto.
    + rewrite Hk. destruct (class_match rt cl c); [|eauto].
      destruct (greedy rt cl k (c :: bef) rest gs); simpl; eauto.
  - inversion Hall as [|? ? Hc Hall']; subst. simpl.
    rewrite Hc. simpl in Hk. rewrite <- app_assoc in Hk.
    destruct (IH post (c :: bef) res Hall' Hk) as [r' Hr'].
    rewrite Hr'. simpl. eauto.
Qed.

(** ** Facts on the character classes *)

Lemma decimal_is_ascii_digit_or_high (c : char) :
  is_decimal rt c = true ->
  ((48 <= c)%N /\ (c <= 57)%N) \/ (128 <= c)%N.
Proof.
  unfold is_decimal, decimal_value.
  destruct (c <? 128)%N eqn:E.
  - destruct ((48 <=? c)%N && (c <=? 57)%N) eqn:E2; [|discriminate].
    apply andb_true_iff in E2. destruct E2 as [A B].
    apply N.leb_le in A, B. intros _. left. split; assumption.
  - apply N.ltb_ge in E. intros _. right. exact E.
Qed.

Lemma class_digit (c : char) :
  class_match rt [ADigit] c = is_decimal rt c.
Proof. simpl. apply orb_false_r. Qed.

Lemma class_lit (p c : char) :
  class_match rt [ALit p] c = (c =? p)%N.
Proof. simpl. apply orb_false_r. Qed.

Lemma all_in_digit (s : str) :
  all_in rt [ADigit] s <-> all_decimal rt s.
Proof.
  unfold all_in, all_decimal. split; intros H;
    (eapply Forall_impl; [|exact H]); intros c; cbv beta;
    rewrite class_digit; auto.
Qed.

(** ** [str.strip] *)

Section Strip.
Variable p : char -> bool.

Lemma lstrip_by_split (s : str) :
  exists w, s = w ++ lstrip_by p s /\ Forall (fun c => p c = true) w.
Proof.
  induction s as [|c r [w [E F]]]; simpl.
  - exists []. split; [reflexivity | constructor].
  - destruct (p c) eqn:Ec.
    + exists (c :: w). split; [simpl; f_equal; exact E | constructor; auto].
    + exists []. split; [reflexivity | constructor].
Qed.

Lemma lstrip_by_head (s : str) (c : char) (r : str) :
  lstrip_by p s = c :: r -> p c = false.
Proof.
  induction s as [|x s IH]; simpl; [discriminate|].
  destruct (p x) eqn:Ex; [exact IH|].
  intros H. injection H as -> _. exact Ex.
Qed.

Lemma lstrip_by_fixed (s : str) :
  (forall c r, s = c :: r -> p c = false) -> lstrip_by p s = s.
Proof.
  destruct s as [|c r]; [reflexivity|].
  intros H. simpl. rewrite (H c r eq_refl). reflexivity.
Qed.

(** The stripped text neither starts nor ends with a stripped character. *)
Lemma strip_by_first (s : str) (c : char) (r : str) :
  strip_by p s = c :: r -> p c = false.
Proof.
  unfold strip_by. intros H.
  destruct (lstrip_by_split (rev (lstrip_by p s))) as [w [E _]].
  apply (f_equal (@rev char)) in E. rewrite rev_involutive, rev_app_distr in E.
  rewrite H in E. simpl in E.
  apply lstrip_by_head with (s := s) (r := r ++ rev w). exact E.
Qed.

Lemma strip_by_last (s t : str) (c : char) :
  strip_by p s = t ++ [c] -> p c = false.
Proof.
  unfold strip_by. intros H.
  apply (f_equal (@rev char)) in H.
  rewrite rev_involutive, rev_app_distr in H. simpl in H.
  eapply lstrip_by_head. exact H.
Qed.

Lemma strip_by_idempotent (s : str) :
  strip_by p (strip_by p s) = strip_by p s.
Proof.
  set (t := strip_by p s).
  assert (H1 : lstrip_by p t = t).
  { apply lstrip_by_fixed. intros c r E. eapply strip_by_first. exact E. }
  unfold strip_by at 1. rewrite H1.
  assert (H2 : lstrip_by p (rev t) = rev t).
  { apply lstrip_by_fixed. intros c r E.
    apply (f_equal (@rev char)) in E. rewrite rev_involutive in E.
    simpl in E. eapply strip_by_last. exact E. }
  rewrite H2. apply rev_involutive.
Qed.

End Strip.

(** A text that [p] leaves alone is left alone by any narrower [q]. *)
Lemma strip_by_narrower (p q : char -> bool) (s : str) :
  (forall c, q c = true -> p c = true) ->
  strip_by p s = s -> strip_by q s = s.
Proof.
  intros Hq Hs.
  assert (Hn : forall c, p c = false -> q c = false).
  { intros c Hc. destruct (q c) eqn:E; [|reflexivity].
    apply Hq in E. congruence. }
  unfold strip_by.
  assert (H1 : lstrip_by q s = s).
  { apply (lstrip_by_fixed q). intros c r E. apply Hn.
    apply (strip_by_first p s c r). rewrite Hs. exact E. }
  rewrite H1.
  assert (H2 : lstrip_by q (rev s) = rev s).
  { apply (lstrip_by_fixed q). intros c r E. apply Hn.
    apply (f_equal (@rev char)) in E. rewrite rev_involutive in E.
    simpl in E. apply (strip_by_last p s (rev r) c). rewrite Hs. exact E. }
  rewrite H2. apply rev_involutive.
Qed.


Lemma newline_is_space : is_space rt 10%N = true.
Proof. reflexivity. Qed.

End RegexFacts.

(** ** The pattern [_NUM] and [int] on its matches *)

Section NumPattern.
Variable rt : runtime.

Import SpecRegex SpecCoerce.

Definition eol_k : mstate -> option mstate :=
  fun s2 => rmatch rt REol s2 (fun s3 => Some s3).

(** One or more digits, then the end: the tail of [_NUM]. *)
Definition digits_eol (bef aft : str) (gs : list (nat * str))
  : option mstate :=
  rmatch rt (RSeq (RPlus (RChar [ADigit])) REol)
         {| before := bef; after := aft; groups := gs |} (fun s => Some s).

Lemma digits_eol_unfold (bef aft : str) (gs : list (nat * str)) :
  digits_eol bef aft gs
  = match aft with
    | c :: rest =>
      if is_decimal rt c then greedy rt [ADigit] eol_k (c :: bef) rest gs
      else None
    | [] => None
    end.
Proof.
  unfold digits_eol, RPlus.
  change (rmatch rt (RSeq (RSeq (RChar [ADigit]) (RStar (RChar [ADigit])))
                          REol)
                 {| before := bef; after := aft; groups := gs |}
                 (fun s => Some s))
    with (match aft with
          | c :: rest =>
            if class_match rt [ADigit] c
            then rmatch rt (RStar (RChar [ADigit]))
                   {| before := c :: bef; after := rest; groups := gs |}
                   eol_k
            else None
          | [] => None
          end).
  destruct aft as [|c rest]; [reflexivity|].
  rewrite class_digit, rmatch_star_class. reflexivity.
Qed.

Lemma eol_k_some (s res : mstate) :
  eol_k s = Some res -> after s = [] \/ after s = [10%N].
Proof.
  unfold eol_k. simpl. unfold at_eol.
  destruct (after s) as [|c [|c' r]]; try discriminate; auto.
  destruct (c =? 10)%N eqn:E; [|discriminate].
  apply N.eqb_eq in E. subst c. auto.
Qed.

Lemma eol_k_complete (bef tail : str) (gs : list (nat * str)) :
  tail = [] \/ tail = [10%N] ->
  exists res,
    eol_k {| before := bef; after := tail; groups := gs |} = Some res.
Proof. intros [-> | ->]; eexists; reflexivity. Qed.

Lemma digits_eol_some (bef aft : str) (gs : list (nat * str))
  (res : mstate) :
  digits_eol bef aft gs = Some res ->
  exists ds tail,
    aft = ds ++ tail /\ ds <> [] /\ all_decimal rt ds
    /\ (tail = [] \/ tail = [10%N]).
Proof.
  rewrite digits_eol_unfold. destruct aft as [|c rest]; [discriminate|].
  destruct (is_decimal rt c) eqn:Ec; [|discriminate].
  intros H. apply greedy_some in H. destruct H as (n & Hn & Hall & Hk).
  apply eol_k_some in Hk. unfold advance in Hk. simpl in Hk.
  exists (c :: firstn n rest), (skipn n rest). repeat split.
  - simpl. rewrite firstn_skipn. reflexivity.
  - discriminate.
  - constructor; [exact Ec | apply all_in_digit; exact Hall].
  - exact Hk.
Qed.

Lemma digits_eol_complete (bef ds tail : str) (gs : list (nat * str)) :
  ds <> [] -> all_decimal rt ds -> tail = [] \/ tail = [10%N] ->
  exists res, digits_eol bef (ds ++ tail) gs = Some res.
Proof.
  intros Hne Hall Ht. rewrite digits_eol_unfold.
  destruct ds as [|c ds]; [contradiction|].
  inversion Hall as [|? ? Hc Hall']; subst. simpl. rewrite Hc.
  destruct (eol_k_complete (rev ds ++ c :: bef) tail gs Ht) as [r Hr].
  eapply greedy_complete; [apply all_in_digit; exact Hall' | exact Hr].
Qed.

Lemma num_unfold (t : str) :
  re_match rt JLR._NUM t
  = orelse
      (match t with
       | c :: rest =>
         if (c =? ch "-")%N then digits_eol [c] rest [] else None
       | [] => None
       end)
      (digits_eol [] t []).
Proof.
  unfold re_match, match_here, start_of, JLR._NUM, digits_eol.
  simpl before; simpl after.
  change (rmatch rt (RSeq RBol ?r) ?s ?k) with (rmatch rt r s k).
  change (rmatch rt (RSeq (ROpt ?a) ?r) ?s ?k)
    with (orelse (rmatch rt a s (fun s1 => rmatch rt r s1 k))
                 (rmatch rt r s k)).
  f_equal. destruct t as [|c rest]; [reflexivity|].
  change (rmatch rt (RChar ?cl) ?s ?k)
    with (if class_match rt cl c
          then k {| before := [c]; after := rest; groups := [] |}
          else None).
  rewrite class_lit. reflexivity.
Qed.

(** What [_NUM] matches: an optional minus, digits, and nothing more than
    a final newline. *)
Lemma num_match_iff (t : str) :
  (exists e, re_match rt JLR._NUM t = Some e)
  <-> exists sign ds tail,
        t = sign ++ ds ++ tail
        /\ (sign = [] \/ sign = [ch "-"])
        /\ ds <> [] /\ all_decimal rt ds
        /\ (tail = [] \/ tail = [10%N]).
Proof.
  rewrite num_unfold. split.
  - intros [e H].
    destruct t as [|c rest].
    + simpl in H. apply digits_eol_some in H.
      destruct H as (ds & tail & E & Hne & Hall & Ht).
      exists [], ds, tail. repeat split; auto.
    + destruct ((c =? ch "-")%N) eqn:Ec.
      * destruct (digits_eol [c] rest []) as [r|] eqn:Ed.
        -- apply digits_eol_some in Ed.
           destruct Ed as (ds & tail & E & Hne & Hall & Ht).
           apply N.eqb_eq in Ec. subst c rest.
           exists [ch "-"], ds, tail. repeat split; auto.
        -- simpl in H. apply digits_eol_some in H.
           destruct H as (ds & tail & E & Hne & Hall & Ht).
           exists [], ds, tail. repeat split; auto.
      * simpl in H. apply digits_eol_some in H.
        destruct H as (ds & tail & E & Hne & Hall & Ht).
        exists [], ds, tail. repeat split; auto.
  - intros (sign & ds & tail & E & Hs & Hne & Hall & Ht). subst t.
    destruct Hs as [-> | ->].
    + destruct (digits_eol_complete [] ds tail [] Hne Hall Ht) as [r Hr].
      simpl app. rewrite Hr.
      match goal with |- exists e, orelse ?x _ = _ => destruct x end;
        simpl; eauto.
    + destruct (digits_eol_complete [ch "-"] ds tail [] Hne Hall Ht)
        as [r Hr].
      simpl app. cbv iota beta. change (ch "-") with 45%N in *.
      rewrite N.eqb_refl, Hr. simpl. eauto.
Qed.

(** After trimming there is no final newline left. *)
Lemma num_match_trimmed (s : str) :
  (exists e, re_match rt JLR._NUM (strip rt s) = Some e)
  <-> integer_text rt (strip rt s).
Proof.
  rewrite num_match_iff. unfold integer_text, signed_digits. split.
  - intros (sign & ds & tail & E & Hs & Hne & Hall & [-> | ->]).
    + rewrite app_nil_r in E. exists sign, ds. repeat split; auto.
    + exfalso. rewrite app_assoc in E.
      apply strip_by_last in E. rewrite newline_is_space in E.
      discriminate.
  - intros (sign & ds & E & Hs & Hne & Hall).
    exists sign, ds, []. rewrite app_nil_r. repeat split; auto.
Qed.

(** *** [int] on an integer text *)

Lemma decimal_not (c x : char) :
  is_decimal rt c = true -> (x < 48)%N \/ ((57 < x)%N /\ (x < 128)%N) ->
  (c =? x)%N = false.
Proof.
  intros Hc Hx. apply N.eqb_neq. intros ->.
  destruct (decimal_is_ascii_digit_or_high rt _ Hc); lia.
Qed.

Lemma drop_underscores_digits (ds : str) :
  all_decimal rt ds ->
  forall b, ds <> [] \/ b = true -> drop_underscores b ds = Some ds.
Proof.
  induction 1 as [|c ds Hc Hall IH]; intros b Hb; simpl.
  - destruct Hb as [Hb | ->]; [contradiction | reflexivity].
  - rewrite (decimal_not c 95%N Hc) by lia.
    rewrite (IH true) by auto. reflexivity.
Qed.

Lemma digits_value_from_some (ds : str) :
  all_decimal rt ds ->
  forall acc, exists n, digits_value_from rt acc ds = Some n.
Proof.
  induction 1 as [|c ds Hc Hall IH]; intros acc; simpl.
  - eauto.
  - unfold is_decimal in Hc. destruct (decimal_value rt c); [|discriminate].
    apply IH.
Qed.

Lemma int_of_str_integer_text (t sign ds : str) (n : N) :
  strip rt t = t ->
  signed_digits rt t sign ds ->
  digits_value rt ds = Some n ->
  int_of_str rt t
  = if over_digit_limit rt (length ds) then Raise ValueError
    else Ok (signed sign n).
Proof.
  intros Hfix (E & Hs & Hne & Hall) Hn. unfold int_of_str.
  rewrite (strip_by_narrower (is_space rt) (int_space rt) t
             (fun c H => proj1 (proj1 (andb_true_iff _ _) H)) Hfix).
  assert (Hbody :
    (match t with
     | c :: r =>
       if (c =? 45)%N then (true, r)
       else if (c =? 43)%N then (false, r) else (false, t)
     | [] => (false, t)
     end) = (match sign with [] => false | _ => true end, ds)).
  { subst t. destruct Hs as [-> | ->].
    - simpl. destruct ds as [|c ds]; [contradiction|].
      inversion Hall; subst.
      rewrite (decimal_not c 45%N), (decimal_not c 43%N) by (auto; lia).
      reflexivity.
    - reflexivity. }
  rewrite Hbody.
  rewrite (drop_underscores_digits ds Hall false) by auto.
  rewrite Hn. destruct (over_digit_limit rt (length ds)); [reflexivity|].
  destruct Hs as [-> | ->]; reflexivity.
Qed.

End NumPattern.

(** ** The coercion rules *)

Lemma example_reply_coerced (rt : runtime) :
  JLR.coerce_items rt JLR.ITEM_KEYS SpecCoerce.example_reply []
  = Ok [ (lit "item_1", PInt 3); (lit "item_2", PInt 4);
         (lit "item_3", PNone); (lit "item_4", PNone);
         (lit "item_5", PNone); (lit "item_6", PNone);
         (lit "item_7", PNone) ].
Proof.
  destruct rt as [d s a l j r [|k] sh]; vm_compute; reflexivity.
Qed.

Section CoercionRules.
Variable rt : runtime.

Import SpecRegex SpecCoerce.

Lemma quot_truncates (q : Q) :
  truncates (Z.quot (Qnum q) (Z.pos (Qden q))) q.
Proof.
  destruct q as [a b]. unfold truncates, Qle, Qlt. simpl.
  pose proof (Z.quot_rem' a (Z.pos b)) as E.
  set (z := Z.quot a (Z.pos b)) in *. set (r := Z.rem a (Z.pos b)) in *.
  split; intros H.
  - assert (Ha : (0 <= a)%Z) by lia.
    pose proof (Z.rem_bound_pos a (Z.pos b) Ha ltac:(lia)) as B.
    fold r in B. clearbody z r. nia.
  - assert (Ha : (a <= 0)%Z) by lia.
    pose proof (Z.rem_bound_pos (- a) (Z.pos b) ltac:(lia) ltac:(lia)) as B.
    rewrite Z.rem_opp_l in B by lia. fold r in B. clearbody z r. nia.
Qed.

Lemma coerce_item_float (q : Q) :
  exists z, truncates z q
            /\ JLR.coerce_item rt (PFloat (FFinite q)) = Ok (PInt z).
Proof. eexists. split; [apply quot_truncates | reflexivity]. Qed.

Lemma coerce_item_integer_text (s sign ds : str) :
  signed_digits rt (strip rt s) sign ds ->
  over_digit_limit rt (length ds) = false ->
  exists n, digits_value rt ds = Some n
            /\ JLR.coerce_item rt (PStr s) = Ok (PInt (signed sign n)).
Proof.
  intros Hsd Hlim.
  destruct (digits_value_from_some rt ds (proj2 (proj2 (proj2 Hsd))) 0%N)
    as [n Hn].
  exists n. split; [exact Hn|]. unfold JLR.coerce_item.
  assert (Hm : integer_text rt (strip rt s)) by (exists sign, ds; exact Hsd).
  apply num_match_trimmed in Hm. destruct Hm as [e He]. rewrite He.
  rewrite (int_of_str_integer_text rt (strip rt s) sign ds n
             (strip_by_idempotent _ s) Hsd Hn).
  rewrite Hlim. reflexivity.
Qed.

Lemma coerce_item_other_text (s : str) :
  ~ integer_text rt (strip rt s) ->
  JLR.coerce_item rt (PStr s) = Ok PNone.
Proof.
  intros H. unfold JLR.coerce_item.
  destruct (re_match rt JLR._NUM (strip rt s)) as [e|] eqn:E;
    [|reflexivity].
  exfalso. apply H. apply num_match_trimmed. eauto.
Qed.

Lemma over_digit_limit_one : over_digit_limit rt 1 = false.
Proof.
  unfold over_digit_limit.
  destruct (int_max_str_digits rt) as [|k]; reflexivity.
Qed.

(** C3 (amended). For each of the seven item fields independently, the
    coercion maps an integer to itself, keeps a boolean as it is, maps a
    finite float to its truncation toward zero, maps a string that after
    trimming is an optional minus sign followed by decimal digits (within
    the interpreter's digit limit for integer conversion) to that integer,
    and maps every other string, [None] (a missing field), an array and an
    object to [None]; the reply [{"item_1": "3", "item_2": 4.0, "item_3":
    "abc"}] gives 3, 4 and [None]. *)
Theorem item_coercion_rules :
  (forall z, JLR.coerce_item rt (PInt z) = Ok (PInt z))
  /\ (forall b, JLR.coerce_item rt (PBool b) = Ok (PBool b))
  /\ (forall q, exists z,
        truncates z q
        /\ JLR.coerce_item rt (PFloat (FFinite q)) = Ok (PInt z))
  /\ (forall s sign ds,
        signed_digits rt (strip rt s) sign ds ->
        over_digit_limit rt (length ds) = false ->
        exists n, digits_value rt ds = Some n
                  /\ JLR.coerce_item rt (PStr s) = Ok (PInt (signed sign n)))
  /\ (forall s,
        ~ integer_text rt (strip rt s) ->
        JLR.coerce_item rt (PStr s) = Ok PNone)
  /\ (forall v,
        v = PNone \/ (exists l, v = PList l) \/ (exists d, v = PDict d) ->
        JLR.coerce_item rt v = Ok PNone)
  /\ (forall data items ik,
        JLR.coerce_items rt JLR.ITEM_KEYS data [] = Ok items ->
        In ik JLR.ITEM_KEYS ->
        JLR.coerce_item rt (dict_get data ik) = Ok (dict_get items ik)
        /\ (assoc_get data ik = None -> dict_get items ik = PNone))
  /\ JLR.coerce_items rt JLR.ITEM_KEYS example_reply []
     = Ok [ (lit "item_1", PInt 3); (lit "item_2", PInt 4);
            (lit "item_3", PNone); (lit "item_4", PNone);
            (lit "item_5", PNone); (lit "item_6", PNone);
            (lit "item_7", PNone) ].
Proof.
  split; [reflexivity|]. split; [reflexivity|].
  split; [apply coerce_item_float|].
  split; [apply coerce_item_integer_text|].
  split; [apply coerce_item_other_text|].
  split.
  { intros v [-> | [[l ->] | [d ->]]]; reflexivity. }
  split; [|apply example_reply_coerced].
  intros data items ik Hc Hin.
  destruct (coerce_items_fields rt data _ _ _ Hc) as [H _].
  specialize (H ik Hin). split; [exact H|].
  intros Hmiss. unfold dict_get at 1 in H. rewrite Hmiss in H.
  simpl in H. injection H as H. symmetry. exact H.
Qed.

End CoercionRules.

Lemma item_coercion_rules_witness :
  SpecCoerce.signed_digits ascii_runtime
    (strip ascii_runtime (lit " -12 ")) [ch "-"] (lit "12")
  /\ over_digit_limit ascii_runtime 2 = false
  /\ exists n,
       digits_value ascii_runtime (lit "12") = Some n
       /\ JLR.coerce_item ascii_runtime (PStr (lit " -12 "))
          = Ok (PInt (SpecCoerce.signed [ch "-"] n)).
Proof.
  assert (H : SpecCoerce.signed_digits ascii_runtime
                (strip ascii_runtime (lit " -12 ")) [ch "-"] (lit "12")).
  { repeat split; [right; reflexivity | discriminate | repeat constructor]. }
  split; [exact H|]. split; [reflexivity|].
  destruct (item_coercion_rules ascii_runtime) as (_ & _ & _ & R & _).
  exact (R (lit " -12 ") [ch "-"] (lit "12") H eq_refl).
Defined.

(** C3 as stated fails: a JSON boolean is none of an integer, a float or a
    string, so the stated rules send it to null, while the code keeps it. *)
Lemma item_coercion_claim_fails_on_boolean :
  ~ (forall v out,
       SpecCoerce.claimed_coercion ascii_runtime v out ->
       JLR.coerce_item ascii_runtime v = Ok out).
Proof.
  intros H.
  specialize (H (PBool true) PNone
                (SpecCoerce.claimed_boolean ascii_runtime true)).
  discriminate H.
Qed.

(** ** Matches are positions of the subject, in order *)

Section MatcherPositions.
Variable rt : runtime.

Import SpecRegex SpecScore.

Lemma reaches_refl (s : mstate) : reaches s [] s.
Proof. split; reflexivity. Qed.

Lemma reaches_trans (s1 s2 s3 : mstate) (w1 w2 : str) :
  reaches s1 w1 s2 -> reaches s2 w2 s3 -> reaches s1 (w1 ++ w2) s3.
Proof.
  intros [A1 B1] [A2 B2]. split.
  - rewrite A1, A2, app_assoc. reflexivity.
  - rewrite B2, B1, rev_app_distr, app_assoc. reflexivity.
Qed.

Lemma reaches_length (s s' : mstate) (w : str) :
  reaches s w s' -> length (after s) = length w + length (after s').
Proof. intros [A _]. rewrite A, length_app. reflexivity. Qed.

Lemma reaches_consumed (s s' : mstate) (w : str) :
  reaches s w s' -> consumed s s' = w.
Proof.
  intros H. unfold consumed. rewrite (reaches_length s s' w H).
  destruct H as [A _]. rewrite A.
  replace (length w + length (after s') - length (after s'))
    with (length w) by lia.
  rewrite firstn_app, Nat.sub_diag, firstn_all. simpl.
  apply app_nil_r.
Qed.

(** The continuation runs where the match started. *)
Ltac stay_put s H :=
  exists [], s; split; [apply reaches_refl | split; [ | exact H]].

(** Whatever the pattern, a successful match hands a later position of the
    same text to its continuation, and the text in between is a word of the
    pattern. *)
Lemma rmatch_reaches (r : regex) :
  forall s k res,
    rmatch rt r s k = Some res ->
    exists w s', reaches s w s' /\ lang rt r w /\ k s' = Some res.
Proof.
  induction r as [| cl | r1 IH1 r2 IH2 | r1 IH1 | r1 IH1 | r1 IH1
                  | n r1 IH1 | | | ]; intros s k res H.
  - stay_put s H. reflexivity.
  - simpl in H. destruct (after s) as [|c rest] eqn:Ea; [discriminate|].
    destruct (class_match rt cl c) eqn:Ec; [|discriminate].
    exists [c],
      {| before := c :: before s; after := rest; groups := groups s |}.
    split; [split; [exact Ea | reflexivity]|]. split; [|exact H].
    exists c. auto.
  - simpl in H. apply IH1 in H. destruct H as (w1 & s1 & R1 & L1 & H).
    apply IH2 in H. destruct H as (w2 & s2 & R2 & L2 & H).
    exists (w1 ++ w2), s2. split; [eapply reaches_trans; eauto|].
    split; [|exact H]. exists w1, w2. auto.
  - simpl in H. destruct (rmatch rt r1 s k) as [x|] eqn:E; simpl in H.
    + injection H as <-. apply IH1 in E.
      destruct E as (w & s' & R & L & E). exists w, s'.
      split; [exact R|]. split; [right; exact L | exact E].
    + stay_put s H. left. reflexivity.
  - simpl in H. remember (length (after s)) as fuel eqn:Ef in H.
    clear Ef. revert s H.
    induction fuel as [|fuel IHf]; intros s H.
    + stay_put s H. constructor.
    + match type of H with
      | orelse ?x _ = _ => destruct x as [y|] eqn:E; simpl in H
      end.
      * injection H as <-. apply IH1 in E.
        destruct E as (w1 & s1 & R1 & L1 & E).
        destruct (length (after s1) <? length (after s)); [|discriminate].
        apply IHf in E. destruct E as (w2 & s2 & R2 & L2 & E).
        exists (w1 ++ w2), s2.
        split; [eapply reaches_trans; eauto|].
        split; [constructor; assumption | exact E].
      * stay_put s H. constructor.
  - simpl in H. remember (length (after s)) as fuel eqn:Ef in H.
    clear Ef. revert s H.
    induction fuel as [|fuel IHf]; intros s H.
    + stay_put s H. constructor.
    + destruct (k s) as [y|] eqn:Ek; simpl in H.
      * injection H as <-. stay_put s Ek. constructor.
      * apply IH1 in H. destruct H as (w1 & s1 & R1 & L1 & E).
        destruct (length (after s1) <? length (after s)); [|discriminate].
        apply IHf in E. destruct E as (w2 & s2 & R2 & L2 & E).
        exists (w1 ++ w2), s2.
        split; [eapply reaches_trans; eauto|].
        split; [constructor; assumption | exact E].
  - simpl in H. apply IH1 in H. destruct H as (w1 & s1 & R1 & L1 & H).
    exists w1,
      {| before := before s1; after := after s1;
         groups := (n, consumed s s1) :: groups s1 |}.
    split; [exact R1|]. split; [exact L1 | exact H].
  - simpl in H. destruct (at_boundary rt s); [|discriminate].
    stay_put s H. reflexivity.
  - simpl in H. destruct (before s); [|discriminate].
    stay_put s H. reflexivity.
  - simpl in H. destruct (at_eol s); [|discriminate].
    stay_put s H. reflexivity.
Qed.

Lemma match_here_reaches (r : regex) (s e : mstate) :
  match_here rt r s = Some e ->
  exists w, after s = w ++ after e /\ before e = rev w ++ before s.
Proof.
  unfold match_here. intros H. apply rmatch_reaches in H.
  destruct H as (w & s' & [A B] & _ & E). injection E as ->.
  exists w. simpl in A, B. auto.
Qed.

(** The search returns a position at or after its start where the pattern
    matches. *)
Lemma search_from_found (r : regex) :
  forall aft bef s e,
    search_from rt r bef aft = Some (s, e) ->
    exists gap,
      aft = gap ++ after s /\ before s = rev gap ++ bef
      /\ groups s = [] /\ match_here rt r s = Some e.
Proof.
  induction aft as [|c rest IH]; intros bef s e H; simpl in H.
  - destruct (match_here rt r _) as [x|] eqn:E; [|discriminate].
    injection H as <- <-. exists []. simpl. auto.
  - destruct (match_here rt r _) as [x|] eqn:E.
    + injection H as <- <-. exists []. simpl. auto.
    + apply IH in H. destruct H as (gap & A & B & G & M).
      exists (c :: gap). simpl. rewrite <- app_assoc. simpl.
      repeat split; auto. f_equal. exact A.
Qed.

End MatcherPositions.

(** ** The score pattern *)

Section ScorePattern.
Variable rt : runtime.

Import SpecRegex SpecScore.

Lemma star_digit_all (w : str) :
  star (lang rt (RChar [ADigit])) w -> all_decimal rt w.
Proof.
  induction 1 as [|w1 w2 (c & -> & Hc) _ IH].
  - constructor.
  - simpl. constructor; [|exact IH]. rewrite <- class_digit. exact Hc.
Qed.

(** The digit, with its optional fraction. *)
Definition SCORE_BODY : regex :=
  RSeq (RChar [ARange (ch "1") (ch "7")])
       (ROpt (RSeq (RChar [ALit (ch ".")]) (RPlus (RChar [ADigit])))).

Lemma score_body_token (w : str) :
  lang rt SCORE_BODY w -> score_token rt w.
Proof.
  intros (w1 & w2 & -> & (d & -> & Hd) & Hopt).
  simpl in Hd. rewrite orb_false_r in Hd. apply andb_true_iff in Hd.
  destruct Hd as [Hlo Hhi]. apply N.leb_le in Hlo, Hhi.
  exists d, w2. split; [reflexivity|]. split; [exact Hlo|].
  split; [exact Hhi|].
  destruct Hopt as [-> | (w3 & w4 & -> & (dot & -> & Hdot) & Hplus)].
  - left. reflexivity.
  - right. rewrite class_lit in Hdot. apply N.eqb_eq in Hdot. subst dot.
    destruct Hplus as (w5 & w6 & -> & (c & -> & Hc) & Hstar).
    exists ([c] ++ w6). split; [reflexivity|]. split; [discriminate|].
    simpl. constructor.
    + rewrite <- class_digit. exact Hc.
    + apply star_digit_all. exact Hstar.
Qed.

Lemma at_boundary_groups (bef aft : str) (g1 g2 : list (nat * str)) :
  at_boundary rt {| before := bef; after := aft; groups := g1 |}
  = at_boundary rt {| before := bef; after := aft; groups := g2 |}.
Proof. reflexivity. Qed.

(** One match of the score pattern: the first group is the whole match, a
    score token standing between word boundaries. *)
Lemma score_match (s e : mstate) :
  match_here rt S4C.SCORE s = Some e ->
  exists w,
    after s = w ++ after e
    /\ before e = rev w ++ before s
    /\ group (groups e) 1 = Some w
    /\ score_token rt w
    /\ delimited rt (before s) w (after e).
Proof.
  unfold match_here, S4C.SCORE. fold SCORE_BODY.
  set (s0 := {| before := before s; after := after s; groups := [] |}).
  change (rmatch rt (RSeq RWordB (RSeq (RGroup 1 SCORE_BODY) RWordB)) s0
                 (fun s1 => Some s1))
    with (if at_boundary rt s0
          then rmatch rt SCORE_BODY s0
                 (fun s1 =>
                    let s2 := {| before := before s1; after := after s1;
                                 groups := (1, consumed s0 s1) :: groups s1 |}
                    in if at_boundary rt s2 then Some s2 else None)
          else None).
  destruct (at_boundary rt s0) eqn:Eb0; [|discriminate].
  intros H. apply rmatch_reaches in H.
  destruct H as (w & s1 & R & L & H). cbv zeta in H.
  destruct (at_boundary rt _) eqn:Eb1 in H; [|discriminate].
  injection H as <-. simpl.
  pose proof (reaches_consumed s0 s1 w R) as Ec.
  destruct R as [A B]. simpl in A, B.
  exists w. split; [exact A|]. split; [exact B|].
  split; [rewrite Ec; reflexivity|].
  split; [apply score_body_token; exact L|].
  split.
  - rewrite <- A. exact Eb0.
  - rewrite <- B. exact Eb1.
Qed.

(** A score token always converts to a float. *)
Lemma score_token_parses (m : str) :
  score_token rt m -> exists f, float_of_str rt m = Some f.
Proof.
  intros (d & frac & -> & Hlo & Hhi & Hfrac).
  change (ch "1") with 49%N in Hlo. change (ch "7") with 55%N in Hhi.
  assert (Hdot : (d =? 46)%N = false) by (apply N.eqb_neq; lia).
  assert (Hd : is_decimal rt d = true).
  { unfold is_decimal, decimal_value.
    replace (d <? 128)%N with true by (symmetry; apply N.ltb_lt; lia).
    replace ((48 <=? d)%N && (d <=? 57)%N) with true; [reflexivity|].
    symmetry. apply andb_true_iff. split; apply N.leb_le; lia. }
  unfold float_of_str.
  destruct Hfrac as [-> | (ds & -> & Hne & Hall)].
  - simpl. rewrite Hdot.
    destruct (digits_value_from_some rt [d] (Forall_cons _ Hd (Forall_nil _))
                0%N) as [n Hn].
    unfold digits_value. rewrite Hn. eauto.
  - simpl split_dot. rewrite Hdot.
    change (ch "." =? 46)%N with true. cbv iota beta.
    destruct ds as [|c ds]; [contradiction|].
    destruct (digits_value_from_some rt ([d] ++ c :: ds)
                (Forall_cons _ Hd Hall) 0%N) as [n Hn].
    unfold digits_value. rewrite Hn. eauto.
Qed.

End ScorePattern.

(** ** Successive matches *)

Section FindIter.
Variable rt : runtime.
Variable r : regex.
Variable f : mstate * mstate -> str.
Variable P : str -> str -> str -> Prop.

Import SpecScore.

Hypothesis match_gives :
  forall s e,
    match_here rt r s = Some e ->
    exists w, after s = w ++ after e /\ before e = rev w ++ before s
              /\ f (s, e) = w /\ P (before s) w (after e).

Lemma occur_shift (x bef : str) (ms : list str) (t : str) :
  occur P (rev x ++ bef) ms t -> occur P bef ms (x ++ t).
Proof.
  intros H. inversion H as [| ? gap m ms' rest HP Hrest]; subst.
  - constructor.
  - rewrite app_assoc. constructor.
    + rewrite rev_app_distr, <- app_assoc. exact HP.
    + rewrite rev_app_distr, <- app_assoc. exact Hrest.
Qed.

Lemma finditer_occur :
  forall fuel bef aft,
    occur P bef (map f (finditer_from rt fuel r bef aft)) aft.
Proof.
  induction fuel as [|fuel IH]; intros bef aft; simpl.
  - constructor.
  - destruct (search_from rt r bef aft) as [[s e]|] eqn:Es;
      [|constructor].
    apply search_from_found in Es.
    destruct Es as (gap & A & B & _ & M).
    destruct (match_gives s e M) as (w & A' & B' & Fw & HP).
    rewrite A, A', B in *.
    destruct (length (after e) <? length (w ++ after e)).
    + simpl. rewrite Fw. constructor; [exact HP|].
      rewrite <- B'. apply IH.
    + destruct (step_char e) as [e'|] eqn:Est.
      * simpl. rewrite Fw. constructor; [exact HP|].
        unfold step_char in Est.
        destruct (after e) as [|c rest] eqn:Ea; [discriminate|].
        injection Est as <-. simpl.
        apply (occur_shift [c]). simpl. rewrite <- B'. apply IH.
      * simpl. rewrite Fw. constructor; [exact HP | constructor].
Qed.

Lemma occur_forall (bef : str) (ms : list str) (t : str) :
  occur P bef ms t ->
  forall m, In m ms -> exists b a, P b m a.
Proof.
  induction 1 as [|bef gap m ms rest HP _ IH]; intros x Hx.
  - contradiction.
  - destruct Hx as [<- | Hx]; [eauto | apply IH; exact Hx].
Qed.

End FindIter.

(** ** Bounded-score extraction *)

Section ExtractScore.
Variable rt : runtime.

Import SpecRegex SpecScore.

(** What [findall] keeps of a match: its first group. *)
Definition first_group (m : mstate * mstate) : str :=
  match groupn m 1 with Some g => g | None => [] end.

Definition score_occurrence (bef m aft : str) : Prop :=
  score_token rt m /\ delimited rt bef m aft.

Lemma score_matches_occur (text : str) :
  occur score_occurrence [] (findall1 rt S4C.SCORE text) text.
Proof.
  unfold findall1, finditer. fold first_group.
  apply finditer_occur. intros s e M.
  destruct (score_match rt s e M) as (w & A & B & G & T & D).
  exists w. repeat split; try assumption; try apply D.
  unfold first_group, groupn. simpl. rewrite G. reflexivity.
Qed.

Lemma first_score_some (ms : list str) (v : pyfloat) :
  S4C.first_score rt ms = Some v
  <-> exists pre m post,
        ms = pre ++ m :: post
        /\ (forall m', In m' pre -> in_range rt m' = false)
        /\ float_of_str rt m = Some v
        /\ float_between 1 7 v = true.
Proof.
  unfold in_range. induction ms as [|m0 ms IH]; simpl.
  - split; [discriminate|].
    intros (pre & m & post & E & _). destruct pre; discriminate.
  - destruct (float_of_str rt m0) as [f0|] eqn:Ef.
    + destruct (float_between 1 7 f0) eqn:Eb.
      * split.
        -- intros H. injection H as <-. exists [], m0, ms.
           repeat split; auto. intros ? [].
        -- intros (pre & m & post & E & Hpre & Hm & Hv).
           destruct pre as [|p pre]; simpl in E; injection E as E1 E2; subst.
           ++ congruence.
           ++ specialize (Hpre _ (or_introl eq_refl)).
              rewrite Ef, Eb in Hpre. discriminate.
      * rewrite IH. split.
        -- intros (pre & m & post & -> & Hpre & Hm & Hv).
           exists (m0 :: pre), m, post. repeat split; auto.
           intros m' [<- | Hin]; [rewrite Ef; exact Eb | auto].
        -- intros (pre & m & post & E & Hpre & Hm & Hv).
           destruct pre as [|p pre]; simpl in E; injection E as E1 E2; subst.
           ++ congruence.
           ++ exists pre, m, post. repeat split; auto.
              intros m' Hin. apply Hpre. right. exact Hin.
    + rewrite IH. split.
      * intros (pre & m & post & -> & Hpre & Hm & Hv).
        exists (m0 :: pre), m, post. repeat split; auto.
        intros m' [<- | Hin]; [rewrite Ef; reflexivity | auto].
      * intros (pre & m & post & E & Hpre & Hm & Hv).
        destruct pre as [|p pre]; simpl in E; injection E as E1 E2; subst.
        -- congruence.
        -- exists pre, m, post. repeat split; auto.
           intros m' Hin. apply Hpre. right. exact Hin.
Qed.

Lemma first_score_none (ms : list str) :
  S4C.first_score rt ms = None
  <-> forall m, In m ms -> in_range rt m = false.
Proof.
  unfold in_range. induction ms as [|m0 ms IH]; simpl.
  - split; [intros _ ? [] | reflexivity].
  - destruct (float_of_str rt m0) as [f0|] eqn:Ef.
    + destruct (float_between 1 7 f0) eqn:Eb.
      * split; [discriminate|]. intros H.
        specialize (H m0 (or_introl eq_refl)). rewrite Ef, Eb in H.
        discriminate.
      * rewrite IH. split.
        -- intros H m [<- | Hin]; [rewrite Ef; exact Eb | auto].
        -- intros H m Hin. apply H. right. exact Hin.
    + rewrite IH. split.
      * intros H m [<- | Hin]; [rewrite Ef; reflexivity | auto].
      * intros H m Hin. apply H. right. exact Hin.
Qed.

(** C2 (amended). The tokens the extraction considers are the successive
    matches of the score pattern: occurrences in the reply, from left to
    right and without overlap, of one digit from 1 to 7, alone or followed
    by a full stop and decimal digits, standing between word boundaries;
    each converts to a float.  The extraction returns the value of the
    first such token whose value lies in [1,7], whatever follows it, and
    [None] exactly when no such token has a value in [1,7]. *)
Theorem extract_score_first_token_in_range (text : str) :
  let ms := findall1 rt S4C.SCORE text in
  occur score_occurrence [] ms text
  /\ (forall m, In m ms -> exists f, float_of_str rt m = Some f)
  /\ (forall v,
        S4C.extract_score rt text = Some v
        <-> exists pre m post,
              ms = pre ++ m :: post
              /\ (forall m', In m' pre -> in_range rt m' = false)
              /\ float_of_str rt m = Some v
              /\ float_between 1 7 v = true)
  /\ (S4C.extract_score rt text = None
      <-> forall m, In m ms -> in_range rt m = false).
Proof.
  intros ms. pose proof (score_matches_occur text) as Hocc. fold ms in Hocc.
  split; [exact Hocc|]. split.
  - intros m Hin.
    destruct (occur_forall score_occurrence [] ms text Hocc m Hin)
      as (b & a & T & _).
    apply score_token_parses. exact T.
  - split.
    + intros v. apply first_score_some.
    + apply first_score_none.
Qed.

End ExtractScore.

(** The example of the specification: 8 is no token, 4 is returned. *)
Lemma extract_score_first_token_in_range_witness :
  (exists pre m post,
     findall1 ascii_runtime S4C.SCORE (lit "...8, then 4, or 6...")
     = pre ++ m :: post
     /\ (forall m', In m' pre -> SpecScore.in_range ascii_runtime m' = false)
     /\ float_of_str ascii_runtime m = Some (FFinite 4%Q)
     /\ float_between 1 7 (FFinite 4%Q) = true)
  /\ S4C.extract_score ascii_runtime (lit "...8, then 4, or 6...")
     = Some (FFinite 4%Q).
Proof.
  assert (H : exists pre m post,
     findall1 ascii_runtime S4C.SCORE (lit "...8, then 4, or 6...")
     = pre ++ m :: post
     /\ (forall m', In m' pre -> SpecScore.in_range ascii_runtime m' = false)
     /\ float_of_str ascii_runtime m = Some (FFinite 4%Q)
     /\ float_between 1 7 (FFinite 4%Q) = true).
  { exists [], (lit "4"), [lit "6"].
    split; [vm_compute; reflexivity|].
    split; [intros ? []|]. split; vm_compute; reflexivity. }
  split; [exact H|].
  destruct (extract_score_first_token_in_range ascii_runtime
              (lit "...8, then 4, or 6...")) as (_ & _ & R & _).
  apply R. exact H.
Defined.

(** C2 as stated fails: the only integer-or-decimal token of ["0.5"] is
    0.5, whose value is outside [1,7], so the stated rule gives no score;
    the pattern matches the fraction digit 5 after the full stop and the
    code returns 5.0. *)
Lemma extract_score_claim_fails_on_fraction :
  SpecScore.number_tokens ascii_runtime (lit "0.5") = [lit "0.5"]
  /\ SpecScore.claimed_extract_score ascii_runtime (lit "0.5") = None
  /\ S4C.extract_score ascii_runtime (lit "0.5") = Some (FFinite 5%Q)
  /\ S4C.extract_score ascii_runtime (lit "0.5")
     <> SpecScore.claimed_extract_score ascii_runtime (lit "0.5").
Proof.
  repeat split; try (vm_compute; reflexivity).
  vm_compute. discriminate.
Qed.

(** In the other direction, a digit glued to a letter is a token in range
    for the stated rule, but not a match of the pattern. *)
Lemma extract_score_misses_glued_digit :
  SpecScore.claimed_extract_score ascii_runtime (lit "5th")
  = Some (FFinite 5%Q)
  /\ S4C.extract_score ascii_runtime (lit "5th") = None.
Proof. split; vm_compute; reflexivity. Qed.

(** ** The structured call and its fallback *)

Section Fallback.
Variable rt : runtime.
Variable svc : service.

Import SpecFallback.

Lemma call_run (rq : request) (log : list request) :
  call svc rq log = (Ok (svc (length log) rq), log ++ [rq]).
Proof. reflexivity. Qed.

Lemma length_snoc (log : list request) (rq : request) :
  length (log ++ [rq]) = S (length log).
Proof. rewrite length_app. simpl. lia. Qed.

Lemma startswith_iff (p : str) :
  forall s, startswith s p = true <-> exists rest, s = p ++ rest.
Proof.
  induction p as [|y p IH]; intros s.
  - split; [intros _; exists s; reflexivity | destruct s; reflexivity].
  - destruct s as [|x s]; simpl.
    + split; [discriminate | intros [rest E]; discriminate E].
    + rewrite andb_true_iff, N.eqb_eq, IH. split.
      * intros [-> [rest ->]]. exists rest. reflexivity.
      * intros [rest E]. injection E as -> ->. split; eauto.
Qed.

Lemma expected_key_iff (k : str) :
  JLR.expected_key k = true <-> expected k.
Proof.
  unfold JLR.expected_key, expected.
  rewrite orb_true_iff, !startswith_iff. reflexivity.
Qed.

Lemma json_attempt_none (o : outcome) :
  JLR.json_attempt rt o = None <-> json_mode_unusable rt o.
Proof.
  unfold json_mode_unusable. split.
  - destruct o as [|[txt|]]; simpl; auto.
    intros H. right. right. exists txt. split; [reflexivity|].
    destruct (json_loads rt txt) as [v|]; auto.
    right. destruct v as [| | | | | |d];
      try (left; eexists; split; [reflexivity | discriminate]).
    right. exists d. split; [reflexivity|].
    destruct (existsb _ d) eqn:E; [discriminate|].
    intros k v Hin Hk. apply expected_key_iff in Hk.
    assert (X : existsb (fun kv => JLR.expected_key (fst kv)) d = true)
      by (apply existsb_exists; exists (k, v); auto).
    rewrite X in E. discriminate.
  - intros [-> | [-> | (txt & -> & H)]]; try reflexivity. simpl.
    destruct H as [-> | [(v & -> & Hv) | (d & -> & Hd)]].
    + reflexivity.
    + destruct v; try reflexivity. exfalso. eapply Hv. reflexivity.
    + destruct (existsb _ d) eqn:E; [|reflexivity].
      apply existsb_exists in E. destruct E as ([k v] & Hin & Hk).
      simpl in Hk. apply expected_key_iff in Hk.
      exfalso. apply (Hd k v Hin Hk).
Qed.

Lemma chat_fallback (msgs : list (str * str)) (log : list request) :
  JLR.json_attempt rt (svc (length log) (json_request msgs)) = None ->
  JLR.chat_completion_json rt svc msgs log
  = (Ok (JLR.text_attempt rt
           (svc (S (length log)) (text_request msgs))),
     log ++ [json_request msgs; text_request msgs]).
Proof.
  intros H. unfold JLR.chat_completion_json, bind.
  rewrite call_run. fold (json_request msgs). rewrite H.
  rewrite call_run. fold (text_request msgs).
  rewrite length_snoc, <- app_assoc. reflexivity.
Qed.

Lemma chat_direct (msgs : list (str * str)) (log : list request)
  (parsed : list (str * pyval)) :
  JLR.json_attempt rt (svc (length log) (json_request msgs)) = Some parsed ->
  JLR.chat_completion_json rt svc msgs log
  = (Ok parsed, log ++ [json_request msgs]).
Proof.
  intros H. unfold JLR.chat_completion_json, bind.
  rewrite call_run. fold (json_request msgs). rewrite H. reflexivity.
Qed.

Lemma chat_never_raises (msgs : list (str * str)) (log : list request) :
  exists data log',
    JLR.chat_completion_json rt svc msgs log = (Ok data, log').
Proof.
  destruct (JLR.json_attempt rt (svc (length log) (json_request msgs)))
    as [parsed|] eqn:E.
  - rewrite (chat_direct _ _ _ E). eauto.
  - rewrite (chat_fallback _ _ E). eauto.
Qed.

Lemma text_attempt_failed (o : outcome) :
  text_mode_fails o -> JLR.text_attempt rt o = [].
Proof. intros [-> | ->]; reflexivity. Qed.

(** *** What the fallback recovers *)

Lemma combine_fields_item (reasons items : list (str * pyval)) (ik : str) :
  In ik JLR.ITEM_KEYS ->
  dict_get (JLR.combine_fields reasons items) ik = dict_get items ik.
Proof.
  unfold JLR.ITEM_KEYS, JLR.keys_1_to_7. simpl In.
  intros H.
  repeat (destruct H as [<- | H]; [reflexivity|]). contradiction.
Qed.

Lemma combine_fields_reason (reasons items : list (str * pyval)) (rk : str) :
  In rk JLR.REASON_KEYS ->
  dict_get (JLR.combine_fields reasons items) rk
  = match assoc_get reasons rk with Some v => v | None => PStr [] end.
Proof.
  unfold JLR.REASON_KEYS, JLR.keys_1_to_7. simpl In.
  intros H.
  repeat (destruct H as [<- | H]; [reflexivity|]). contradiction.
Qed.

Definition all_ints (items : list (str * pyval)) : Prop :=
  forall k, exists z, assoc_get items k = None \/ assoc_get items k = Some (PInt z).

Lemma salvage_items_from_ints (ms : list (mstate * mstate)) :
  forall items res,
    all_ints items ->
    JLR.salvage_items_from rt ms items = Ok res ->
    all_ints res.
Proof.
  induction ms as [|m ms IH]; intros items res Hi H; simpl in H.
  - injection H as <-. exact Hi.
  - destruct (groupn m 1) as [g1|]; [|eapply IH; eauto].
    destruct (groupn m 2) as [g2|]; [|eapply IH; eauto].
    destruct (int_of_str rt g2) as [z|e]; simpl in H; [|discriminate].
    eapply IH; [|exact H]. intros k. rewrite assoc_get_set.
    destruct (str_eqb _ k); [exists z; auto | apply Hi].
Qed.

Lemma salvage_items_ints (txt : str) (items : list (str * pyval)) :
  JLR.salvage_items rt txt = Ok items -> all_ints items.
Proof.
  apply salvage_items_from_ints. intros k. exists 0%Z. left. reflexivity.
Qed.

(** The dictionary of the fallback never makes the item coercion raise. *)
Lemma text_attempt_item (o : outcome) (ik : str) :
  In ik JLR.ITEM_KEYS ->
  exists v, JLR.coerce_item rt (dict_get (JLR.text_attempt rt o) ik) = Ok v
            /\ (v = PNone \/ exists z, v = PInt z).
Proof.
  intros Hin. unfold JLR.text_attempt.
  destruct o as [|[txt|]]; try (exists PNone; split; [reflexivity | auto]).
  destruct (JLR.salvage_items rt txt) as [items|e] eqn:E;
    [|exists PNone; split; [reflexivity | auto]].
  rewrite (combine_fields_item _ _ _ Hin).
  destruct (salvage_items_ints _ _ E ik) as [z Hz].
  unfold dict_get. destruct Hz as [-> | ->].
  - exists PNone. split; [reflexivity | auto].
  - exists (PInt z). split; [reflexivity | eauto].
Qed.

Lemma coerce_items_total (data : list (str * pyval)) :
  forall keys acc,
    (forall ik, In ik keys ->
       exists v, JLR.coerce_item rt (dict_get data ik) = Ok v) ->
    exists items, JLR.coerce_items rt keys data acc = Ok items.
Proof.
  induction keys as [|ik keys IH]; intros acc H; simpl.
  - eauto.
  - destruct (H ik (or_introl eq_refl)) as [v Hv]. rewrite Hv. simpl.
    apply IH. intros k Hk. apply H. right. exact Hk.
Qed.

Lemma text_attempt_coerces (o : outcome) :
  exists items,
    JLR.coerce_items rt JLR.ITEM_KEYS (JLR.text_attempt rt o) [] = Ok items.
Proof.
  apply coerce_items_total. intros ik Hin.
  destruct (text_attempt_item o ik Hin) as (v & Hv & _). eauto.
Qed.

End Fallback.

(** ** Scanning a reply line by line *)

Section LineScan.
Variable rt : runtime.

Import SpecRegex SpecLines.

Lemma finditer_from_search (r : regex) (fuel : nat)
  (bef aft bef' aft' : str) :
  search_from rt r bef aft = search_from rt r bef' aft' ->
  finditer_from rt fuel r bef aft = finditer_from rt fuel r bef' aft'.
Proof. destruct fuel; simpl; [reflexivity|]. intros ->. reflexivity. Qed.

Lemma finditer_from_step (r : regex) (fuel : nat) (bef aft : str) :
  finditer_from rt (S fuel) r bef aft
  = match search_from rt r bef aft with
    | None => []
    | Some (s, e) =>
      if Nat.ltb (length (after e)) (length (after s))
      then (s, e) :: finditer_from rt fuel r (before e) (after e)
      else
        match step_char e with
        | Some e' => (s, e) :: finditer_from rt fuel r (before e') (after e')
        | None => [(s, e)]
        end
    end.
Proof. reflexivity. Qed.

(** A stretch of text in which no match starts is passed over. *)
Lemma search_skip (r : regex) (rest : str) :
  forall l bef,
    (forall pre x suf b,
       l = pre ++ x :: suf ->
       match_here rt r {| before := b; after := x :: suf ++ rest;
                          groups := [] |} = None) ->
    search_from rt r bef (l ++ rest) = search_from rt r (rev l ++ bef) rest.
Proof.
  induction l as [|c l IH]; intros bef H; [reflexivity|].
  simpl app. simpl search_from at 1.
  rewrite (H [] c l bef eq_refl).
  rewrite (IH (c :: bef)).
  - rewrite <- app_assoc. reflexivity.
  - intros pre x suf b E. apply (H (c :: pre) x suf b).
    rewrite E. reflexivity.
Qed.

Section Scan.
Variable A : Type.
Variable text : A -> str.
Variable r : regex.
Variable good : A -> Prop.
Variable cap : A -> option (option str * option str).

Hypothesis hit :
  forall l c tail b,
    good l -> cap l = Some c -> line_end tail ->
    text l <> []
    /\ exists e,
         match_here rt r {| before := b; after := text l ++ tail;
                            groups := [] |} = Some e
         /\ after e = tail
         /\ (group (groups e) 1, group (groups e) 2) = c.

Hypothesis miss :
  forall l tail pre x suf b,
    good l -> cap l = None -> line_end tail ->
    text l = pre ++ x :: suf ->
    match_here rt r {| before := b; after := x :: suf ++ tail;
                       groups := [] |} = None.

Hypothesis first :
  forall s e, match_here rt r s = Some e ->
              exists c rest, after s = c :: rest /\ c <> 10%N.

Lemma no_match_at_end (b : str) :
  match_here rt r {| before := b; after := []; groups := [] |} = None.
Proof.
  destruct (match_here rt r _) as [e|] eqn:E; [|reflexivity].
  apply first in E. destruct E as (c & rest & E & _). discriminate E.
Qed.

Lemma no_match_at_newline (b rest : str) :
  match_here rt r {| before := b; after := 10%N :: rest; groups := [] |}
  = None.
Proof.
  destruct (match_here rt r _) as [e|] eqn:E; [|reflexivity].
  apply first in E. destruct E as (c & rest' & E & Hc).
  simpl in E. injection E as <- _. contradiction.
Qed.

(** The matches in a reply of lines are those of the lines that the
    pattern matches from their start, in order. *)
Lemma scan_joined :
  forall ls,
    Forall good ls ->
    forall fuel bef,
      length (joined (map text ls)) < fuel ->
      map captures (finditer_from rt fuel r bef (joined (map text ls)))
      = flat_map (fun l => found (cap l)) ls.
Proof.
  induction ls as [|l ls IH]; intros Hg fuel bef Hf.
  - simpl. destruct fuel as [|fuel]; [reflexivity|]. simpl.
    rewrite no_match_at_end. reflexivity.
  - inversion Hg as [|? ? Hl Hls]; subst.
    pose (tail := match map text ls with
                  | [] => []
                  | _ :: _ => nl ++ joined (map text ls)
                  end).
    assert (Ej : joined (map text (l :: ls)) = text l ++ tail)
      by reflexivity.
    rewrite Ej in *. clear Ej.
    assert (Ht : line_end tail).
    { unfold tail. destruct (map text ls); [left; reflexivity|].
      right. eexists. reflexivity. }
    assert (Hrest : forall fuel' bef',
              length tail < fuel' ->
              map captures (finditer_from rt fuel' r bef' tail)
              = flat_map (fun l => found (cap l)) ls).
    { intros fuel' bef' Hf'. unfold tail in *.
      destruct ls as [|l' ls'].
      - simpl. destruct fuel' as [|fuel']; [reflexivity|]. simpl.
        rewrite no_match_at_end. reflexivity.
      - change (map text (l' :: ls')) with (text l' :: map text ls') in *.
        cbv iota in *.
        change (nl ++ joined (text l' :: map text ls'))
          with (10%N :: joined (text l' :: map text ls')) in *.
        rewrite (finditer_from_search r fuel' bef'
                   (10%N :: joined (text l' :: map text ls'))
                   (10%N :: bef') (joined (text l' :: map text ls'))).
        + apply (IH Hls). simpl in Hf'. simpl. lia.
        + simpl search_from at 1. rewrite no_match_at_newline.
          reflexivity. }
    simpl flat_map. unfold found at 1. destruct (cap l) as [c|] eqn:Ec.
    + destruct (hit l c tail bef Hl Ec Ht) as (Hne & e & He & Ha & Hc).
      destruct fuel as [|fuel]; [lia|].
      rewrite finditer_from_step.
      assert (Es : search_from rt r bef (text l ++ tail)
                   = Some ({| before := bef; after := text l ++ tail;
                              groups := [] |}, e)).
      { destruct (text l ++ tail) eqn:E; simpl; rewrite He; reflexivity. }
      rewrite Es. simpl after. rewrite Ha.
      assert (Hlt : (length tail <? length (text l ++ tail)) = true).
      { apply Nat.ltb_lt. rewrite length_app.
        destruct (text l); [contradiction|]. simpl. lia. }
      rewrite Hlt. simpl map. simpl app. f_equal.
      * unfold captures, groupn. simpl snd. exact Hc.
      * apply Hrest. rewrite length_app in Hf.
        destruct (text l); [contradiction|]. simpl in Hf. lia.
    + rewrite (finditer_from_search r fuel bef (text l ++ tail)
                 (rev (text l) ++ bef) tail).
      * simpl app. apply Hrest. rewrite length_app in Hf. lia.
      * apply search_skip. intros pre x suf b E.
        apply (miss l tail pre x suf b Hl Ec Ht E).
Qed.

End Scan.

End LineScan.

(** ** The two line patterns on a line *)

Section LineMatches.
Variable rt : runtime.

Import SpecRegex SpecLines.

Lemma rmatch_seq (r1 r2 : regex) (s : mstate)
  (k : mstate -> option mstate) :
  rmatch rt (RSeq r1 r2) s k
  = rmatch rt r1 s (fun s1 => rmatch rt r2 s1 k).
Proof. reflexivity. Qed.

Lemma rmatch_group (n : nat) (r1 : regex) (s : mstate)
  (k : mstate -> option mstate) :
  rmatch rt (RGroup n r1) s k
  = rmatch rt r1 s (fun s1 =>
      k {| before := before s1; after := after s1;
           groups := (n, consumed s s1) :: groups s1 |}).
Proof. reflexivity. Qed.

Lemma rmatch_char (cl : cclass) (b a : str) (g : list (nat * str))
  (k : mstate -> option mstate) :
  rmatch rt (RChar cl) {| before := b; after := a; groups := g |} k
  = match a with
    | c :: rest =>
      if class_match rt cl c
      then k {| before := c :: b; after := rest; groups := g |}
      else None
    | [] => None
    end.
Proof. reflexivity. Qed.

Lemma rmatch_char_seq (cl : cclass) (r2 : regex) (b : str) (c : char)
  (a : str) (g : list (nat * str)) (k : mstate -> option mstate) :
  class_match rt cl c = true ->
  rmatch rt (RSeq (RChar cl) r2)
         {| before := b; after := c :: a; groups := g |} k
  = rmatch rt r2 {| before := c :: b; after := a; groups := g |} k.
Proof. intros H. rewrite rmatch_seq, rmatch_char, H. reflexivity. Qed.

(** A greedy repetition takes the whole run of the class when the rest of
    the pattern matches after it. *)
Lemma greedy_run (cl : cclass) (k : mstate -> option mstate)
  (gs : list (nat * str)) (post : str) (res : mstate) :
  (forall c a, post = c :: a -> class_match rt cl c = false) ->
  forall pre bef,
    all_in rt cl pre ->
    k {| before := rev pre ++ bef; after := post; groups := gs |}
    = Some res ->
    greedy rt cl k bef (pre ++ post) gs = Some res.
Proof.
  intros Hstop. induction pre as [|c pre IH]; intros bef Hall Hk.
  - simpl in *. destruct post as [|c a]; simpl; [exact Hk|].
    rewrite (Hstop c a eq_refl). exact Hk.
  - inversion Hall as [|? ? Hc Hall']; subst. simpl.
    rewrite Hc. rewrite (IH (c :: bef) Hall'); [reflexivity|].
    simpl in Hk. rewrite <- app_assoc in Hk. exact Hk.
Qed.

Lemma rmatch_star_seq (cl : cclass) (r2 : regex) (pre post b : str)
  (g : list (nat * str)) (k : mstate -> option mstate) (res : mstate) :
  all_in rt cl pre ->
  (forall c a, post = c :: a -> class_match rt cl c = false) ->
  rmatch rt r2 {| before := rev pre ++ b; after := post; groups := g |} k
  = Some res ->
  rmatch rt (RSeq (RStar (RChar cl)) r2)
         {| before := b; after := pre ++ post; groups := g |} k
  = Some res.
Proof.
  intros Hall Hstop Hk. rewrite rmatch_seq, rmatch_star_class.
  apply greedy_run; assumption.
Qed.

Lemma rmatch_star_seq0 (cl : cclass) (r2 : regex) (y : char)
  (rest b : str) (g : list (nat * str)) (k : mstate -> option mstate)
  (res : mstate) :
  class_match rt cl y = false ->
  rmatch rt r2 {| before := b; after := y :: rest; groups := g |} k
  = Some res ->
  rmatch rt (RSeq (RStar (RChar cl)) r2)
         {| before := b; after := y :: rest; groups := g |} k
  = Some res.
Proof.
  intros Hy Hk. apply (rmatch_star_seq cl r2 [] (y :: rest)).
  - constructor.
  - intros c a E. injection E as <- _. exact Hy.
  - exact Hk.
Qed.

Lemma rmatch_star_seq1 (cl : cclass) (r2 : regex) (x y : char)
  (rest b : str) (g : list (nat * str)) (k : mstate -> option mstate)
  (res : mstate) :
  class_match rt cl x = true ->
  class_match rt cl y = false ->
  rmatch rt r2 {| before := x :: b; after := y :: rest; groups := g |} k
  = Some res ->
  rmatch rt (RSeq (RStar (RChar cl)) r2)
         {| before := b; after := x :: y :: rest; groups := g |} k
  = Some res.
Proof.
  intros Hx Hy Hk. apply (rmatch_star_seq cl r2 [x] (y :: rest)).
  - constructor; [exact Hx | constructor].
  - intros c a E. injection E as <- _. exact Hy.
  - exact Hk.
Qed.

Lemma consumed_run (b1 b2 : str) (g1 g2 : list (nat * str))
  (w rest : str) :
  consumed {| before := b1; after := w ++ rest; groups := g1 |}
           {| before := b2; after := rest; groups := g2 |}
  = w.
Proof.
  unfold consumed. simpl. rewrite length_app.
  replace (length w + length rest - length rest) with (length w) by lia.
  rewrite firstn_app, Nat.sub_diag, firstn_all. simpl. apply app_nil_r.
Qed.

(** A group of one or more characters of a class takes the whole run. *)
Lemma rmatch_group_plus (n : nat) (cl : cclass) (c : char)
  (pre post b : str) (g : list (nat * str))
  (k : mstate -> option mstate) (res : mstate) :
  class_match rt cl c = true ->
  all_in rt cl pre ->
  (forall x a, post = x :: a -> class_match rt cl x = false) ->
  k {| before := rev pre ++ c :: b; after := post;
       groups := (n, c :: pre) :: g |} = Some res ->
  rmatch rt (RGroup n (RPlus (RChar cl)))
         {| before := b; after := c :: pre ++ post; groups := g |} k
  = Some res.
Proof.
  intros Hc Hall Hstop Hk. unfold RPlus.
  rewrite rmatch_group, rmatch_seq, rmatch_char, Hc, rmatch_star_class.
  apply greedy_run; [assumption | assumption |].
  cbv beta. simpl before. simpl after. simpl groups.
  change (c :: pre ++ post) with ((c :: pre) ++ post).
  rewrite (consumed_run b (rev pre ++ c :: b) g g (c :: pre) post).
  exact Hk.
Qed.

Lemma rmatch_group_plus_seq (n : nat) (cl : cclass) (r2 : regex) (c : char)
  (pre post b : str) (g : list (nat * str))
  (k : mstate -> option mstate) (res : mstate) :
  class_match rt cl c = true ->
  all_in rt cl pre ->
  (forall x a, post = x :: a -> class_match rt cl x = false) ->
  rmatch rt r2 {| before := rev pre ++ c :: b; after := post;
                  groups := (n, c :: pre) :: g |} k = Some res ->
  rmatch rt (RSeq (RGroup n (RPlus (RChar cl))) r2)
         {| before := b; after := c :: pre ++ post; groups := g |} k
  = Some res.
Proof.
  intros Hc Hall Hstop Hk. rewrite rmatch_seq.
  apply rmatch_group_plus; assumption.
Qed.

(** *** Characters *)

Lemma digit_char_decimal (n : N) :
  (n <= 9)%N -> class_match rt [ADigit] (digit_char n) = true.
Proof.
  intros H. rewrite class_digit. unfold is_decimal, decimal_value, digit_char.
  assert (E1 : (48 + n <? 128)%N = true) by (apply N.ltb_lt; lia).
  assert (E2 : (48 <=? 48 + n)%N = true) by (apply N.leb_le; lia).
  assert (E3 : (48 + n <=? 57)%N = true) by (apply N.leb_le; lia).
  rewrite E1, E2, E3. reflexivity.
Qed.

Lemma ascii_digit_not_space (c : char) :
  ascii_digit c -> is_space rt c = false.
Proof.
  intros [A B]. unfold is_space.
  assert (E1 : (c <? 128)%N = true) by (apply N.ltb_lt; lia).
  assert (E2 : (c <=? 13)%N = false) by (apply N.leb_gt; lia).
  assert (E3 : (c <=? 32)%N = false) by (apply N.leb_gt; lia).
  rewrite E1, E2, E3, !andb_false_r. reflexivity.
Qed.

Lemma ascii_digit_in_range (c : char) :
  ascii_digit c -> class_match rt [ARange (ch "0") (ch "9")] c = true.
Proof.
  intros [A B]. simpl.
  assert (E1 : (48 <=? c)%N = true) by (apply N.leb_le; exact A).
  assert (E2 : (c <=? 57)%N = true) by (apply N.leb_le; exact B).
  change (N_of_ascii "0") with 48%N. change (N_of_ascii "9") with 57%N.
  rewrite E1, E2. reflexivity.
Qed.

Lemma ascii_digit_decimal (c : char) :
  ascii_digit c -> is_decimal rt c = true.
Proof.
  intros [A B]. unfold is_decimal, decimal_value.
  assert (E1 : (c <? 128)%N = true) by (apply N.ltb_lt; lia).
  assert (E2 : (48 <=? c)%N = true) by (apply N.leb_le; lia).
  assert (E3 : (c <=? 57)%N = true) by (apply N.leb_le; lia).
  rewrite E1, E2, E3. reflexivity.
Qed.

Lemma digit_char_ascii (n : N) : (n <= 9)%N -> ascii_digit (digit_char n).
Proof. unfold ascii_digit, digit_char. lia. Qed.

Lemma digit_char_not_sep (n : N) :
  (n <= 9)%N -> class_match rt JLR.SEP (digit_char n) = false.
Proof.
  intros H. unfold JLR.SEP, class_match. cbn [existsb atom_match].
  rewrite (ascii_digit_not_space _ (digit_char_ascii n H)).
  change (ch "_") with 95%N. change (ch "-") with 45%N.
  assert (E1 : (digit_char n =? 95)%N = false)
    by (apply N.eqb_neq; unfold digit_char; lia).
  assert (E2 : (digit_char n =? 45)%N = false)
    by (apply N.eqb_neq; unfold digit_char; lia).
  rewrite E1, E2. reflexivity.
Qed.

Lemma line_end_stops (cl : cclass) (tail : str) :
  line_end tail ->
  class_match rt cl 10%N = false ->
  forall c a, tail = c :: a -> class_match rt cl c = false.
Proof.
  intros [-> | [r ->]] H c a E; [discriminate|].
  injection E as <- _. exact H.
Qed.

(** *** An item line *)

Lemma item_line_shape :
  JLR.ITEM_LINE
  = RSeq (RChar [AFold 105%N])
    (RSeq (RChar [AFold 116%N])
    (RSeq (RChar [AFold 101%N])
    (RSeq (RChar [AFold 109%N])
    (RSeq (RStar (RChar JLR.SEP))
    (RSeq (RGroup 1 (RPlus (RChar [ADigit])))
    (RSeq (RStar (RChar [ASpace]))
    (RSeq (RChar [ALit (ch ":"); ALit (ch "="); ALit (ch "-");
                  ALit 8211%N])
    (RSeq (RStar (RChar [ASpace]))
          (RGroup 2 (RPlus (RChar [ARange (ch "0") (ch "9")]))))))))))).
Proof. reflexivity. Qed.

Lemma item_line_match (n : N) (digits tail b : str) :
  (n <= 9)%N ->
  digits <> [] ->
  Forall ascii_digit digits ->
  line_end tail ->
  exists e,
    match_here rt JLR.ITEM_LINE
      {| before := b; after := line_text (ItemLine n digits) ++ tail;
         groups := [] |} = Some e
    /\ after e = tail
    /\ (group (groups e) 1, group (groups e) 2)
       = (Some [digit_char n], Some digits).
Proof.
  intros Hn Hne Hd Ht.
  destruct digits as [|c ds]; [contradiction|].
  inversion Hd as [|? ? Hc Hds]; subst.
  eexists. split; [|split].
  - unfold match_here. simpl before. simpl after. simpl groups.
    change (line_text (ItemLine n (c :: ds)) ++ tail)
      with (105%N :: 116%N :: 101%N :: 109%N
            :: [95%N] ++ digit_char n
            :: [] ++ 58%N :: [32%N] ++ c :: ds ++ tail).
    rewrite item_line_shape.
    rewrite !rmatch_char_seq by reflexivity.
    apply rmatch_star_seq1;
      [reflexivity | apply digit_char_not_sep, Hn |].
    apply (rmatch_group_plus_seq 1 [ADigit] _ (digit_char n) []).
    { apply digit_char_decimal, Hn. }
    { constructor. }
    { intros x a E. injection E as <- _. reflexivity. }
    simpl rev. simpl app.
    apply rmatch_star_seq0; [reflexivity|].
    rewrite rmatch_char_seq by reflexivity.
    apply rmatch_star_seq1;
      [reflexivity
      | simpl; rewrite (ascii_digit_not_space _ Hc); reflexivity |].
    apply (rmatch_group_plus 2 _ c ds tail).
    { apply ascii_digit_in_range, Hc. }
    { eapply Forall_impl; [|exact Hds]. apply ascii_digit_in_range. }
    { apply line_end_stops; [exact Ht | reflexivity]. }
    reflexivity.
  - reflexivity.
  - reflexivity.
Qed.

(** *** A reason line *)

Lemma reason_line_shape :
  JLR.REASON_LINE
  = RSeq (RChar [AFold 114%N])
    (RSeq (RChar [AFold 101%N])
    (RSeq (RChar [AFold 97%N])
    (RSeq (RChar [AFold 115%N])
    (RSeq (RChar [AFold 111%N])
    (RSeq (RChar [AFold 110%N])
    (RSeq (RStar (RChar JLR.SEP))
    (RSeq (RGroup 1 (RPlus (RChar [ADigit])))
    (RSeq (RStar (RChar [ASpace]))
    (RSeq (RChar [ALit (ch ":"); ALit (ch "-"); ALit 8211%N])
    (RSeq (RStar (RChar [ASpace]))
          (RGroup 2 (RPlus (RChar [ADot]))))))))))))).
Proof. reflexivity. Qed.

Lemma lstrip_by_nonempty (p : char -> bool) (t : str) :
  (exists c, In c t /\ p c = false) -> lstrip_by p t <> [].
Proof.
  induction t as [|x t IH]; intros (c & Hin & Hc).
  - contradiction.
  - simpl. destruct (p x) eqn:Ex; [|discriminate].
    apply IH. destruct Hin as [-> | Hin]; [congruence|]. eauto.
Qed.

Lemma class_space (c : char) :
  class_match rt [ASpace] c = is_space rt c.
Proof. simpl. apply orb_false_r. Qed.

Lemma class_dot (c : char) :
  class_match rt [ADot] c = negb (c =? 10)%N.
Proof. simpl. apply orb_false_r. Qed.

Lemma not_newline_dot (t : str) :
  ~ In 10%N t -> all_in rt [ADot] t.
Proof.
  intros H. apply Forall_forall. intros c Hc. rewrite class_dot.
  apply negb_true_iff, N.eqb_neq. intros ->. contradiction.
Qed.

Lemma reason_line_match (n : N) (text tail b : str) :
  (n <= 9)%N ->
  ~ In 10%N text ->
  (exists c, In c text /\ is_space rt c = false) ->
  line_end tail ->
  exists e,
    match_here rt JLR.REASON_LINE
      {| before := b; after := line_text (ReasonLine n text) ++ tail;
         groups := [] |} = Some e
    /\ after e = tail
    /\ (group (groups e) 1, group (groups e) 2)
       = (Some [digit_char n], Some (lstrip_by (is_space rt) text)).
Proof.
  intros Hn Hnl Hblank Ht.
  destruct (lstrip_by_split (is_space rt) text) as [w [E Hw]].
  pose proof (lstrip_by_nonempty _ _ Hblank) as Hne.
  destruct (lstrip_by (is_space rt) text) as [|c0 t2] eqn:El;
    [contradiction|].
  pose proof (lstrip_by_head _ _ _ _ El) as Hc0.
  assert (Hdot : all_in rt [ADot] (c0 :: t2)).
  { apply not_newline_dot. intros H. apply Hnl. rewrite E.
    apply in_or_app. right. exact H. }
  pose proof (Forall_inv Hdot) as Hd0.
  pose proof (Forall_inv_tail Hdot) as Hd2. cbv beta in Hd0.
  assert (Etext : line_text (ReasonLine n text) ++ tail
                  = 114%N :: 101%N :: 97%N :: 115%N :: 111%N :: 110%N
                    :: 95%N :: digit_char n :: 58%N
                    :: (32%N :: w) ++ c0 :: t2 ++ tail).
  { rewrite E at 1. unfold line_text, reason_key.
    change (lit "reason_") with [114; 101; 97; 115; 111; 110; 95]%N.
    change (lit ": ") with [58; 32]%N.
    simpl. rewrite <- !app_assoc. reflexivity. }
  rewrite Etext.
  eexists. split; [|split].
  - unfold match_here. simpl before. simpl after. simpl groups.
    rewrite reason_line_shape.
    rewrite !rmatch_char_seq by reflexivity.
    apply rmatch_star_seq1;
      [reflexivity | apply digit_char_not_sep, Hn |].
    apply (rmatch_group_plus_seq 1 [ADigit] _ (digit_char n) []).
    { apply digit_char_decimal, Hn. }
    { constructor. }
    { intros x a Ex. injection Ex as <- _. reflexivity. }
    simpl rev. simpl app.
    apply rmatch_star_seq0; [reflexivity|].
    rewrite rmatch_char_seq by reflexivity.
    apply (rmatch_star_seq [ASpace] _ (32%N :: w) (c0 :: t2 ++ tail)).
    { constructor; [reflexivity|].
      eapply Forall_impl; [|exact Hw]. intros x Hx. cbv beta.
      rewrite class_space. exact Hx. }
    { intros x a Ex. injection Ex as <- _. rewrite class_space.
      exact Hc0. }
    apply (rmatch_group_plus 2 _ c0 t2 tail).
    { exact Hd0. }
    { exact Hd2. }
    { apply line_end_stops; [exact Ht | reflexivity]. }
    reflexivity.
  - reflexivity.
  - reflexivity.
Qed.

(** *** Where a match of each pattern can start *)

Lemma fold_i (c : char) : class_match rt [AFold 105%N] c = is_i c.
Proof.
  unfold class_match, existsb, atom_match, fold_eq, is_i.
  change (105 - 32)%N with 73%N. simpl (105 =? _)%N.
  destruct (c =? 105)%N, (c =? 73)%N, (c =? 304)%N, (c =? 305)%N; reflexivity.
Qed.

Lemma fold_t (c : char) : class_match rt [AFold 116%N] c = is_t c.
Proof.
  unfold class_match, existsb, atom_match, fold_eq, is_t.
  change (116 - 32)%N with 84%N. simpl (116 =? _)%N.
  destruct (c =? 116)%N, (c =? 84)%N; reflexivity.
Qed.

Lemma fold_e (c : char) : class_match rt [AFold 101%N] c = is_e c.
Proof.
  unfold class_match, existsb, atom_match, fold_eq, is_e.
  change (101 - 32)%N with 69%N. simpl (101 =? _)%N.
  destruct (c =? 101)%N, (c =? 69)%N; reflexivity.
Qed.

Lemma fold_m (c : char) : class_match rt [AFold 109%N] c = is_m c.
Proof.
  unfold class_match, existsb, atom_match, fold_eq, is_m.
  change (109 - 32)%N with 77%N. simpl (109 =? _)%N.
  destruct (c =? 109)%N, (c =? 77)%N; reflexivity.
Qed.

Lemma fold_r (c : char) :
  class_match rt [AFold 114%N] c = ((c =? 114)%N || (c =? 82)%N).
Proof.
  unfold class_match, existsb, atom_match, fold_eq.
  change (114 - 32)%N with 82%N. simpl (114 =? _)%N.
  destruct (c =? 114)%N, (c =? 82)%N; reflexivity.
Qed.

(** An item match starts with the word item. *)
Lemma item_match_start (s e : mstate) :
  match_here rt JLR.ITEM_LINE s = Some e -> item_here (after s) = true.
Proof.
  unfold match_here. rewrite item_line_shape.
  destruct (after s) as [|c1 [|c2 [|c3 [|c4 a]]]];
    rewrite rmatch_seq, rmatch_char; try discriminate;
    rewrite fold_i; simpl item_here;
    destruct (is_i c1); try discriminate;
    rewrite rmatch_seq, rmatch_char; try discriminate;
    rewrite fold_t; destruct (is_t c2); try discriminate;
    rewrite rmatch_seq, rmatch_char; try discriminate;
    rewrite fold_e; destruct (is_e c3); try discriminate;
    rewrite rmatch_seq, rmatch_char; try discriminate;
    rewrite fold_m; destruct (is_m c4); try discriminate.
  reflexivity.
Qed.

(** A reason match starts with the letter r. *)
Lemma reason_match_start (s e : mstate) :
  match_here rt JLR.REASON_LINE s = Some e ->
  exists c a, after s = c :: a /\ (c = 114%N \/ c = 82%N).
Proof.
  unfold match_here. rewrite reason_line_shape.
  destruct (after s) as [|c a]; rewrite rmatch_seq, rmatch_char;
    [discriminate|].
  rewrite fold_r. intros H. exists c, a. split; [reflexivity|].
  destruct (N.eqb_spec c 114); [auto|].
  destruct (N.eqb_spec c 82); [auto|]. discriminate H.
Qed.

Lemma item_here_head (c : char) (a : str) :
  is_i c = false -> item_here (c :: a) = false.
Proof. intros H. simpl. rewrite H. reflexivity. Qed.

Lemma item_here_line_end (s tail : str) :
  line_end tail -> item_here (s ++ tail) = item_here s.
Proof.
  intros Ht.
  destruct s as [|c1 [|c2 [|c3 [|c4 s']]]];
    destruct Ht as [-> | [r ->]]; simpl; try reflexivity;
    rewrite ?andb_false_r; reflexivity.
Qed.

Lemma mentions_item_suffix (t : str) :
  mentions_item t = false ->
  forall pre suf, t = pre ++ suf -> item_here suf = false.
Proof.
  induction t as [|c t IH]; intros H pre suf E.
  - destruct pre; [|discriminate]. simpl in E. subst suf. reflexivity.
  - simpl in H. apply orb_false_iff in H. destruct H as [H1 H2].
    destruct pre as [|x pre].
    + simpl in E. subst suf. exact H1.
    + injection E as _ E. apply (IH H2 pre suf E).
Qed.

(** In a line [prefix ++ text], a character is one of the prefix or starts
    a suffix of the text. *)
Lemma split_in_line (pfx t pre : str) (x : char) (suf : str) :
  pfx ++ t = pre ++ x :: suf ->
  In x pfx \/ exists pre', t = pre' ++ x :: suf.
Proof.
  revert pre. induction pfx as [|p pfx IH]; intros pre E.
  - right. exists pre. exact E.
  - destruct pre as [|q pre].
    + injection E as -> _. left. left. reflexivity.
    + injection E as _ E. destruct (IH pre E) as [H | H]; auto.
      left. right. exact H.
Qed.

(** No item match starts inside a well-formed reason line. *)
Lemma item_misses_reason_line (n : N) (text tail pre : str) (x : char)
  (suf b : str) :
  (n <= 9)%N ->
  mentions_item text = false ->
  line_end tail ->
  line_text (ReasonLine n text) = pre ++ x :: suf ->
  match_here rt JLR.ITEM_LINE
    {| before := b; after := x :: suf ++ tail; groups := [] |} = None.
Proof.
  intros Hn Hm Ht E.
  destruct (match_here rt JLR.ITEM_LINE _) as [e|] eqn:Em; [|reflexivity].
  apply item_match_start in Em. simpl after in Em.
  change (x :: suf ++ tail) with ((x :: suf) ++ tail) in Em.
  rewrite (item_here_line_end _ _ Ht) in Em.
  unfold line_text in E. rewrite app_assoc in E.
  apply split_in_line in E. destruct E as [Hin | [pre' E]].
  - rewrite item_here_head in Em; [discriminate|].
    unfold reason_key in Hin.
    change (lit "reason_") with [114; 101; 97; 115; 111; 110; 95]%N in Hin.
    change (lit ": ") with [58; 32]%N in Hin. simpl in Hin.
    unfold is_i.
    repeat (destruct Hin as [<- | Hin]; [try reflexivity|]);
      [|contradiction].
    unfold digit_char.
    repeat (match goal with
            | |- context [(?a =? ?b)%N] =>
              destruct (N.eqb_spec a b); [lia|]
            end).
    reflexivity.
  - rewrite (mentions_item_suffix _ Hm pre' (x :: suf) E) in Em.
    discriminate.
Qed.

(** No reason match starts inside an item line. *)
Lemma reason_misses_item_line (n : N) (digits tail pre : str) (x : char)
  (suf b : str) :
  (n <= 9)%N ->
  Forall ascii_digit digits ->
  line_text (ItemLine n digits) = pre ++ x :: suf ->
  match_here rt JLR.REASON_LINE
    {| before := b; after := x :: suf ++ tail; groups := [] |} = None.
Proof.
  intros Hn Hd E.
  destruct (match_here rt JLR.REASON_LINE _) as [e|] eqn:Em;
    [|reflexivity].
  apply reason_match_start in Em. destruct Em as (c & a & Ea & Hc).
  simpl in Ea. injection Ea as <- _.
  unfold line_text in E. rewrite app_assoc in E.
  apply split_in_line in E. destruct E as [Hin | [pre' E]].
  - unfold item_key in Hin.
    change (lit "item_") with [105; 116; 101; 109; 95]%N in Hin.
    change (lit ": ") with [58; 32]%N in Hin. simpl in Hin.
    unfold digit_char in Hin.
    repeat (destruct Hin as [<- | Hin]; [lia|]). contradiction.
  - assert (Hx : ascii_digit x).
    { rewrite Forall_forall in Hd. apply Hd. rewrite E.
      apply in_elt. }
    destruct Hx. lia.
Qed.

End LineMatches.

(** ** What the fallback recovers from a reply of lines *)

Section Recovery.
Variable rt : runtime.

Import SpecRegex SpecLines SpecCoerce.

Lemma line_text_nonempty (l : line) : line_text l <> [].
Proof. destruct l; discriminate. Qed.

Lemma reason_scan (ls : list line) :
  Forall (well_formed rt) ls ->
  map captures (finditer rt JLR.REASON_LINE (reply_of ls))
  = flat_map (fun l => found (reason_groups rt l)) ls.
Proof.
  intros Hg. unfold finditer, reply_of.
  apply (scan_joined rt line line_text JLR.REASON_LINE (well_formed rt)
           (reason_groups rt)); [| | |exact Hg|lia].
  - intros l c tail b Hl Hc Ht. split; [apply line_text_nonempty|].
    destruct l as [n text | n digits]; [|discriminate].
    injection Hc as <-. destruct Hl as (H1 & H7 & Hnl & Hb & Hm).
    apply reason_line_match; auto. lia.
  - intros l tail pre x suf b Hl Hc Ht E.
    destruct l as [n text | n digits]; [discriminate|].
    destruct Hl as (H1 & H7 & Hne & Hd & Hf).
    apply (reason_misses_item_line rt n digits tail pre x suf b);
      auto. lia.
  - intros s e H. apply reason_match_start in H.
    destruct H as (c & a & E & Hc). exists c, a. split; [exact E|].
    destruct Hc as [-> | ->]; discriminate.
Qed.

Lemma item_scan (ls : list line) :
  Forall (well_formed rt) ls ->
  map captures (finditer rt JLR.ITEM_LINE (reply_of ls))
  = flat_map (fun l => found (item_groups l)) ls.
Proof.
  intros Hg. unfold finditer, reply_of.
  apply (scan_joined rt line line_text JLR.ITEM_LINE (well_formed rt)
           item_groups); [| | |exact Hg|lia].
  - intros l c tail b Hl Hc Ht. split; [apply line_text_nonempty|].
    destruct l as [n text | n digits]; [discriminate|].
    injection Hc as <-. destruct Hl as (H1 & H7 & Hne & Hd & Hf).
    apply item_line_match; auto. lia.
  - intros l tail pre x suf b Hl Hc Ht E.
    destruct l as [n text | n digits]; [|discriminate].
    destruct Hl as (H1 & H7 & Hnl & Hb & Hm).
    apply (item_misses_reason_line rt n text tail pre x suf b);
      auto. lia.
  - intros s e H. apply item_match_start in H.
    destruct (after s) as [|c a]; [discriminate|].
    exists c, a. split; [reflexivity|]. intros ->. discriminate.
Qed.

(** *** The dictionaries *)

Lemma key_eqb (stem : str) (n k : N) :
  str_eqb (stem ++ [digit_char n]) (stem ++ [digit_char k]) = (n =? k)%N.
Proof.
  destruct (N.eqb_spec n k) as [-> | Hne].
  - apply str_eqb_refl.
  - apply str_eqb_neq. intros E. apply app_inv_head in E.
    injection E as E. unfold digit_char in E. lia.
Qed.

Lemma strip_lstrip (p : char -> bool) (s : str) :
  strip_by p (lstrip_by p s) = strip_by p s.
Proof.
  unfold strip_by. do 3 f_equal.
  apply lstrip_by_fixed. intros c r E. eapply lstrip_by_head. exact E.
Qed.

Lemma reasons_of_lines (k : N) (X : option pyval) :
  forall ls ms acc o,
    map captures ms = flat_map (fun l => found (reason_groups rt l)) ls ->
    assoc_get acc (reason_key k)
    = match o with
      | Some text => Some (PStr (strip rt text))
      | None => X
      end ->
    assoc_get
      (fold_left
         (fun reasons m =>
            match groupn m 1, groupn m 2 with
            | Some g1, Some g2 =>
              assoc_set reasons (lit "reason_" ++ g1) (PStr (strip rt g2))
            | _, _ => reasons
            end) ms acc)
      (reason_key k)
    = match fold_left
              (fun acc l =>
                 match l with
                 | ReasonLine n text => if (n =? k)%N then Some text else acc
                 | ItemLine _ _ => acc
                 end) ls o with
      | Some text => Some (PStr (strip rt text))
      | None => X
      end.
Proof.
  induction ls as [|l ls IH]; intros ms acc o Hm Hacc.
  - simpl in Hm. apply map_eq_nil in Hm. subst ms. exact Hacc.
  - destruct l as [n text | n digits].
    + simpl in Hm. destruct ms as [|m ms]; [discriminate|].
      simpl in Hm. injection Hm as G1 G2 Hm.
      cbn [fold_left]. rewrite G1, G2. apply (IH ms _ _ Hm).
      rewrite assoc_get_set. unfold reason_key. rewrite key_eqb.
      destruct (n =? k)%N; [|exact Hacc].
      unfold strip. rewrite strip_lstrip. reflexivity.
    + simpl in Hm. cbn [fold_left]. apply (IH ms _ _ Hm). exact Hacc.
Qed.

Lemma strip_digits (ds : str) :
  Forall ascii_digit ds -> strip rt ds = ds.
Proof.
  intros H. unfold strip, strip_by.
  assert (H1 : lstrip_by (is_space rt) ds = ds).
  { apply lstrip_by_fixed. intros c r E. apply ascii_digit_not_space.
    rewrite Forall_forall in H. apply H. rewrite E. left. reflexivity. }
  rewrite H1.
  assert (H2 : lstrip_by (is_space rt) (rev ds) = rev ds).
  { apply lstrip_by_fixed. intros c r E. apply ascii_digit_not_space.
    rewrite Forall_forall in H. apply H. apply in_rev. rewrite E.
    left. reflexivity. }
  rewrite H2. apply rev_involutive.
Qed.

Lemma digits_value_number (ds : str) :
  Forall ascii_digit ds ->
  forall acc, digits_value_from rt acc ds = Some (number_of acc ds).
Proof.
  induction 1 as [|c ds [A B] Hds IH]; intros acc; simpl; [reflexivity|].
  unfold decimal_value.
  assert (E1 : (c <? 128)%N = true) by (apply N.ltb_lt; lia).
  assert (E2 : (48 <=? c)%N = true) by (apply N.leb_le; lia).
  assert (E3 : (c <=? 57)%N = true) by (apply N.leb_le; lia).
  rewrite E1, E2, E3. simpl. apply IH.
Qed.

Lemma fits_limit (n : nat) : fits rt n -> over_digit_limit rt n = false.
Proof.
  unfold fits, over_digit_limit. intros [-> | H]; [reflexivity|].
  apply andb_false_iff. right. apply Nat.ltb_ge. exact H.
Qed.

(** [int] of a sequence of the digits 0 to 9. *)
Lemma int_of_digits (ds : str) :
  ds <> [] -> Forall ascii_digit ds -> fits rt (length ds) ->
  int_of_str rt ds = Ok (Z.of_N (number_of 0 ds)).
Proof.
  intros Hne Hd Hf.
  rewrite (int_of_str_integer_text rt ds [] ds (number_of 0 ds)).
  - rewrite (fits_limit _ Hf). reflexivity.
  - apply strip_digits. exact Hd.
  - repeat split; auto. eapply Forall_impl; [|exact Hd].
    apply ascii_digit_decimal.
  - apply digits_value_number. exact Hd.
Qed.

Lemma items_of_lines_ok :
  forall ls ms acc,
    Forall (well_formed rt) ls ->
    map captures ms = flat_map (fun l => found (item_groups l)) ls ->
    exists items, JLR.salvage_items_from rt ms acc = Ok items.
Proof.
  induction ls as [|l ls IH]; intros ms acc Hg Hm.
  - simpl in Hm. apply map_eq_nil in Hm. subst ms. simpl. eauto.
  - inversion Hg as [|? ? Hl Hls]; subst.
    destruct l as [n text | n digits].
    + simpl in Hm. apply (IH ms acc Hls Hm).
    + simpl in Hm. destruct ms as [|m ms]; [discriminate|].
      simpl in Hm. injection Hm as G1 G2 Hm.
      destruct Hl as (H1 & H7 & Hne & Hd & Hf).
      cbn [JLR.salvage_items_from].
      rewrite G1, G2, (int_of_digits digits Hne Hd Hf). cbn [rbind].
      apply (IH ms _ Hls Hm).
Qed.

Lemma items_of_lines (k : N) (X : option pyval) :
  forall ls ms acc o items,
    Forall (well_formed rt) ls ->
    map captures ms = flat_map (fun l => found (item_groups l)) ls ->
    JLR.salvage_items_from rt ms acc = Ok items ->
    assoc_get acc (item_key k)
    = match o with
      | Some digits => Some (PInt (Z.of_N (number_of 0 digits)))
      | None => X
      end ->
    assoc_get items (item_key k)
    = match fold_left
              (fun acc l =>
                 match l with
                 | ItemLine n digits =>
                   if (n =? k)%N then Some digits else acc
                 | ReasonLine _ _ => acc
                 end) ls o with
      | Some digits => Some (PInt (Z.of_N (number_of 0 digits)))
      | None => X
      end.
Proof.
  induction ls as [|l ls IH]; intros ms acc o items Hg Hm Hs Hacc.
  - simpl in Hm. apply map_eq_nil in Hm. subst ms. simpl in Hs.
    injection Hs as <-. exact Hacc.
  - inversion Hg as [|? ? Hl Hls]; subst.
    destruct l as [n text | n digits].
    + simpl in Hm. cbn [fold_left].
      apply (IH ms acc o items Hls Hm Hs Hacc).
    + simpl in Hm. destruct ms as [|m ms]; [discriminate|].
      simpl in Hm. injection Hm as G1 G2 Hm.
      destruct Hl as (H1 & H7 & Hne & Hd & Hf).
      cbn [JLR.salvage_items_from] in Hs.
      rewrite G1, G2, (int_of_digits digits Hne Hd Hf) in Hs.
      cbn [rbind] in Hs. cbn [fold_left].
      apply (IH ms _ _ items Hls Hm Hs).
      rewrite assoc_get_set. unfold item_key. rewrite key_eqb.
      destruct (n =? k)%N; [reflexivity | exact Hacc].
Qed.

Lemma reason_key_listed (k : N) :
  (1 <= k)%N -> (k <= 7)%N -> In (reason_key k) JLR.REASON_KEYS.
Proof.
  intros H1 H7.
  assert (H : (k = 1 \/ k = 2 \/ k = 3 \/ k = 4 \/ k = 5 \/ k = 6
               \/ k = 7)%N) by lia.
  destruct H as [-> | [-> | [-> | [-> | [-> | [-> | ->]]]]]]; vm_compute;
    repeat ((left; reflexivity) || right).
Qed.

Lemma item_key_listed (k : N) :
  (1 <= k)%N -> (k <= 7)%N -> In (item_key k) JLR.ITEM_KEYS.
Proof.
  intros H1 H7.
  assert (H : (k = 1 \/ k = 2 \/ k = 3 \/ k = 4 \/ k = 5 \/ k = 6
               \/ k = 7)%N) by lia.
  destruct H as [-> | [-> | [-> | [-> | [-> | [-> | ->]]]]]]; vm_compute;
    repeat ((left; reflexivity) || right).
Qed.

(** From a reply of well-formed lines the fallback recovers, for each of
    the fields 1 to 7, the trimmed text of the last reason line and the
    integer of the last item line for it. *)
Lemma text_attempt_lines (ls : list line) (k : N) :
  Forall (well_formed rt) ls ->
  (1 <= k)%N -> (k <= 7)%N ->
  dict_get (JLR.text_attempt rt (Content (Some (reply_of ls))))
           (reason_key k)
  = recovered_reason rt ls k
  /\ dict_get (JLR.text_attempt rt (Content (Some (reply_of ls))))
              (item_key k)
     = recovered_item ls k.
Proof.
  intros Hg H1 H7. unfold JLR.text_attempt, JLR.salvage_items.
  destruct (items_of_lines_ok ls (finditer rt JLR.ITEM_LINE (reply_of ls))
              [] Hg (item_scan ls Hg)) as [items Hi].
  rewrite Hi. split.
  - rewrite (combine_fields_reason _ _ _ (reason_key_listed k H1 H7)).
    unfold JLR.salvage_reasons.
    rewrite (reasons_of_lines k None ls _ [] None (reason_scan ls Hg)
               eq_refl).
    unfold recovered_reason, recovered_text, told_reason.
    destruct (fold_left _ ls None); reflexivity.
  - rewrite (combine_fields_item _ _ _ (item_key_listed k H1 H7)).
    unfold dict_get.
    rewrite (items_of_lines k None ls _ [] None items Hg (item_scan ls Hg)
               Hi eq_refl).
    unfold recovered_item, told_item.
    destruct (fold_left _ ls None); reflexivity.
Qed.

End Recovery.

(** ** One participant of the study *)

Section StudyOne.
Variable rt : runtime.
Variable svc : service.
Variable N_TARGET : nat.

Import SpecFallback SpecLines.

Lemma study_one_run (i : nat) (prof : JLR.profile) (qlang : str)
  (log log1 : list request) (data : list (str * pyval)) :
  nth_error (JLR.design rt N_TARGET) (i - 1) = Some qlang ->
  JLR.chat_completion_json rt svc
    (study_messages (Spec.rendered qlang prof)) log = (Ok data, log1) ->
  JLR.study_one rt svc N_TARGET i prof log
  = (match JLR.coerce_items rt JLR.ITEM_KEYS data [] with
     | Ok items => Ok (row_of rt i prof qlang data items)
     | Raise e => Raise e
     end, log1).
Proof.
  intros Hq Hc. unfold JLR.study_one. rewrite Hq.
  unfold bind at 1. unfold lift at 1.
  rewrite build_questionnaire_render. fold (Spec.rendered qlang prof).
  unfold bind at 1. fold (study_messages (Spec.rendered qlang prof)).
  rewrite Hc. unfold bind, lift, ret.
  destruct (JLR.coerce_items rt JLR.ITEM_KEYS data []); reflexivity.
Qed.

Lemma study_one_no_design (i : nat) (prof : JLR.profile)
  (log : list request) :
  nth_error (JLR.design rt N_TARGET) (i - 1) = None ->
  JLR.study_one rt svc N_TARGET i prof log = (Raise IndexError, log).
Proof. intros H. unfold JLR.study_one. rewrite H. reflexivity. Qed.

(** A row, once emitted, carries its index and its profile, and one or two
    requests were made for it. *)
Lemma study_one_ok (i : nat) (prof : JLR.profile)
  (log log' : list request) (row : JLR.row) :
  JLR.study_one rt svc N_TARGET i prof log = (Ok row, log') ->
  JLR.participant_id row = i
  /\ profile_of row = prof
  /\ exists qlang,
       nth_error (JLR.design rt N_TARGET) (i - 1) = Some qlang
       /\ let m := study_messages (Spec.rendered qlang prof) in
          log' = log ++ [json_request m]
          \/ log' = log ++ [json_request m; text_request m].
Proof.
  intros H.
  destruct (nth_error (JLR.design rt N_TARGET) (i - 1)) as [qlang|] eqn:Eq.
  - set (m := study_messages (Spec.rendered qlang prof)).
    assert (Hlog : forall data log1,
              JLR.chat_completion_json rt svc m log = (Ok data, log1) ->
              log1 = log ++ [json_request m]
              \/ log1 = log ++ [json_request m; text_request m]).
    { intros data log1 Hc.
      destruct (JLR.json_attempt rt (svc (length log) (json_request m)))
        as [parsed|] eqn:E.
      - rewrite (chat_direct rt svc m log parsed E) in Hc.
        injection Hc as _ <-. left. reflexivity.
      - rewrite (chat_fallback rt svc m log E) in Hc.
        injection Hc as _ <-. right. reflexivity. }
    destruct (chat_never_raises rt svc m log) as (data & log1 & Hc).
    rewrite (study_one_run i prof qlang log log1 data Eq Hc) in H.
    destruct (JLR.coerce_items rt JLR.ITEM_KEYS data []) as [items|e];
      [|discriminate].
    injection H as <- <-. destruct prof as [a ge gz].
    repeat split. exists qlang. split; [reflexivity|].
    apply (Hlog data log1 Hc).
  - rewrite (study_one_no_design i prof log Eq) in H. discriminate.
Qed.

Lemma assoc_get_keyed {V} (f : str -> V) (k : str) :
  forall keys,
    In k keys -> assoc_get (map (fun rk => (rk, f rk)) keys) k = Some (f k).
Proof.
  induction keys as [|x keys IH]; intros H; [contradiction|].
  simpl. destruct (str_eqb x k) eqn:E.
  - apply str_eqb_eq in E. subst x. reflexivity.
  - destruct H as [-> | H]; [rewrite str_eqb_refl in E; discriminate|].
    apply IH. exact H.
Qed.

Lemma strip_recovered (ls : list line) (k : N) :
  strip rt (recovered_text rt ls k) = recovered_text rt ls k.
Proof.
  unfold recovered_text. destruct (told_reason ls k); [|reflexivity].
  apply strip_by_idempotent.
Qed.

Lemma coerce_recovered (ls : list line) (k : N) :
  JLR.coerce_item rt (recovered_item ls k) = Ok (recovered_item ls k).
Proof. unfold recovered_item. destruct (told_item ls k); reflexivity. Qed.

(** When the JSON-mode attempt is unusable the row is emitted all the same,
    after exactly one fallback request with the same messages; its fields
    are the defaults when that request fails, and those given by the lines
    of the reply when the reply consists of well-formed lines. *)
Lemma study_one_fallback (i : nat) (prof : JLR.profile) (qlang : str)
  (log : list request) :
  nth_error (JLR.design rt N_TARGET) (i - 1) = Some qlang ->
  let m := study_messages (Spec.rendered qlang prof) in
  json_mode_unusable rt (svc (length log) (json_request m)) ->
  exists row,
    JLR.study_one rt svc N_TARGET i prof log
    = (Ok row, log ++ [json_request m; text_request m])
    /\ JLR.participant_id row = i
    /\ profile_of row = prof
    /\ (text_mode_fails (svc (S (length log)) (text_request m)) ->
        JLR.reason_fields row = default_reasons
        /\ JLR.item_fields row = default_items)
    /\ (forall ls,
          svc (S (length log)) (text_request m)
          = Content (Some (reply_of ls)) ->
          Forall (well_formed rt) ls ->
          forall k, (1 <= k)%N -> (k <= 7)%N ->
            assoc_get (JLR.reason_fields row) (reason_key k)
            = Some (recovered_text rt ls k)
            /\ dict_get (JLR.item_fields row) (item_key k)
               = recovered_item ls k).
Proof.
  intros Hq m Hu. apply json_attempt_none in Hu.
  pose proof (chat_fallback rt svc m log Hu) as Hc.
  rewrite (study_one_run i prof qlang log _ _ Hq Hc).
  destruct (text_attempt_coerces rt
              (svc (S (length log)) (text_request m))) as [items Hi].
  rewrite Hi. eexists. split; [reflexivity|].
  split; [reflexivity|]. split; [destruct prof; reflexivity|]. split.
  - intros Hf. rewrite (text_attempt_failed rt _ Hf) in Hi |- *.
    split; [reflexivity|].
    simpl JLR.item_fields. injection Hi as <-. reflexivity.
  - intros ls Ho Hg k H1 H7. rewrite Ho in Hi |- *.
    destruct (text_attempt_lines rt ls k Hg H1 H7) as [Hr Hit].
    unfold row_of. cbn [JLR.reason_fields JLR.item_fields]. split.
    + rewrite (assoc_get_keyed
                 (fun rk => JLR.reason_of rt
                    (dict_get (JLR.text_attempt rt
                                 (Content (Some (reply_of ls)))) rk))
                 (reason_key k) JLR.REASON_KEYS
                 (reason_key_listed k H1 H7)).
      cbv beta. rewrite Hr. unfold recovered_reason.
      cbn [JLR.reason_of]. rewrite strip_recovered. reflexivity.
    + destruct (coerce_items_fields rt _ _ _ _ Hi) as [Hf _].
      specialize (Hf (item_key k) (item_key_listed k H1 H7)).
      rewrite Hit, coerce_recovered in Hf. injection Hf as <-.
      reflexivity.
Qed.

End StudyOne.

(** ** Row order in the multi-condition pipeline *)

Section RowsS4C.
Variable rt : runtime.
Variable svc : service.

Import SpecRows.

Lemma get_gpt_response_run (prompt : str) (log : list request) :
  S4C.get_gpt_response rt svc prompt log
  = (Ok (reply_text rt (svc (length log) (respondent_request prompt))),
     log ++ [respondent_request prompt]).
Proof.
  unfold S4C.get_gpt_response, bind. rewrite call_run.
  fold (respondent_request prompt).
  destruct (svc (length log) (respondent_request prompt)) as [|[t|]];
    reflexivity.
Qed.

Lemma simulate_one_run (c : S4C.condition) (d : list (str * pyval))
  (log : list request) :
  exists r,
    S4C.simulate_one rt svc c (PDict d) log
    = (Ok r, log ++ [row_request rt r])
    /\ key r = key_of c d
    /\ S4C.response r = reply_text rt (svc (length log) (row_request rt r))
    /\ S4C.score r = S4C.extract_score rt (S4C.response r).
Proof.
  destruct c as [[sl nl] co]. unfold S4C.simulate_one.
  unfold S4C.profile_get, lift, bind at 1 2.
  unfold bind. rewrite get_gpt_response_run. unfold ret.
  match goal with
  | |- exists r, (Ok ?x, _) = _ /\ _ => exists x
  end.
  split; [reflexivity|]. repeat split.
Qed.

Lemma answered_app (base : nat) (r1 r2 : list S4C.row) :
  answered rt svc base r1 ->
  answered rt svc (base + length r1) r2 ->
  answered rt svc base (r1 ++ r2).
Proof.
  revert base. induction r1 as [|r r1 IH]; intros base H1 H2; simpl in *.
  - rewrite Nat.add_0_r in H2. exact H2.
  - destruct H1 as (A & B & C). repeat split; auto.
    apply IH; [exact C|]. rewrite <- Nat.add_succ_comm in H2. exact H2.
Qed.

Lemma s4c_for_profiles (c : S4C.condition) :
  forall ds acc log,
  exists rows,
    S4C.for_profiles rt svc c (map PDict ds) acc log
    = (Ok (acc ++ rows), log ++ map (row_request rt) rows)
    /\ map key rows = map (key_of c) ds
    /\ answered rt svc (length log) rows.
Proof.
  induction ds as [|d ds IH]; intros acc log; simpl.
  - exists []. rewrite !app_nil_r. repeat split; reflexivity.
  - destruct (simulate_one_run c d log) as (r & Hr & Hk & Hresp & Hs).
    unfold bind. rewrite Hr.
    destruct (IH (acc ++ [r]) (log ++ [row_request rt r]))
      as (rows & Hrows & Hkeys & Hans).
    exists (r :: rows). rewrite Hrows. simpl.
    rewrite <- !app_assoc. simpl. split; [reflexivity|].
    split; [f_equal; assumption|].
    split; [exact Hresp|]. split; [exact Hs|].
    rewrite length_snoc in Hans. exact Hans.
Qed.

Lemma s4c_for_conditions (ds : list (list (str * pyval))) :
  forall cs acc log,
  exists rows,
    S4C.for_conditions rt svc cs (PList (map PDict ds)) acc log
    = (Ok (acc ++ rows), log ++ map (row_request rt) rows)
    /\ map key rows = iteration_order cs ds
    /\ answered rt svc (length log) rows.
Proof.
  induction cs as [|c cs IH]; intros acc log; simpl.
  - exists []. rewrite !app_nil_r. repeat split; reflexivity.
  - unfold bind at 1. unfold lift. simpl py_iter. cbv iota beta.
    destruct (s4c_for_profiles c ds acc log) as (r1 & H1 & K1 & A1).
    unfold bind at 1. rewrite H1.
    destruct (IH (acc ++ r1) (log ++ map (row_request rt) r1))
      as (r2 & H2 & K2 & A2).
    exists (r1 ++ r2). rewrite H2.
    rewrite map_app, <- !app_assoc. split; [reflexivity|].
    split.
    + rewrite map_app. unfold iteration_order in *. simpl.
      rewrite K1, K2. reflexivity.
    + apply answered_app; [exact A1|].
      rewrite length_app, length_map in A2. exact A2.
Qed.

Lemma generate_profiles_run (log : list request) :
  exists v,
    S4C.generate_profiles rt svc log = (Ok v, log ++ [profiles_request]).
Proof.
  unfold S4C.generate_profiles, bind. rewrite call_run.
  fold profiles_request.
  destruct (svc (length log) profiles_request) as [|[t|]];
    eexists; reflexivity.
Qed.

(** With a non-empty list of profile objects the simulation writes one row
    per condition and profile, condition-major. *)
Lemma run_simulation_order (ds : list (list (str * pyval)))
  (log : list request) :
  ds <> [] ->
  fst (S4C.generate_profiles rt svc log) = Ok (PList (map PDict ds)) ->
  exists rows,
    S4C.run_simulation rt svc log
    = (Ok (Some rows),
       log ++ profiles_request :: map (row_request rt) rows)
    /\ map key rows = iteration_order S4C.conditions ds
    /\ answered rt svc (S (length log)) rows.
Proof.
  intros Hne Hg. destruct (generate_profiles_run log) as [v Hv].
  rewrite Hv in Hg. simpl in Hg. injection Hg as ->.
  unfold S4C.run_simulation, bind at 1. rewrite Hv.
  replace (negb (py_truthy (PList (map PDict ds)))) with false
    by (destruct ds; [contradiction | reflexivity]).
  destruct (s4c_for_conditions ds S4C.conditions []
              (log ++ [profiles_request])) as (rows & H & K & A).
  unfold bind. rewrite H. unfold ret. exists rows.
  rewrite <- app_assoc. simpl. split; [reflexivity|].
  split; [exact K|]. rewrite length_snoc in A. exact A.
Qed.

End RowsS4C.

(** ** Row order in the single-condition pipeline *)

Section RowsJLR.
Variable rt : runtime.
Variable svc : service.
Variable N_TARGET : nat.

Import SpecFallback SpecStudy SpecLines.

Lemma build_profiles_order (df : JLR.dataframe) (ca cg : str) :
  forall recs acc out,
    JLR.build_profiles rt df ca cg recs acc = Ok out ->
    exists new,
      out = acc ++ new
      /\ Forall2 (profile_of_record rt df ca cg) recs new.
Proof.
  induction recs as [|record recs IH]; intros acc out H; simpl in H.
  - injection H as <-. exists []. rewrite app_nil_r. split; constructor.
  - destruct (JLR.cell_at df ca record) as [a|] eqn:Ea; [|discriminate].
    destruct (JLR.cell_at df cg record) as [g|] eqn:Eg; [|discriminate].
    destruct (JLR.py_int rt a) as [age_i|e] eqn:Ei; simpl in H;
      [|discriminate].
    destruct (JLR.map_gender g) as [[g_en g_zh]|e] eqn:Em; simpl in H;
      [|discriminate].
    apply IH in H. destruct H as (new & -> & F).
    eexists (_ :: new). rewrite <- app_assoc. split; [reflexivity|].
    constructor; [|exact F]. exists a, g. simpl. auto.
Qed.

(** The profiles come in the order of the records, one per record. *)
Lemma load_profiles_order (df : JLR.dataframe) (n : nat)
  (profiles : list JLR.profile) :
  JLR.load_profiles_from_xlsx rt df n = Ok profiles ->
  length (JLR.records df) = n
  /\ exists ca cg,
       Forall2 (profile_of_record rt df ca cg) (JLR.records df) profiles.
Proof.
  unfold JLR.load_profiles_from_xlsx.
  destruct (JLR.pick_col rt df _) as [ca|]; [|discriminate].
  destruct (JLR.pick_col rt df _) as [cg|]; [|discriminate].
  destruct (_ || _); [discriminate|].
  destruct (length (JLR.records df) =? n) eqn:En; [|discriminate].
  simpl negb. cbv iota.
  destruct (_ || _); [discriminate|].
  intros H. apply build_profiles_order in H.
  destruct H as (new & -> & F). apply Nat.eqb_eq in En.
  split; [exact En|]. exists ca, cg. exact F.
Qed.

(** Rows are appended to the rows already there, one per profile, numbered
    from [i] on, each after one or two requests. *)
Lemma jlr_for_profiles_ok :
  forall ps i acc log out log',
    JLR.for_profiles rt svc N_TARGET i ps acc log = (Ok out, log') ->
    exists new extra,
      out = acc ++ new
      /\ log' = log ++ extra
      /\ map JLR.participant_id new = seq i (length ps)
      /\ map profile_of new = ps
      /\ length ps <= length extra <= 2 * length ps.
Proof.
  induction ps as [|p ps IH]; intros i acc log out log' H; simpl in H.
  - injection H as <- <-. exists [], []. rewrite !app_nil_r.
    repeat split; simpl; lia.
  - unfold bind in H.
    destruct (JLR.study_one rt svc N_TARGET i p log) as [[r|e] log1] eqn:E;
      [|discriminate].
    apply study_one_ok in E. destruct E as (Hid & Hp & qlang & _ & Hlog).
    apply IH in H. destruct H as (new & extra & -> & -> & Hids & Hps & Hn).
    cbv zeta in Hlog.
    remember (study_messages (Spec.rendered qlang p)) as m eqn:Em. clear Em.
    exists (r :: new).
    assert (Hout : (acc ++ [r]) ++ new = acc ++ r :: new)
      by (rewrite <- app_assoc; reflexivity).
    assert (Hmap : map JLR.participant_id (r :: new) = seq i (length (p :: ps)))
      by (simpl; rewrite Hid, Hids; reflexivity).
    assert (Hprof : map profile_of (r :: new) = p :: ps)
      by (simpl; rewrite Hp, Hps; reflexivity).
    destruct Hlog as [-> | ->].
    + exists ([json_request m] ++ extra).
      split; [exact Hout|]. split; [rewrite <- app_assoc; reflexivity|].
      split; [exact Hmap|]. split; [exact Hprof|].
      rewrite length_app. simpl. lia.
    + exists ([json_request m; text_request m] ++ extra).
      split; [exact Hout|]. split; [rewrite <- app_assoc; reflexivity|].
      split; [exact Hmap|]. split; [exact Hprof|].
      rewrite length_app. simpl. lia.
Qed.

(** With every JSON-mode attempt unusable, the loop still emits a row for
    each profile, after two requests each. *)
Lemma jlr_for_profiles_fallback :
  (forall n m, json_mode_unusable rt (svc n (json_request m))) ->
  forall ps i acc log,
    1 <= i ->
    i - 1 + length ps <= length (JLR.design rt N_TARGET) ->
    exists new log',
      JLR.for_profiles rt svc N_TARGET i ps acc log = (Ok (acc ++ new), log')
      /\ length new = length ps
      /\ length log' = length log + 2 * length ps.
Proof.
  intros Hu. induction ps as [|p ps IH]; intros i acc log Hi Hd; simpl.
  - exists [], log. rewrite app_nil_r. repeat split; simpl; lia.
  - simpl in Hd.
    destruct (nth_error (JLR.design rt N_TARGET) (i - 1)) as [qlang|] eqn:Eq.
    2:{ apply nth_error_None in Eq. lia. }
    destruct (study_one_fallback rt svc N_TARGET i p qlang log Eq (Hu _ _))
      as (r & Hr & _).
    remember (study_messages (Spec.rendered qlang p)) as m eqn:Em. clear Em.
    unfold bind. rewrite Hr.
    destruct (IH (S i) (acc ++ [r])
                 (log ++ [json_request m; text_request m]))
      as (new & log' & H & Hn & Hl); [lia | simpl; lia |].
    exists (r :: new), log'. rewrite H, <- app_assoc.
    split; [reflexivity|]. split; [simpl; lia|].
    rewrite Hl, length_app. simpl. lia.
Qed.

Lemma run_study_ok (df : JLR.dataframe) (log log' : list request)
  (rows : list JLR.row) :
  JLR.run_study rt svc N_TARGET df log = (Ok rows, log') ->
  exists profiles extra,
    JLR.load_profiles_from_xlsx rt df N_TARGET = Ok profiles
    /\ log' = log ++ extra
    /\ map JLR.participant_id rows = seq 1 (length rows)
    /\ map profile_of rows = profiles
    /\ length rows <= length extra <= 2 * length rows.
Proof.
  unfold JLR.run_study, bind, lift.
  destruct (JLR.load_profiles_from_xlsx rt df N_TARGET) as [ps|e];
    [|discriminate].
  intros H. apply jlr_for_profiles_ok in H.
  destruct H as (new & extra & -> & -> & Hids & Hps & Hn).
  simpl app. exists ps, extra.
  assert (Hlen : length new = length ps)
    by (rewrite <- Hps, length_map; reflexivity).
  rewrite Hlen. repeat split; auto; lia.
Qed.

Lemma run_study_survives (df : JLR.dataframe) (log : list request)
  (profiles : list JLR.profile) :
  (forall n m, json_mode_unusable rt (svc n (json_request m))) ->
  JLR.load_profiles_from_xlsx rt df N_TARGET = Ok profiles ->
  length profiles <= length (JLR.design rt N_TARGET) ->
  exists rows log',
    JLR.run_study rt svc N_TARGET df log = (Ok rows, log')
    /\ length rows = length profiles
    /\ length log' = length log + 2 * length profiles.
Proof.
  intros Hu Hl Hd. unfold JLR.run_study, bind, lift. rewrite Hl.
  destruct (jlr_for_profiles_fallback Hu profiles 1 [] log)
    as (new & log' & H & Hn & Hlog); [lia | simpl; lia |].
  exists new, log'. rewrite H. auto.
Qed.

(** C5. The structured call never raises.  When the JSON-mode attempt is
    unusable (the call fails, or the parsed reply has no key starting with
    [reason_] or [item_]), exactly one more request is made, with the same
    messages and without the JSON format.  When that call fails too the
    result is empty.  When its reply consists of lines of the forms
    [reason_<n>: <text>] and [item_<n>: <integer>] (the number from 1 to
    7; a text that is not blank and does not contain the word item; an
    integer of the digits 0 to 9, within what the interpreter converts),
    the result gives, for each field 1 to 7, the trimmed text of the last
    line for that reason (the empty text when there is none) and the
    integer of the last line for that item (null when there is none).  The
    row of the participant is emitted in either case, with these fields, or
    with empty reasons and null items when nothing was recovered, and the
    run goes on to the next participant. *)
Theorem structured_call_falls_back_once
  (msgs : list (str * str)) (log : list request) :
  (exists data log',
     JLR.chat_completion_json rt svc msgs log = (Ok data, log'))
  /\ (json_mode_unusable rt (svc (length log) (json_request msgs)) ->
      let o2 := svc (S (length log)) (text_request msgs) in
      exists data,
        JLR.chat_completion_json rt svc msgs log
        = (Ok data, log ++ [json_request msgs; text_request msgs])
        /\ (text_mode_fails o2 -> data = [])
        /\ (forall ls,
              o2 = Content (Some (reply_of ls)) ->
              Forall (well_formed rt) ls ->
              forall k, (1 <= k)%N -> (k <= 7)%N ->
                dict_get data (reason_key k) = recovered_reason rt ls k
                /\ dict_get data (item_key k) = recovered_item ls k))
  /\ (forall i prof qlang,
        nth_error (JLR.design rt N_TARGET) (i - 1) = Some qlang ->
        let m := study_messages (Spec.rendered qlang prof) in
        json_mode_unusable rt (svc (length log) (json_request m)) ->
        exists row,
          JLR.study_one rt svc N_TARGET i prof log
          = (Ok row, log ++ [json_request m; text_request m])
          /\ JLR.participant_id row = i
          /\ profile_of row = prof
          /\ (text_mode_fails (svc (S (length log)) (text_request m)) ->
              JLR.reason_fields row = default_reasons
              /\ JLR.item_fields row = default_items)
          /\ (forall ls,
                svc (S (length log)) (text_request m)
                = Content (Some (reply_of ls)) ->
                Forall (well_formed rt) ls ->
                forall k, (1 <= k)%N -> (k <= 7)%N ->
                  assoc_get (JLR.reason_fields row) (reason_key k)
                  = Some (recovered_text rt ls k)
                  /\ dict_get (JLR.item_fields row) (item_key k)
                     = recovered_item ls k))
  /\ (forall df profiles,
        (forall n m, json_mode_unusable rt (svc n (json_request m))) ->
        JLR.load_profiles_from_xlsx rt df N_TARGET = Ok profiles ->
        length profiles <= length (JLR.design rt N_TARGET) ->
        exists rows log',
          JLR.run_study rt svc N_TARGET df log = (Ok rows, log')
          /\ length rows = length profiles
          /\ length log' = length log + 2 * length profiles).
Proof.
  split; [apply chat_never_raises|]. split.
  { intros Hu o2. exists (JLR.text_attempt rt o2). split.
    - apply chat_fallback. apply json_attempt_none. exact Hu.
    - split; [apply text_attempt_failed|].
      intros ls Ho Hg k H1 H7. rewrite Ho.
      apply (text_attempt_lines rt ls k Hg H1 H7). }
  split.
  { intros i prof qlang Hq m Hu.
    apply (study_one_fallback rt svc N_TARGET i prof qlang log Hq Hu). }
  intros df profiles Hu Hl Hd.
  apply (run_study_survives df log profiles Hu Hl Hd).
Qed.

End RowsJLR.

(** The plain lines of the fixture are a reply of two well-formed lines. *)
Lemma plain_lines_well_formed :
  Fixture.plain_lines
  = SpecLines.reply_of
      [SpecLines.ReasonLine 1 (lit "I care"); SpecLines.ItemLine 1 (lit "5")]
  /\ Forall (SpecLines.well_formed ascii_runtime)
       [SpecLines.ReasonLine 1 (lit "I care"); SpecLines.ItemLine 1 (lit "5")].
Proof.
  split; [reflexivity|].
  constructor; [|constructor; [|constructor]].
  - split; [lia|]. split; [lia|]. split.
    + simpl. intros H.
      repeat (destruct H as [H | H]; [discriminate H|]). exact H.
    + split; [|reflexivity].
      exists (ch "I"). split; [left; reflexivity | reflexivity].
  - split; [lia|]. split; [lia|]. split; [discriminate|]. split.
    + constructor; [|constructor]. split; simpl; lia.
    + right. simpl. lia.
Qed.

Lemma structured_call_falls_back_once_witness :
  SpecFallback.json_mode_unusable ascii_runtime
    (Fixture.text_only_service 0
       (SpecFallback.json_request [(lit "user", lit "hello")]))
  /\ exists data,
       JLR.chat_completion_json ascii_runtime Fixture.text_only_service
         [(lit "user", lit "hello")] []
       = (Ok data,
          [SpecFallback.json_request [(lit "user", lit "hello")];
           SpecFallback.text_request [(lit "user", lit "hello")]])
       /\ dict_get data (SpecLines.reason_key 1) = PStr (lit "I care")
       /\ dict_get data (SpecLines.item_key 1) = PInt 5.
Proof.
  assert (H : SpecFallback.json_mode_unusable ascii_runtime
                (Fixture.text_only_service 0
                   (SpecFallback.json_request [(lit "user", lit "hello")]))).
  { left. reflexivity. }
  split; [exact H|].
  destruct (structured_call_falls_back_once ascii_runtime
              Fixture.text_only_service 2 [(lit "user", lit "hello")] [])
    as (_ & R & _).
  destruct (R H) as (data & Hc & _ & Hl).
  exists data. split; [exact Hc|].
  destruct plain_lines_well_formed as [E Hg].
  assert (H1 : (1 <= 1)%N) by lia.
  assert (H7 : (1 <= 7)%N) by lia.
  apply (Hl _ (f_equal (fun t => Content (Some t)) E) Hg 1%N H1 H7).
Defined.

(** The fields recovered from the plain lines of the fixture. *)
Lemma plain_lines_recovered :
  JLR.text_attempt ascii_runtime (Content (Some Fixture.plain_lines))
  = [ (lit "reason_1", PStr (lit "I care")); (lit "item_1", PInt 5);
      (lit "reason_2", PStr []); (lit "item_2", PNone);
      (lit "reason_3", PStr []); (lit "item_3", PNone);
      (lit "reason_4", PStr []); (lit "item_4", PNone);
      (lit "reason_5", PStr []); (lit "item_5", PNone);
      (lit "reason_6", PStr []); (lit "item_6", PNone);
      (lit "reason_7", PStr []); (lit "item_7", PNone) ].
Proof. vm_compute. reflexivity. Qed.

(** Why the lines have to be well formed: the item pattern also matches
    inside the text of a reason, and after a blank reason the reason
    pattern goes on into the next line. *)
Lemma item_inside_reason_text :
  JLR.text_attempt ascii_runtime
    (Content (Some (lit "reason_1: see item_3: 4 here")))
  = [ (lit "reason_1", PStr (lit "see item_3: 4 here"));
      (lit "item_1", PNone);
      (lit "reason_2", PStr []); (lit "item_2", PNone);
      (lit "reason_3", PStr []); (lit "item_3", PInt 4);
      (lit "reason_4", PStr []); (lit "item_4", PNone);
      (lit "reason_5", PStr []); (lit "item_5", PNone);
      (lit "reason_6", PStr []); (lit "item_6", PNone);
      (lit "reason_7", PStr []); (lit "item_7", PNone) ].
Proof. vm_compute. reflexivity. Qed.

Lemma blank_reason_takes_next_line :
  dict_get
    (JLR.text_attempt ascii_runtime
       (Content (Some (lit "reason_1: " ++ nl ++ lit "item_2: 5"))))
    (lit "reason_1")
  = PStr (lit "item_2: 5").
Proof. vm_compute. reflexivity. Qed.

(** ** Row order, both pipelines *)

Section RowOrder.
Variable rt : runtime.
Variable svc : service.
Variable N_TARGET : nat.

Import SpecRows SpecFallback SpecStudy.

(** C9 (amended). Rows are appended, and so written, in iteration order.
    In the multi-condition pipeline the rows follow the fixed condition
    list, and within a condition the profiles, one row for each pair; after
    the request for the profiles there is one request per row, in row
    order, and each row holds the reply to its own request.  In the
    single-condition pipeline there is one row per profile, in the order of
    the records of the sheet, numbered 1, 2, ... by [participant_id]; one
    or two requests are made for each row (the JSON-mode attempt and, when
    needed, its fallback).  Nothing is reordered, merged or overwritten. *)
Theorem rows_in_iteration_order :
  (forall ds log,
     ds <> [] ->
     fst (S4C.generate_profiles rt svc log) = Ok (PList (map PDict ds)) ->
     exists rows,
       S4C.run_simulation rt svc log
       = (Ok (Some rows),
          log ++ profiles_request :: map (row_request rt) rows)
       /\ map key rows = iteration_order S4C.conditions ds
       /\ answered rt svc (S (length log)) rows)
  /\ (forall df log rows log',
        JLR.run_study rt svc N_TARGET df log = (Ok rows, log') ->
        exists profiles extra,
          JLR.load_profiles_from_xlsx rt df N_TARGET = Ok profiles
          /\ (exists ca cg,
                Forall2 (profile_of_record rt df ca cg)
                        (JLR.records df) profiles)
          /\ map profile_of rows = profiles
          /\ map JLR.participant_id rows = seq 1 (length rows)
          /\ log' = log ++ extra
          /\ length rows <= length extra <= 2 * length rows).
Proof.
  split.
  - intros ds log Hne Hg. apply run_simulation_order; assumption.
  - intros df log rows log' H.
    destruct (run_study_ok rt svc N_TARGET df log log' rows H)
      as (ps & extra & Hl & Hlog & Hids & Hps & Hn).
    exists ps, extra. split; [exact Hl|].
    split; [apply (load_profiles_order rt df N_TARGET ps Hl)|].
    auto.
Qed.

End RowOrder.

(** The four-profile fixture: 32 rows in condition-major order after 33
    requests. *)
Lemma rows_in_iteration_order_witness :
  Fixture.four_profiles <> []
  /\ fst (S4C.generate_profiles Fixture.profile_runtime
            Fixture.scripted_service [])
     = Ok (PList (map PDict Fixture.four_profiles))
  /\ exists rows,
       S4C.run_simulation Fixture.profile_runtime Fixture.scripted_service []
       = (Ok (Some rows),
          [] ++ SpecRows.profiles_request
             :: map (SpecRows.row_request Fixture.profile_runtime) rows)
       /\ map SpecRows.key rows
          = SpecRows.iteration_order S4C.conditions Fixture.four_profiles
       /\ SpecRows.answered Fixture.profile_runtime Fixture.scripted_service
            1 rows.
Proof.
  assert (H1 : Fixture.four_profiles <> []) by discriminate.
  assert (H2 : fst (S4C.generate_profiles Fixture.profile_runtime
                      Fixture.scripted_service [])
               = Ok (PList (map PDict Fixture.four_profiles)))
    by (vm_compute; reflexivity).
  split; [exact H1|]. split; [exact H2|].
  destruct (rows_in_iteration_order Fixture.profile_runtime
              Fixture.scripted_service 4) as [R _].
  exact (R Fixture.four_profiles [] H1 H2).
Defined.

(** The rows of the fixture carry the score 4: 8 is no token. *)
Lemma fixture_scores :
  match S4C.run_simulation Fixture.profile_runtime
          Fixture.scripted_service [] with
  | (Ok (Some rows), log) =>
    (length rows, length log, map S4C.score (firstn 2 rows))
  | _ => (0, 0, [])
  end
  = (32, 33, [Some (FFinite 4%Q); Some (FFinite 4%Q)]).
Proof. vm_compute. reflexivity. Qed.

(** The single-condition pipeline on the four-record sheet with the service
    down: four rows numbered 1 to 4 after eight requests. *)
Lemma sheet4_rows :
  match JLR.run_study ascii_runtime Fixture.silent_service 4
          Fixture.sheet4 [] with
  | (Ok rows, log) =>
    (map JLR.participant_id rows, map JLR.row_age rows, length log)
  | _ => ([], [], 0)
  end
  = ([1; 2; 3; 4], [35; 20; 41; 58]%Z, 8).
Proof. vm_compute. reflexivity. Qed.

(** C9 as stated fails on "exactly one row per external call": with the
    service down, each row of the single-condition pipeline costs two
    requests, the JSON-mode attempt and its fallback. *)
Lemma one_row_per_call_fails :
  ~ (forall rt svc n df rows log,
       JLR.run_study rt svc n df [] = (Ok rows, log) ->
       length rows = length log).
Proof.
  intros H.
  destruct (JLR.run_study ascii_runtime Fixture.silent_service 4
              Fixture.sheet4 []) as [[rows|e] log] eqn:E.
  - pose proof sheet4_rows as S. rewrite E in S.
    specialize (H _ _ _ _ _ _ E).
    injection S as S1 _ S3.
    apply (f_equal (@length nat)) in S1. rewrite length_map in S1.
    simpl in S1. lia.
  - pose proof sheet4_rows as S. rewrite E in S. discriminate.
Qed.

(* ================================================================== *)
(** * Part IX.  Further properties of the scripts                       *)
(* ================================================================== *)

(** ** Score extraction: bounds and edge cases *)

Section ScoreEdges.
Variable rt : runtime.

Import SpecScore.

(** A score, when there is one, is a finite float between 1 and 7. *)
Theorem extract_score_within_bounds (text : str) (f : pyfloat) :
  S4C.extract_score rt text = Some f ->
  exists q, f = FFinite q /\ (1 <= q)%Q /\ (q <= 7)%Q.
Proof.
  unfold S4C.extract_score. intros H. apply first_score_some in H.
  destruct H as (pre & m & post & _ & _ & _ & Hb).
  destruct f as [q| |]; try discriminate. simpl in Hb.
  apply andb_true_iff in Hb. destruct Hb as [H1 H7].
  apply Qle_bool_iff in H1, H7. exists q. auto.
Qed.

Lemma no_score_digit_no_match (text : str) :
  (forall c, In c text -> ~ (ch "1" <= c <= ch "7")%N) ->
  findall1 rt S4C.SCORE text = [].
Proof.
  intros Hno. pose proof (score_matches_occur rt text) as Hocc.
  destruct (findall1 rt S4C.SCORE text) as [|m ms]; [reflexivity|].
  exfalso. inversion Hocc as [| ? gap m' ms' rest [T _] _]; subst.
  destruct T as (d & frac & -> & Hlo & Hhi & _).
  apply (Hno d); [|split; assumption].
  apply in_or_app. right. left. reflexivity.
Qed.

(** A reply without any of the digits 1 to 7 has no score; in particular
    the empty reply has none. *)
Theorem extract_score_needs_a_digit (text : str) :
  (forall c, In c text -> ~ (ch "1" <= c <= ch "7")%N) ->
  S4C.extract_score rt text = None.
Proof.
  intros Hno. unfold S4C.extract_score.
  rewrite (no_score_digit_no_match text Hno). reflexivity.
Qed.

Lemma error_reply_has_no_score :
  S4C.extract_score rt (lit "ERROR") = None.
Proof.
  unfold S4C.extract_score. rewrite no_score_digit_no_match; [reflexivity|].
  intros c Hc.
  change (ch "1") with 49%N. change (ch "7") with 55%N.
  simpl in Hc.
  repeat (destruct Hc as [<- | Hc]; [lia|]). contradiction.
Qed.

End ScoreEdges.

Lemma extract_score_within_bounds_witness :
  S4C.extract_score ascii_runtime (lit "3.5 out of 7") = Some (FFinite (7 # 2))
  /\ exists q, FFinite (7 # 2) = FFinite q /\ (1 <= q)%Q /\ (q <= 7)%Q.
Proof.
  assert (H : S4C.extract_score ascii_runtime (lit "3.5 out of 7")
              = Some (FFinite (7 # 2))) by (vm_compute; reflexivity).
  split; [exact H|].
  exact (extract_score_within_bounds ascii_runtime _ _ H).
Defined.

Lemma extract_score_needs_a_digit_witness :
  (forall c, In c (lit "no idea, 0 or 89") -> ~ (ch "1" <= c <= ch "7")%N)
  /\ S4C.extract_score ascii_runtime (lit "no idea, 0 or 89") = None.
Proof.
  assert (H : forall c, In c (lit "no idea, 0 or 89") ->
                        ~ (ch "1" <= c <= ch "7")%N).
  { intros c Hc. change (ch "1") with 49%N. change (ch "7") with 55%N.
    simpl in Hc.
    repeat (destruct Hc as [<- | Hc]; [lia|]). contradiction. }
  split; [exact H|].
  exact (extract_score_needs_a_digit ascii_runtime _ H).
Defined.

(** ** The respondent call and the simulation: failures *)

Section SimulationFailures.
Variable rt : runtime.
Variable svc : service.

Import SpecRows SpecFallback.

(** A respondent call that fails still gives a row: its response is the
    text ERROR and it has no score; one request was made. *)
Theorem failed_answer_gives_error_row (c : S4C.condition)
  (d : list (str * pyval)) (log : list request) :
  (forall rq, text_mode_fails (svc (length log) rq)) ->
  exists r,
    S4C.simulate_one rt svc c (PDict d) log
    = (Ok r, log ++ [row_request rt r])
    /\ key r = key_of c d
    /\ S4C.response r = lit "ERROR"
    /\ S4C.score r = None.
Proof.
  intros Hf.
  destruct (simulate_one_run rt svc c d log) as (r & Hr & Hk & Hresp & Hs).
  exists r. split; [exact Hr|]. split; [exact Hk|].
  assert (E : S4C.response r = lit "ERROR").
  { rewrite Hresp. destruct (Hf (row_request rt r)) as [-> | ->];
      reflexivity. }
  split; [exact E|]. rewrite Hs, E. apply error_reply_has_no_score.
Qed.

(** When the request for the profiles fails, the simulation stops after
    that one request and writes nothing. *)
Theorem no_profiles_no_rows (log : list request) :
  text_mode_fails (svc (length log) profiles_request) ->
  S4C.run_simulation rt svc log = (Ok None, log ++ [profiles_request]).
Proof.
  intros Hf. unfold S4C.run_simulation, S4C.generate_profiles, bind.
  rewrite call_run. fold profiles_request.
  destruct Hf as [-> | ->]; reflexivity.
Qed.

(** With [n] profile objects, the simulation writes [8 * n] rows after
    [8 * n + 1] requests. *)
Theorem run_simulation_counts (ds : list (list (str * pyval)))
  (log : list request) :
  ds <> [] ->
  fst (S4C.generate_profiles rt svc log) = Ok (PList (map PDict ds)) ->
  exists rows log',
    S4C.run_simulation rt svc log = (Ok (Some rows), log')
    /\ length rows = 8 * length ds
    /\ length log' = length log + 8 * length ds + 1.
Proof.
  intros Hne Hg.
  destruct (run_simulation_order rt svc ds log Hne Hg)
    as (rows & H & K & _).
  assert (Hlen : length rows = 8 * length ds).
  { rewrite <- (length_map key rows), K. unfold iteration_order.
    simpl. rewrite !length_app, !length_map. simpl. lia. }
  eexists rows, _. split; [exact H|]. split; [exact Hlen|].
  rewrite length_app. simpl. rewrite length_map, Hlen. lia.
Qed.

End SimulationFailures.

Lemma failed_answer_gives_error_row_witness :
  (forall rq, SpecFallback.text_mode_fails
                (Fixture.silent_service (length (@nil request)) rq))
  /\ exists r,
       S4C.simulate_one ascii_runtime Fixture.silent_service
         (lit "English", lit "English", lit "US")
         (PDict [(lit "age", PInt 30)]) []
       = (Ok r, [] ++ [SpecRows.row_request ascii_runtime r])
       /\ SpecRows.key r
          = SpecRows.key_of (lit "English", lit "English", lit "US")
              [(lit "age", PInt 30)]
       /\ S4C.response r = lit "ERROR"
       /\ S4C.score r = None.
Proof.
  assert (H : forall rq, SpecFallback.text_mode_fails
                (Fixture.silent_service (length (@nil request)) rq)).
  { intros rq. left. reflexivity. }
  split; [exact H|].
  exact (failed_answer_gives_error_row ascii_runtime Fixture.silent_service
           (lit "English", lit "English", lit "US")
           [(lit "age", PInt 30)] [] H).
Defined.

Lemma no_profiles_no_rows_witness :
  SpecFallback.text_mode_fails
    (Fixture.silent_service (length (@nil request))
       SpecRows.profiles_request)
  /\ S4C.run_simulation ascii_runtime Fixture.silent_service []
     = (Ok None, [] ++ [SpecRows.profiles_request]).
Proof.
  assert (H : SpecFallback.text_mode_fails
                (Fixture.silent_service (length (@nil request))
                   SpecRows.profiles_request)).
  { left. reflexivity. }
  split; [exact H|].
  exact (no_profiles_no_rows ascii_runtime Fixture.silent_service [] H).
Defined.

Lemma run_simulation_counts_witness :
  Fixture.four_profiles <> []
  /\ fst (S4C.generate_profiles Fixture.profile_runtime
            Fixture.scripted_service [])
     = Ok (PList (map PDict Fixture.four_profiles))
  /\ exists rows log',
       S4C.run_simulation Fixture.profile_runtime Fixture.scripted_service []
       = (Ok (Some rows), log')
       /\ length rows = 8 * length Fixture.four_profiles
       /\ length log' = length (@nil request)
                        + 8 * length Fixture.four_profiles + 1.
Proof.
  assert (H1 : Fixture.four_profiles <> []) by discriminate.
  assert (H2 : fst (S4C.generate_profiles Fixture.profile_runtime
                      Fixture.scripted_service [])
               = Ok (PList (map PDict Fixture.four_profiles)))
    by (vm_compute; reflexivity).
  split; [exact H1|]. split; [exact H2|].
  exact (run_simulation_counts Fixture.profile_runtime
           Fixture.scripted_service Fixture.four_profiles [] H1 H2).
Defined.

(** ** A profile that is not an object *)

Section ProfileShape.
Variable rt : runtime.
Variable svc : service.

Import SpecRows.

Lemma simulate_one_not_object (c : S4C.condition) (x : pyval)
  (log : list request) :
  (forall d, x <> PDict d) ->
  S4C.simulate_one rt svc c x log = (Raise AttributeError, log).
Proof.
  intros Hx. destruct c as [[sl nl] co].
  destruct x; try reflexivity. exfalso. eapply Hx. reflexivity.
Qed.

Lemma for_profiles_abort (c : S4C.condition) (x : pyval)
  (post : list pyval) :
  (forall d, x <> PDict d) ->
  forall pre acc log,
  exists rows,
    S4C.for_profiles rt svc c (map PDict pre ++ x :: post) acc log
    = (Raise AttributeError, log ++ map (row_request rt) rows)
    /\ length rows = length pre.
Proof.
  intros Hx. induction pre as [|d pre IH]; intros acc log; simpl.
  - exists []. unfold bind. rewrite (simulate_one_not_object c x log Hx).
    rewrite app_nil_r. split; reflexivity.
  - destruct (simulate_one_run rt svc c d log) as (r & Hr & _).
    unfold bind at 1. rewrite Hr.
    destruct (IH (acc ++ [r]) (log ++ [row_request rt r]))
      as (rows & H & Hl).
    exists (r :: rows). rewrite H. simpl. rewrite <- app_assoc.
    split; [reflexivity | lia].
Qed.

(** When an element of the generated list is not an object, the simulation
    raises [AttributeError] at that profile of the first condition, after
    the requests for the profiles before it; no table is written. *)
Theorem non_object_profile_aborts (pre : list (list (str * pyval)))
  (x : pyval) (post : list pyval) (log : list request) :
  (forall d, x <> PDict d) ->
  fst (S4C.generate_profiles rt svc log)
  = Ok (PList (map PDict pre ++ x :: post)) ->
  exists log',
    S4C.run_simulation rt svc log = (Raise AttributeError, log')
    /\ length log' = length log + 1 + length pre.
Proof.
  intros Hx Hg. destruct (generate_profiles_run rt svc log) as [v Hv].
  rewrite Hv in Hg. simpl in Hg. injection Hg as ->.
  unfold S4C.run_simulation, bind at 1. rewrite Hv.
  replace (negb (py_truthy (PList (map PDict pre ++ x :: post))))
    with false by (destruct pre; reflexivity).
  unfold S4C.conditions. cbn [S4C.for_conditions].
  unfold bind at 1. unfold bind at 1. unfold lift. cbn [py_iter].
  destruct (for_profiles_abort (lit "English", lit "Indonesian", lit "US")
              x post Hx pre [] (log ++ [profiles_request]))
    as (rows & H & Hl).
  unfold bind at 1. rewrite H.
  eexists. split; [reflexivity|].
  rewrite !length_app, length_map. simpl. lia.
Qed.

End ProfileShape.

Lemma non_object_profile_aborts_witness :
  (forall d, PInt 5 <> PDict d)
  /\ fst (S4C.generate_profiles Fixture2.profiles_with_number
            Fixture.scripted_service [])
     = Ok (PList (map PDict [[(lit "age", PInt 30)]] ++ PInt 5 :: []))
  /\ exists log',
       S4C.run_simulation Fixture2.profiles_with_number Fixture.scripted_service []
       = (Raise AttributeError, log')
       /\ length log' = length (@nil request) + 1 + 1.
Proof.
  assert (H1 : forall d, PInt 5 <> PDict d) by (intros d; discriminate).
  assert (H2 : fst (S4C.generate_profiles Fixture2.profiles_with_number
                      Fixture.scripted_service [])
               = Ok (PList (map PDict [[(lit "age", PInt 30)]]
                            ++ PInt 5 :: [])))
    by (vm_compute; reflexivity).
  split; [exact H1|]. split; [exact H2|].
  exact (non_object_profile_aborts Fixture2.profiles_with_number
           Fixture.scripted_service [[(lit "age", PInt 30)]] (PInt 5) []
           [] H1 H2).
Defined.

(** ** Extracting the JSON array *)

Section MatcherComplete.
Variable rt : runtime.

Import SpecRegex SpecScore SpecArray.

Lemma orelse_left {A} (a b : option A) : a <> None -> orelse a b <> None.
Proof. destruct a; [discriminate | contradiction]. Qed.

Lemma orelse_right {A} (a b : option A) : b <> None -> orelse a b <> None.
Proof. destruct a; [discriminate | auto]. Qed.

(** A repetition either is empty or starts with a non-empty word. *)
Lemma star_first (P : str -> Prop) (w : str) :
  star P w ->
  w = [] \/ exists w1 w2, w1 <> [] /\ w = w1 ++ w2 /\ P w1 /\ star P w2.
Proof.
  induction 1 as [|w1 w2 H1 H2 IH]; [left; reflexivity|].
  destruct w1 as [|c w1]; [exact IH|].
  right. exists (c :: w1), w2. repeat split; auto. discriminate.
Qed.

(** A pattern without anchors matches wherever a word of its language
    stands and the rest of the match can go on after that word. *)
Lemma rmatch_complete (r : regex) :
  anchor_free r = true ->
  forall w s rest k,
    lang rt r w ->
    after s = w ++ rest ->
    (forall s1, after s1 = rest -> k s1 <> None) ->
    rmatch rt r s k <> None.
Proof.
  induction r as [| cl | r1 IH1 r2 IH2 | r1 IH1 | r1 IH1 | r1 IH1
                  | n r1 IH1 | | | ]; intros Ha w s rest k L E Hk;
    try discriminate Ha.
  - simpl in L. subst w. apply Hk. exact E.
  - destruct L as (c & -> & Hc). simpl in E. simpl. rewrite E, Hc.
    apply Hk. reflexivity.
  - simpl in Ha. apply andb_true_iff in Ha. destruct Ha as [Ha1 Ha2].
    destruct L as (w1 & w2 & -> & L1 & L2). simpl.
    apply (IH1 Ha1 w1 s (w2 ++ rest)); [exact L1 | |].
    + rewrite E, app_assoc. reflexivity.
    + intros s1 E1. apply (IH2 Ha2 w2 s1 rest); assumption.
  - simpl in Ha. simpl. destruct L as [-> | L].
    + apply orelse_right. apply Hk. exact E.
    + apply orelse_left. apply (IH1 Ha w s rest); assumption.
  - simpl in Ha. simpl in L. simpl.
    assert (G : forall fuel s w,
              star (lang rt r1) w -> after s = w ++ rest ->
              length (after s) <= fuel ->
              (fix loop (fuel : nat) (s : mstate) : option mstate :=
                 match fuel with
                 | O => k s
                 | S fuel' =>
                   orelse
                     (rmatch rt r1 s (fun s1 =>
                        if Nat.ltb (length (after s1)) (length (after s))
                        then loop fuel' s1 else None))
                     (k s)
                 end) fuel s <> None).
    { clear s w L E. induction fuel as [|fuel IHf]; intros s w L E Hf.
      - apply Hk. destruct (after s); [|simpl in Hf; lia].
        destruct w; [|discriminate]. simpl in E. auto.
      - destruct (star_first _ _ L) as [-> | (w1 & w2 & Hne & -> & P1 & L2)].
        + apply orelse_right. apply Hk. exact E.
        + apply orelse_left.
          apply (IH1 Ha w1 s (w2 ++ rest)); [exact P1 | |].
          * rewrite E, app_assoc. reflexivity.
          * intros s1 E1.
            assert (Hlt : length (after s1) < length (after s)).
            { rewrite E, E1, <- app_assoc, (length_app w1).
              destruct w1; [contradiction|]. simpl. lia. }
            apply Nat.ltb_lt in Hlt as Hb. rewrite Hb.
            apply (IHf s1 w2 L2 E1). lia. }
    apply (G (length (after s)) s w L E). lia.
  - simpl in Ha. simpl in L. simpl.
    assert (G : forall fuel s w,
              star (lang rt r1) w -> after s = w ++ rest ->
              length (after s) <= fuel ->
              (fix loop (fuel : nat) (s : mstate) : option mstate :=
                 match fuel with
                 | O => k s
                 | S fuel' =>
                   orelse
                     (k s)
                     (rmatch rt r1 s (fun s1 =>
                        if Nat.ltb (length (after s1)) (length (after s))
                        then loop fuel' s1 else None))
                 end) fuel s <> None).
    { clear s w L E. induction fuel as [|fuel IHf]; intros s w L E Hf.
      - apply Hk. destruct (after s); [|simpl in Hf; lia].
        destruct w; [|discriminate]. simpl in E. auto.
      - destruct (star_first _ _ L) as [-> | (w1 & w2 & Hne & -> & P1 & L2)].
        + apply orelse_left. apply Hk. exact E.
        + apply orelse_right.
          apply (IH1 Ha w1 s (w2 ++ rest)); [exact P1 | |].
          * rewrite E, app_assoc. reflexivity.
          * intros s1 E1.
            assert (Hlt : length (after s1) < length (after s)).
            { rewrite E, E1, <- app_assoc, (length_app w1).
              destruct w1; [contradiction|]. simpl. lia. }
            apply Nat.ltb_lt in Hlt as Hb. rewrite Hb.
            apply (IHf s1 w2 L2 E1). lia. }
    apply (G (length (after s)) s w L E). lia.
  - simpl in Ha. simpl in L. simpl.
    apply (IH1 Ha w s rest); [exact L | exact E |].
    intros s1 E1. apply Hk. exact E1.
Qed.

Lemma match_here_complete (r : regex) (w rest bef : str) :
  anchor_free r = true ->
  lang rt r w ->
  match_here rt r {| before := bef; after := w ++ rest; groups := [] |}
  <> None.
Proof.
  intros Ha L. unfold match_here.
  apply (rmatch_complete r Ha w _ rest); [exact L | reflexivity |].
  intros s1 _. discriminate.
Qed.

(** The search finds the leftmost position where the pattern matches. *)
Lemma search_from_leftmost (r : regex) :
  forall aft bef s e,
    search_from rt r bef aft = Some (s, e) ->
    exists gap,
      aft = gap ++ after s
      /\ match_here rt r s = Some e
      /\ groups s = []
      /\ forall a x b,
           gap = a ++ x :: b ->
           match_here rt r {| before := rev a ++ bef;
                              after := x :: b ++ after s;
                              groups := [] |} = None.
Proof.
  induction aft as [|c rest IH]; intros bef s e H; simpl in H.
  - destruct (match_here rt r _) as [y|] eqn:E; [|discriminate].
    injection H as <- <-. exists []. repeat split; auto.
    intros a x b Hg. destruct a; discriminate.
  - destruct (match_here rt r _) as [y|] eqn:E.
    + injection H as <- <-. exists []. repeat split; auto.
      intros a x b Hg. destruct a; discriminate.
    + apply IH in H. destruct H as (gap & A & M & G & N).
      exists (c :: gap). split; [simpl; f_equal; exact A|].
      split; [exact M|]. split; [exact G|].
      intros a x b Hg. destruct a as [|y a].
      * simpl in Hg. injection Hg as <- <-. simpl. rewrite <- A. exact E.
      * simpl in Hg. injection Hg as <- Hg. simpl.
        rewrite <- app_assoc. simpl. apply (N a x b Hg).
Qed.

Lemma search_from_none (r : regex) :
  forall aft bef,
    search_from rt r bef aft = None ->
    forall a b, aft = a ++ b ->
      match_here rt r {| before := rev a ++ bef; after := b; groups := [] |}
      = None.
Proof.
  induction aft as [|c rest IH]; intros bef H a b E; simpl in H.
  - destruct (match_here rt r _) eqn:M; [discriminate|].
    destruct a; [|discriminate]. simpl in E. subst b. exact M.
  - destruct (match_here rt r _) eqn:M; [discriminate|].
    destruct a as [|y a].
    + simpl in E. subst b. exact M.
    + simpl in E. injection E as <- E. simpl. rewrite <- app_assoc.
      apply (IH (c :: bef) H a b E).
Qed.

End MatcherComplete.

Section JsonArray.
Variable rt : runtime.

Import SpecRegex SpecScore SpecArray.

Lemma lstrip_by_incl (p : char -> bool) (s : str) :
  incl (lstrip_by p s) s.
Proof.
  destruct (lstrip_by_split p s) as [w [E _]].
  intros c Hc. rewrite E. apply in_or_app. right. exact Hc.
Qed.

Lemma strip_by_incl (p : char -> bool) (s : str) :
  incl (strip_by p s) s.
Proof.
  unfold strip_by. intros c Hc. apply in_rev in Hc.
  apply lstrip_by_incl in Hc. apply in_rev in Hc.
  apply lstrip_by_incl in Hc. exact Hc.
Qed.

(** *** Removing the fences *)

Lemma startswith_nil (a : str) : startswith a [] = true.
Proof. destruct a; reflexivity. Qed.

Lemma rmatch_opt (r1 : regex) (s : mstate) (k : mstate -> option mstate) :
  rmatch rt (ROpt r1) s k = orelse (rmatch rt r1 s k) (k s).
Proof. reflexivity. Qed.

Lemma rmatch_literal (w : str) (r2 : regex) (k : mstate -> option mstate)
  (g : list (nat * str)) :
  forall a b,
    rmatch rt (RWord ALit w r2) {| before := b; after := a; groups := g |} k
    = if startswith a w
      then rmatch rt r2 {| before := rev w ++ b;
                           after := skipn (length w) a; groups := g |} k
      else None.
Proof.
  induction w as [|c w IH]; intros a b.
  - rewrite startswith_nil. reflexivity.
  - simpl RWord. rewrite rmatch_seq, rmatch_char.
    destruct a as [|x a]; [reflexivity|].
    rewrite class_lit. simpl startswith.
    destruct (N.eqb_spec x c) as [-> | Hne]; [|reflexivity].
    simpl andb. rewrite IH. simpl rev. rewrite <- app_assoc. reflexivity.
Qed.

Lemma startswith_app (a p q : str) :
  startswith a (p ++ q)
  = startswith a p && startswith (skipn (length p) a) q.
Proof.
  revert a. induction p as [|c p IH]; intros a.
  - rewrite startswith_nil. reflexivity.
  - destruct a as [|x a]; [reflexivity|]. simpl.
    rewrite IH, andb_assoc. reflexivity.
Qed.

(** A fence matches where three back-ticks stand, and takes the word json
    with them when it follows. *)
Lemma fence_here (a b : str) :
  match_here rt S4C.FENCE {| before := b; after := a; groups := [] |}
  = if startswith a (lit "```json")
    then Some {| before := rev (lit "json") ++ rev (lit "```") ++ b;
                 after := skipn 7 a; groups := [] |}
    else if startswith a (lit "```")
    then Some {| before := rev (lit "```") ++ b;
                 after := skipn 3 a; groups := [] |}
    else None.
Proof.
  unfold match_here, S4C.FENCE. simpl before. simpl after.
  rewrite rmatch_literal.
  change (lit "```json") with (lit "```" ++ lit "json").
  rewrite startswith_app.
  change (length (lit "```")) with 3.
  destruct (startswith a (lit "```")); [|reflexivity].
  cbn [andb]. rewrite rmatch_opt, rmatch_literal.
  change (length (lit "json")) with 4.
  destruct (startswith (skipn 3 a) (lit "json")).
  - cbn [rmatch orelse]. rewrite skipn_skipn. reflexivity.
  - reflexivity.
Qed.

Lemma search_from_nil (r : regex) (bef : str) :
  search_from rt r bef []
  = match match_here rt r {| before := bef; after := [];
                             groups := [] |} with
    | Some e => Some ({| before := bef; after := []; groups := [] |}, e)
    | None => None
    end.
Proof. reflexivity. Qed.

Lemma search_from_cons (r : regex) (bef : str) (c : char) (rest : str) :
  search_from rt r bef (c :: rest)
  = match match_here rt r {| before := bef; after := c :: rest;
                             groups := [] |} with
    | Some e =>
      Some ({| before := bef; after := c :: rest; groups := [] |}, e)
    | None => search_from rt r (c :: bef) rest
    end.
Proof. reflexivity. Qed.

Lemma drop_fences_skip :
  forall t n, drop_fences n t = drop_fences 0 (skipn n t).
Proof.
  induction t as [|c t IH]; intros [|n]; try reflexivity.
  simpl. apply IH.
Qed.

Lemma drop_fences_incl : forall t n, incl (drop_fences n t) t.
Proof.
  induction t as [|c t IH]; intros n; cbn [drop_fences].
  - apply incl_refl.
  - destruct n as [|n]; [|apply incl_tl, IH].
    destruct (startswith (c :: t) (lit "```json")); [apply incl_tl, IH|].
    destruct (startswith (c :: t) (lit "```")); [apply incl_tl, IH|].
    intros x [-> | Hx]; [left; reflexivity | right; apply (IH 0 x Hx)].
Qed.

Lemma finditer_from_first (r : regex) (fuel : nat) (bef aft : str)
  (s e : mstate) (ms : list (mstate * mstate)) :
  finditer_from rt fuel r bef aft = (s, e) :: ms ->
  exists gap, aft = gap ++ after s.
Proof.
  destruct fuel as [|fuel]; [discriminate|]. rewrite finditer_from_step.
  destruct (search_from rt r bef aft) as [[s1 e1]|] eqn:Es; [|discriminate].
  apply search_from_found in Es. destruct Es as (gap & A & _).
  intros H. exists gap.
  destruct (length (after e1) <? length (after s1));
    [|destruct (step_char e1)]; injection H as <- _; exact A.
Qed.

Lemma remove_matches_cons (ms : list (mstate * mstate)) (bef bef' : str)
  (c : char) (r : str) :
  (forall s e ms', ms = (s, e) :: ms' -> exists gap, r = gap ++ after s) ->
  remove_matches ms bef (c :: r) = c :: remove_matches ms bef' r.
Proof.
  destruct ms as [|[s e] ms']; intros H; [reflexivity|].
  destruct (H s e ms' eq_refl) as [gap E]. cbn [remove_matches].
  assert (Hl : length (after s) <= length r)
    by (apply (f_equal (@length char)) in E; rewrite length_app in E; lia).
  replace (length (c :: r) - length (after s))
    with (S (length r - length (after s)))
    by (change (length (c :: r)) with (S (length r)); lia).
  reflexivity.
Qed.

(** Removing the matches of the fence pattern is dropping the fences. *)
Lemma fences_removed :
  forall n aft bef fuel,
    length aft <= n -> length aft < fuel ->
    remove_matches (finditer_from rt fuel S4C.FENCE bef aft) bef aft
    = drop_fences 0 aft.
Proof.
  induction n as [|n IH]; intros aft bef fuel Hn Hf.
  - destruct aft; [|simpl in Hn; lia].
    destruct fuel as [|fuel]; [reflexivity|].
    rewrite finditer_from_step, search_from_nil, fence_here.
    reflexivity.
  - destruct aft as [|c r].
    { destruct fuel as [|fuel]; [reflexivity|].
      rewrite finditer_from_step, search_from_nil, fence_here.
      reflexivity. }
    destruct fuel as [|fuel]; [lia|]. simpl in Hn, Hf.
    assert (Hskip : forall m e,
              after e = skipn (S m) (c :: r) ->
              search_from rt S4C.FENCE bef (c :: r)
              = Some ({| before := bef; after := c :: r; groups := [] |}, e)
              ->
              remove_matches
                (finditer_from rt (S fuel) S4C.FENCE bef (c :: r))
                bef (c :: r)
              = drop_fences m r).
    { intros m e Ea Es. rewrite finditer_from_step, Es.
      assert (Hl : length (after e) <= length r).
      { rewrite Ea. cbn [skipn]. rewrite length_skipn. lia. }
      assert (Hlt : (length (after e)
                     <? length (after {| before := bef; after := c :: r;
                                         groups := [] |})) = true).
      { apply Nat.ltb_lt. cbn [after]. simpl length. lia. }
      rewrite Hlt. cbn [remove_matches after].
      rewrite Nat.sub_diag. cbn [firstn app].
      rewrite (IH (after e) (before e) fuel) by lia.
      rewrite Ea. cbn [skipn]. symmetry. apply drop_fences_skip. }
    pose proof (fence_here (c :: r) bef) as Hh.
    cbn [drop_fences].
    destruct (startswith (c :: r) (lit "```json")) eqn:E7.
    + refine (Hskip 6 {| before := _; after := skipn 7 (c :: r);
                         groups := [] |} eq_refl _).
      rewrite search_from_cons, Hh. reflexivity.
    + destruct (startswith (c :: r) (lit "```")) eqn:E3.
      * refine (Hskip 2 {| before := _; after := skipn 3 (c :: r);
                           groups := [] |} eq_refl _).
        rewrite search_from_cons, Hh. reflexivity.
      * rewrite (finditer_from_search rt S4C.FENCE (S fuel) bef (c :: r)
                   (c :: bef) r)
          by (rewrite search_from_cons, Hh; reflexivity).
        rewrite (remove_matches_cons _ bef (c :: bef) c r).
        -- f_equal. apply IH; lia.
        -- intros s e ms' Hms.
           apply (finditer_from_first _ _ _ _ _ _ _ Hms).
Qed.

Lemma cleaning (text : str) :
  strip rt (strip_by (fun c => (c =? ch "`")%N)
                     (re_sub_empty rt S4C.FENCE text))
  = cleaned rt text.
Proof.
  unfold cleaned, re_sub_empty, finditer.
  rewrite (fences_removed (length text) text [] (S (length text)))
    by lia.
  reflexivity.
Qed.

Lemma cleaned_incl (text : str) : incl (cleaned rt text) text.
Proof.
  unfold cleaned, strip. intros c Hc.
  apply strip_by_incl in Hc. apply strip_by_incl in Hc.
  apply (drop_fences_incl text 0 c Hc).
Qed.

(** *** The array pattern *)

Lemma star_class_all (cl : cclass) (w : str) :
  star (lang rt (RChar cl)) w -> all_in rt cl w.
Proof.
  induction 1 as [|w1 w2 (c & -> & Hc) _ IH]; [constructor|].
  constructor; assumption.
Qed.

Lemma all_star_class (cl : cclass) (w : str) :
  all_in rt cl w -> star (lang rt (RChar cl)) w.
Proof.
  induction 1 as [|c w Hc _ IH]; [constructor|].
  apply (@star_app _ [c] w); [exists c; auto | exact IH].
Qed.

Lemma spaces_all_in (w : str) : spaces rt w <-> all_in rt [ASpace] w.
Proof.
  unfold spaces, all_in. split; intros H;
    (eapply Forall_impl; [|exact H]); intros c; cbv beta;
    rewrite class_space; auto.
Qed.

Lemma any_all_in (w : str) : all_in rt [AAny] w.
Proof. apply Forall_forall. intros c _. reflexivity. Qed.

Lemma array_shape :
  S4C.ARRAY
  = RSeq (RChar [ALit (ch "[")])
    (RSeq (RStar (RChar [ASpace]))
    (RSeq (RChar [ALit (ch "{")])
    (RSeq (RLazy (RChar [AAny])) TAIL))).
Proof. reflexivity. Qed.

Lemma lang_tail (w : str) : lang rt TAIL w <-> closing rt w.
Proof.
  unfold closing. split.
  - intros (w1 & r1 & -> & (c1 & -> & H1) & w2 & r2 & -> & L2
            & (c3 & -> & H3)).
    rewrite class_lit in H1, H3. apply N.eqb_eq in H1, H3. subst.
    exists w2. split; [reflexivity|].
    apply spaces_all_in, star_class_all. exact L2.
  - intros (ws & -> & Hs).
    exists [ch "}"], (ws ++ [ch "]"]). split; [reflexivity|]. split.
    + exists (ch "}"). split; [reflexivity|]. rewrite class_lit.
      apply N.eqb_refl.
    + exists ws, [ch "]"]. split; [reflexivity|]. split.
      * apply all_star_class, spaces_all_in. exact Hs.
      * exists (ch "]"). split; [reflexivity|]. rewrite class_lit.
        apply N.eqb_refl.
Qed.

Lemma lang_array (w : str) : lang rt S4C.ARRAY w <-> bracketed rt w.
Proof.
  rewrite array_shape. unfold bracketed. split.
  - intros (w1 & r1 & -> & (c1 & -> & H1) & w2 & r2 & -> & L2
            & w3 & r3 & -> & (c3 & -> & H3) & w4 & r4 & -> & _ & L5).
    rewrite class_lit in H1, H3. apply N.eqb_eq in H1, H3. subst.
    exists w2, w4, r4. split; [reflexivity|]. split.
    + apply spaces_all_in, star_class_all. exact L2.
    + apply lang_tail. exact L5.
  - intros (ws & body & cl & -> & Hs & Hc).
    exists [ch "["], (ws ++ ch "{" :: body ++ cl).
    split; [reflexivity|]. split.
    { exists (ch "["). split; [reflexivity|]. rewrite class_lit.
      apply N.eqb_refl. }
    exists ws, (ch "{" :: body ++ cl). split; [reflexivity|]. split.
    { apply all_star_class, spaces_all_in. exact Hs. }
    exists [ch "{"], (body ++ cl). split; [reflexivity|]. split.
    { exists (ch "{"). split; [reflexivity|]. rewrite class_lit.
      apply N.eqb_refl. }
    exists body, cl. split; [reflexivity|]. split.
    { apply all_star_class, any_all_in. }
    apply lang_tail. exact Hc.
Qed.

Lemma array_anchor_free : anchor_free S4C.ARRAY = true.
Proof. reflexivity. Qed.

Lemma tail_anchor_free : anchor_free TAIL = true.
Proof. reflexivity. Qed.

(** *** The lazy repetition *)

Lemma rmatch_lazy_class (cl : cclass) (k : mstate -> option mstate)
  (gs : list (nat * str)) :
  forall aft bef,
    rmatch rt (RLazy (RChar cl))
           {| before := bef; after := aft; groups := gs |} k
    = lazy rt cl k bef aft gs.
Proof.
  induction aft as [|c rest IH]; intros bef.
  - reflexivity.
  - specialize (IH (c :: bef)). simpl in IH |- *.
    destruct (class_match rt cl c); [|destruct (k _); reflexivity].
    assert (E : (length rest <? S (length rest)) = true)
      by (apply Nat.ltb_lt; lia).
    rewrite E, IH. reflexivity.
Qed.

(** A successful lazy repetition stopped at the first position from which
    the rest of the pattern matches. *)
Lemma lazy_first (cl : cclass) (k : mstate -> option mstate)
  (gs : list (nat * str)) :
  forall aft bef res,
    lazy rt cl k bef aft gs = Some res ->
    exists n, n <= length aft
              /\ k (advance n bef aft gs) = Some res
              /\ forall m, m < n -> k (advance m bef aft gs) = None.
Proof.
  induction aft as [|c rest IH]; intros bef res H; simpl in H.
  - exists 0. split; [simpl; lia|]. split; [exact H|]. intros m Hm. lia.
  - assert (H0 : k {| before := bef; after := c :: rest; groups := gs |}
                 = Some res ->
                 exists n, n <= length (c :: rest)
                   /\ k (advance n bef (c :: rest) gs) = Some res
                   /\ forall m, m < n ->
                        k (advance m bef (c :: rest) gs) = None).
    { intros E. exists 0. split; [simpl; lia|]. split; [exact E|].
      intros m Hm. lia. }
    destruct (class_match rt cl c); [|exact (H0 H)].
    destruct (k {| before := bef; after := c :: rest; groups := gs |})
      as [y|] eqn:Ek; simpl in H.
    + injection H as <-. apply H0. reflexivity.
    + destruct (IH _ _ H) as (n & Hn & Hk & Hmin).
      exists (S n). split; [simpl; lia|]. split.
      * unfold advance in *. simpl. rewrite <- app_assoc. exact Hk.
      * intros [|m] Hm; [exact Ek|].
        specialize (Hmin m ltac:(lia)).
        unfold advance in *. simpl. rewrite <- app_assoc. exact Hmin.
Qed.

(** A prefix shorter than another prefix of the same text is a proper
    prefix of it. *)
Lemma shorter_prefix (a gap x y : str) :
  a ++ x = gap ++ y -> length a < length gap ->
  exists c b, gap = a ++ c :: b /\ x = c :: b ++ y.
Proof.
  revert gap. induction a as [|p a IH]; intros gap E Hl.
  - destruct gap as [|c b]; [simpl in Hl; lia|].
    exists c, b. split; [reflexivity | exact E].
  - destruct gap as [|q gap]; [simpl in Hl; lia|].
    simpl in E. injection E as <- E. simpl in Hl.
    destruct (IH gap E ltac:(lia)) as (c & b & -> & ->).
    exists c, b. split; reflexivity.
Qed.

(** What a match of the array pattern looks like. *)
Lemma array_match (s e : mstate) :
  match_here rt S4C.ARRAY s = Some e ->
  exists ws body cl,
    after s = ch "[" :: (ws ++ ch "{" :: body ++ cl) ++ after e
    /\ spaces rt ws /\ closing rt cl
    /\ forall b w rest,
         body ++ cl ++ after e = b ++ w ++ rest -> closing rt w ->
         length body <= length b.
Proof.
  unfold match_here. rewrite array_shape. intros M.
  rewrite rmatch_seq, rmatch_char in M.
  destruct (after s) as [|c0 T] eqn:Ea; [discriminate|].
  rewrite class_lit in M. destruct (N.eqb_spec c0 (ch "[")) as [-> | _];
    [|discriminate].
  rewrite rmatch_seq, rmatch_star_class in M.
  apply greedy_some in M. destruct M as (n1 & Hn1 & Hall1 & M).
  unfold advance in M. rewrite rmatch_seq, rmatch_char in M.
  destruct (skipn n1 T) as [|c1 X] eqn:ET; [discriminate|].
  rewrite class_lit in M. destruct (N.eqb_spec c1 (ch "{")) as [-> | _];
    [|discriminate].
  rewrite rmatch_seq, rmatch_lazy_class in M.
  apply lazy_first in M. destruct M as (n & Hn & M & Hmin).
  unfold advance in M.
  apply rmatch_reaches in M. destruct M as (w5 & s' & [R _] & L5 & E').
  injection E' as ->. simpl in R.
  apply lang_tail in L5.
  exists (firstn n1 T), (firstn n X), w5.
  assert (EX : X = firstn n X ++ w5 ++ after e).
  { rewrite <- R. symmetry. apply firstn_skipn. }
  split; [|split; [|split]].
  - f_equal. rewrite <- (firstn_skipn n1 T) at 1. rewrite ET.
    rewrite <- !app_assoc. simpl. do 2 f_equal.
    rewrite <- app_assoc. exact EX.
  - apply spaces_all_in. exact Hall1.
  - exact L5.
  - intros b w rest Eb Hw. rewrite <- EX in Eb.
    rewrite length_firstn, (Nat.min_l _ _ Hn).
    destruct (Nat.le_gt_cases n (length b)) as [Hle | Hlt]; [exact Hle|].
    exfalso. specialize (Hmin (length b) Hlt).
    revert Hmin. unfold advance.
    apply (rmatch_complete rt TAIL tail_anchor_free w _ rest).
    + apply lang_tail. exact Hw.
    + simpl. rewrite Eb. rewrite skipn_app, Nat.sub_diag, skipn_all.
      reflexivity.
    + intros s1 _. discriminate.
Qed.

(** The array extractor cleans the reply and hands the parser the first
    array text of what is left: the one that starts leftmost and closes at
    the first closing after its opening brace.  The result is what the
    parser returns for it; it is the empty list when the parser rejects it
    and when the cleaned reply has no array text, in particular when the
    reply has no opening bracket. *)
Theorem extract_json_array_from_span (text : str) :
  ((exists pre span post,
      first_array rt (cleaned rt text) pre span post
      /\ S4C.extract_json_array rt text
         = match json_loads rt span with
           | Some v => v
           | None => PList []
           end)
   \/ (~ has_array rt (cleaned rt text)
       /\ S4C.extract_json_array rt text = PList []))
  /\ ((forall c, In c text -> c <> ch "[") ->
      S4C.extract_json_array rt text = PList []).
Proof.
  unfold S4C.extract_json_array. rewrite cleaning.
  destruct (re_search rt S4C.ARRAY (cleaned rt text)) as [[s e]|] eqn:Es.
  - unfold re_search in Es. apply search_from_leftmost in Es.
    destruct Es as (gap & A & M & G & N).
    destruct (array_match s e M) as (ws & body & cl & Ea & Hs & Hc & Hmin).
    assert (Hg : group0 (s, e) = ch "[" :: ws ++ ch "{" :: body ++ cl).
    { unfold group0. simpl fst. simpl snd.
      destruct (match_here_reaches rt _ _ _ M) as (w & Hw & Hb).
      rewrite (reaches_consumed s e w (conj Hw Hb)).
      rewrite Ea in Hw.
      change (ch "[" :: (ws ++ ch "{" :: body ++ cl) ++ after e)
        with ((ch "[" :: ws ++ ch "{" :: body ++ cl) ++ after e) in Hw.
      apply app_inv_tail in Hw. symmetry. exact Hw. }
    assert (Hfirst : first_array rt (cleaned rt text) gap
                       (ch "[" :: ws ++ ch "{" :: body ++ cl) (after e)).
    { split; [|split].
      - rewrite A, Ea. reflexivity.
      - intros a w rest Et Hw.
        destruct (Nat.le_gt_cases (length gap) (length a)) as [Hle | Hlt];
          [exact Hle|].
        exfalso. rewrite A in Et. symmetry in Et.
        destruct (shorter_prefix a gap (w ++ rest) (after s) Et Hlt)
          as (c & b & Eg & Ew).
        specialize (N a c b Eg). rewrite <- Ew in N. revert N.
        apply match_here_complete; [apply array_anchor_free|].
        apply lang_array. exact Hw.
      - exists ws, body, cl. repeat split; auto. }
    split.
    + left. exists gap, (ch "[" :: ws ++ ch "{" :: body ++ cl), (after e).
      split; [exact Hfirst|]. rewrite Hg. reflexivity.
    + intros Hno. exfalso. apply (Hno (ch "[")); [|reflexivity].
      apply cleaned_incl. rewrite A, Ea. apply in_or_app. right. left.
      reflexivity.
  - split; [|reflexivity]. right. split; [|reflexivity].
    intros (a & w & rest & Et & Hw).
    unfold re_search in Es.
    pose proof (search_from_none rt S4C.ARRAY _ _ Es a (w ++ rest) Et) as N.
    revert N. apply match_here_complete; [apply array_anchor_free|].
    apply lang_array. exact Hw.
Qed.

End JsonArray.

Lemma extract_json_array_from_span_witness :
  (forall c, In c (lit "Sorry, no list.") -> c <> ch "[")
  /\ S4C.extract_json_array Fixture.profile_runtime (lit "Sorry, no list.")
     = PList [].
Proof.
  assert (H : forall c, In c (lit "Sorry, no list.") -> c <> ch "[").
  { intros c Hc. simpl in Hc.
    repeat (destruct Hc as [<- | Hc]; [discriminate|]). contradiction. }
  split; [exact H|].
  exact (proj2 (extract_json_array_from_span Fixture.profile_runtime
                  (lit "Sorry, no list.")) H).
Defined.

(** ** Resolving the columns *)

Section Columns.
Variable rt : runtime.

Import SpecColumns.

Definition fill_step (cols : list (str * str)) (c : str)
  : list (str * str) :=
  assoc_set cols (JLR.normal rt c) c.

Lemma find_snoc {A} (f : A -> bool) (l : list A) (x : A) :
  find f (l ++ [x])
  = match find f l with
    | Some y => Some y
    | None => if f x then Some x else None
    end.
Proof.
  induction l as [|a l IH]; simpl; [reflexivity|].
  destruct (f a); [reflexivity | exact IH].
Qed.

(** After filling, a key holds the last column that normalises to it. *)
Lemma fill_get (k : str) :
  forall l d,
    assoc_get (fold_left fill_step l d) k
    = match find (matches_key rt k) (rev l) with
      | Some c => Some c
      | None => assoc_get d k
      end.
Proof.
  induction l as [|c l IH]; intros d; simpl; [reflexivity|].
  rewrite IH, find_snoc.
  destruct (find (matches_key rt k) (rev l)); [reflexivity|].
  unfold fill_step. rewrite assoc_get_set. unfold matches_key.
  destruct (str_eqb (JLR.normal rt c) k); reflexivity.
Qed.

Lemma find_first {A} (f : A -> bool) :
  forall l x,
    find f l = Some x ->
    exists a b, l = a ++ x :: b /\ f x = true
                /\ forall y, In y a -> f y = false.
Proof.
  induction l as [|c l IH]; intros x H; simpl in H; [discriminate|].
  destruct (f c) eqn:E.
  - injection H as <-. exists [], l. repeat split; auto. intros ? [].
  - destruct (IH x H) as (a & b & -> & Hx & Ha).
    exists (c :: a), b. repeat split; auto.
    intros y [<- | Hy]; auto.
Qed.

Lemma find_none_all {A} (f : A -> bool) (l : list A) :
  find f l = None <-> forall y, In y l -> f y = false.
Proof.
  induction l as [|c l IH]; simpl.
  - split; [intros _ ? [] | reflexivity].
  - destruct (f c) eqn:E.
    + split; [discriminate|]. intros H.
      rewrite (H c (or_introl eq_refl)) in E. discriminate.
    + rewrite IH. split.
      * intros H y [<- | Hy]; auto.
      * intros H y Hy. apply H. right. exact Hy.
Qed.

Lemma last_match_some (cols : list str) (cand c : str) :
  find (matches_key rt (JLR.normal rt cand)) (rev cols) = Some c ->
  last_column_for rt cols cand c.
Proof.
  intros H. apply find_first in H. destruct H as (a & b & E & Hc & Ha).
  exists (rev b), (rev a). split.
  - rewrite <- (rev_involutive cols), E, rev_app_distr. simpl.
    rewrite <- app_assoc. reflexivity.
  - split; [apply str_eqb_eq; exact Hc|].
    intros c' Hc'. apply in_rev in Hc'. apply Ha in Hc'.
    apply str_eqb_neq. exact Hc'.
Qed.

Lemma last_match_none (cols : list str) (cand : str) :
  find (matches_key rt (JLR.normal rt cand)) (rev cols) = None
  <-> no_column_for rt cols cand.
Proof.
  rewrite find_none_all. unfold no_column_for, matches_key. split.
  - intros H c Hc. apply str_eqb_neq. apply H. apply in_rev.
    rewrite rev_involutive. exact Hc.
  - intros H c Hc. apply str_eqb_neq. apply H. apply in_rev. exact Hc.
Qed.

Lemma pick_col_unfold (df : JLR.dataframe) (candidates : list str) :
  JLR.pick_col rt df candidates
  = (fix try (cands : list str) : option str :=
       match cands with
       | [] => None
       | cand :: rest =>
         match find (matches_key rt (JLR.normal rt cand))
                    (rev (JLR.columns df)) with
         | Some c => Some c
         | None => try rest
         end
       end) candidates.
Proof.
  unfold JLR.pick_col. fold fill_step.
  induction candidates as [|cand rest IH]; [reflexivity|].
  rewrite !fill_get. simpl assoc_get.
  destruct (find (matches_key rt (JLR.normal rt cand))
                 (rev (JLR.columns df))); [reflexivity | exact IH].
Qed.

(** The column resolver compares labels after lower-casing and trimming.
    It returns the column of the first candidate that some label matches,
    and among several matching labels the last one; it returns nothing
    exactly when no label matches any candidate. *)
Theorem pick_col_resolves (df : JLR.dataframe) (candidates : list str) :
  (forall c,
     JLR.pick_col rt df candidates = Some c ->
     exists pre cand post,
       candidates = pre ++ cand :: post
       /\ (forall x, In x pre -> no_column_for rt (JLR.columns df) x)
       /\ last_column_for rt (JLR.columns df) cand c)
  /\ (JLR.pick_col rt df candidates = None
      <-> forall cand, In cand candidates ->
                       no_column_for rt (JLR.columns df) cand).
Proof.
  rewrite pick_col_unfold.
  induction candidates as [|cand rest [IH1 IH2]].
  - split; [discriminate|]. split; [intros _ ? [] | reflexivity].
  - destruct (find (matches_key rt (JLR.normal rt cand))
                   (rev (JLR.columns df))) as [c0|] eqn:E.
    + split.
      * intros c H. injection H as <-. exists [], cand, rest.
        split; [reflexivity|]. split; [intros ? []|].
        apply last_match_some. exact E.
      * split; [discriminate|]. intros H.
        pose proof (proj2 (last_match_none (JLR.columns df) cand)
                      (H cand (or_introl eq_refl))) as Hn.
        rewrite Hn in E. discriminate.
    + apply last_match_none in E. split.
      * intros c H. destruct (IH1 c H) as (pre & x & post & -> & Hp & Hl).
        exists (cand :: pre), x, post. split; [reflexivity|].
        split; [|exact Hl]. intros y [<- | Hy]; auto.
      * rewrite IH2. split.
        -- intros H x [<- | Hx]; auto.
        -- intros H x Hx. apply H. right. exact Hx.
Qed.

End Columns.

Lemma pick_col_resolves_witness :
  JLR.pick_col ascii_runtime Fixture2.sheet_two_ages SpecSheet.AGE_NAMES
  = Some (lit " age ")
  /\ exists pre cand post,
       SpecSheet.AGE_NAMES = pre ++ cand :: post
       /\ (forall x, In x pre ->
             SpecColumns.no_column_for ascii_runtime
               (JLR.columns Fixture2.sheet_two_ages) x)
       /\ SpecColumns.last_column_for ascii_runtime
            (JLR.columns Fixture2.sheet_two_ages) cand (lit " age ").
Proof.
  assert (H : JLR.pick_col ascii_runtime Fixture2.sheet_two_ages
                SpecSheet.AGE_NAMES = Some (lit " age "))
    by (vm_compute; reflexivity).
  split; [exact H|].
  exact (proj1 (pick_col_resolves ascii_runtime Fixture2.sheet_two_ages
                  SpecSheet.AGE_NAMES) (lit " age ") H).
Defined.

(** ** What a successful load returns *)

Section LoadShape.
Variable rt : runtime.

Import SpecStudy.

(** A successful load returns exactly [n] profiles, one per record and in
    the order of the records: the age is [int] of the Age cell and the
    labels are those of the Gender cell's code. *)
Theorem load_profiles_exact (df : JLR.dataframe) (n : nat)
  (profiles : list JLR.profile) :
  JLR.load_profiles_from_xlsx rt df n = Ok profiles ->
  length (JLR.records df) = n
  /\ length profiles = n
  /\ exists ca cg,
       JLR.pick_col rt df SpecSheet.AGE_NAMES = Some ca
       /\ JLR.pick_col rt df SpecSheet.GENDER_NAMES = Some cg
       /\ Forall2 (profile_of_record rt df ca cg) (JLR.records df) profiles.
Proof.
  unfold JLR.load_profiles_from_xlsx.
  fold SpecSheet.AGE_NAMES SpecSheet.GENDER_NAMES.
  destruct (JLR.pick_col rt df SpecSheet.AGE_NAMES) as [ca|];
    [|discriminate].
  destruct (JLR.pick_col rt df SpecSheet.GENDER_NAMES) as [cg|];
    [|discriminate].
  destruct (_ || _); [discriminate|].
  destruct (length (JLR.records df) =? n) eqn:En; [|discriminate].
  simpl negb. cbv iota.
  destruct (_ || _); [discriminate|].
  intros H. apply build_profiles_order in H.
  destruct H as (new & -> & F). apply Nat.eqb_eq in En.
  split; [exact En|]. split.
  - simpl. rewrite <- (Forall2_length F). exact En.
  - exists ca, cg. auto.
Qed.

(** A sheet without an Age or a Gender column is rejected whatever its
    records. *)
Theorem load_needs_both_columns (df : JLR.dataframe) (n : nat) :
  JLR.pick_col rt df SpecSheet.AGE_NAMES = None
  \/ JLR.pick_col rt df SpecSheet.GENDER_NAMES = None ->
  JLR.load_profiles_from_xlsx rt df n = Raise ValueError.
Proof.
  unfold JLR.load_profiles_from_xlsx.
  fold SpecSheet.AGE_NAMES SpecSheet.GENDER_NAMES.
  intros [-> | ->]; [reflexivity|].
  destruct (JLR.pick_col rt df SpecSheet.AGE_NAMES); reflexivity.
Qed.

End LoadShape.

Lemma load_profiles_exact_witness :
  JLR.load_profiles_from_xlsx ascii_runtime Fixture2.sheet_two_ages 1
  = Ok [{| JLR.age := 36; JLR.gender_en := lit "male";
           JLR.gender_zh := lit "男" |}]
  /\ length (JLR.records Fixture2.sheet_two_ages) = 1.
Proof.
  assert (H : JLR.load_profiles_from_xlsx ascii_runtime
                Fixture2.sheet_two_ages 1
              = Ok [{| JLR.age := 36; JLR.gender_en := lit "male";
                       JLR.gender_zh := lit "男" |}])
    by (vm_compute; reflexivity).
  split; [exact H|].
  exact (proj1 (load_profiles_exact ascii_runtime Fixture2.sheet_two_ages 1
                  _ H)).
Defined.

Lemma load_needs_both_columns_witness :
  (JLR.pick_col ascii_runtime
     {| JLR.columns := [lit "Age"; lit "Sex"];
        JLR.records := [[Some (PInt 35); Some (PInt 1)]] |}
     SpecSheet.AGE_NAMES = None
   \/ JLR.pick_col ascii_runtime
        {| JLR.columns := [lit "Age"; lit "Sex"];
           JLR.records := [[Some (PInt 35); Some (PInt 1)]] |}
        SpecSheet.GENDER_NAMES = None)
  /\ JLR.load_profiles_from_xlsx ascii_runtime
       {| JLR.columns := [lit "Age"; lit "Sex"];
          JLR.records := [[Some (PInt 35); Some (PInt 1)]] |} 1
     = Raise ValueError.
Proof.
  assert (H : JLR.pick_col ascii_runtime
                {| JLR.columns := [lit "Age"; lit "Sex"];
                   JLR.records := [[Some (PInt 35); Some (PInt 1)]] |}
                SpecSheet.AGE_NAMES = None
              \/ JLR.pick_col ascii_runtime
                   {| JLR.columns := [lit "Age"; lit "Sex"];
                      JLR.records := [[Some (PInt 35); Some (PInt 1)]] |}
                   SpecSheet.GENDER_NAMES = None).
  { right. vm_compute. reflexivity. }
  split; [exact H|].
  exact (load_needs_both_columns ascii_runtime _ 1 H).
Defined.

(** ** When the item coercion raises *)

Section CoercionFailure.
Variable rt : runtime.

Import SpecCoerce SpecFields.

(** The item coercion raises in two cases only: on a non-finite float
    ([OverflowError] for an infinity, [ValueError] for a NaN), and on a
    string that is an integer text after trimming but has more digits than
    the interpreter converts ([ValueError]). *)
Theorem coerce_item_raises_only (v : pyval) (e : exn) :
  JLR.coerce_item rt v = Raise e
  <-> (exists neg, v = PFloat (FInf neg) /\ e = OverflowError)
      \/ (v = PFloat FNan /\ e = ValueError)
      \/ (exists s sign ds,
            v = PStr s
            /\ signed_digits rt (strip rt s) sign ds
            /\ over_digit_limit rt (length ds) = true
            /\ e = ValueError).
Proof.
  split.
  - destruct v as [| b | z | [q|neg|] | s | l | d]; simpl;
      try discriminate.
    + intros H. injection H as <-. left. eauto.
    + intros H. injection H as <-. right. left. auto.
    + destruct (re_match rt JLR._NUM (strip rt s)) as [m|] eqn:Em;
        [|discriminate].
      assert (Hi : integer_text rt (strip rt s))
        by (apply num_match_trimmed; eauto).
      destruct Hi as (sign & ds & Hsd).
      destruct (digits_value_from_some rt ds (proj2 (proj2 (proj2 Hsd))) 0%N)
        as [n Hn].
      rewrite (int_of_str_integer_text rt (strip rt s) sign ds n
                 (strip_by_idempotent _ s) Hsd Hn).
      destruct (over_digit_limit rt (length ds)) eqn:Eo; simpl;
        [|discriminate].
      intros H. injection H as <-. right. right.
      exists s, sign, ds. auto.
  - intros [(neg & -> & ->) | [[-> ->] | (s & sign & ds & -> & Hsd & Ho & ->)]];
      try reflexivity.
    unfold JLR.coerce_item.
    assert (Hm : integer_text rt (strip rt s)) by (exists sign, ds; exact Hsd).
    apply num_match_trimmed in Hm. destruct Hm as [m Hm]. rewrite Hm.
    destruct (digits_value_from_some rt ds (proj2 (proj2 (proj2 Hsd))) 0%N)
      as [n Hn].
    rewrite (int_of_str_integer_text rt (strip rt s) sign ds n
               (strip_by_idempotent _ s) Hsd Hn).
    rewrite Ho. reflexivity.
Qed.

Lemma coerce_item_output (v w : pyval) :
  JLR.coerce_item rt v = Ok w -> item_value w.
Proof.
  unfold item_value.
  destruct v as [| b | z | [q|neg|] | s | l | d]; simpl;
    try (intros H; injection H as <-; eauto); try discriminate.
  destruct (re_match rt JLR._NUM (strip rt s)); [|intros H; injection H as <-; auto].
  destruct (int_of_str rt (strip rt s)); simpl; [|discriminate].
  intros H. injection H as <-. eauto.
Qed.

Lemma map_fst_assoc_set {V} (d : list (str * V)) (k : str) (v : V) :
  assoc_get d k = None ->
  map fst (assoc_set d k v) = map fst d ++ [k].
Proof.
  induction d as [|[k0 v0] d IH]; simpl; [reflexivity|].
  destruct (str_eqb k0 k); [discriminate|].
  intros H. simpl. rewrite IH by exact H. reflexivity.
Qed.

Lemma coerce_items_keys (data : list (str * pyval)) :
  forall keys acc items,
    NoDup keys ->
    (forall k, In k keys -> assoc_get acc k = None) ->
    JLR.coerce_items rt keys data acc = Ok items ->
    map fst items = map fst acc ++ keys.
Proof.
  induction keys as [|ik keys IH]; intros acc items Hnd Hacc H; simpl in H.
  - injection H as <-. rewrite app_nil_r. reflexivity.
  - destruct (JLR.coerce_item rt (dict_get data ik)) as [v|e]; simpl in H;
      [|discriminate].
    inversion Hnd as [|? ? Hnin Hnd']; subst.
    assert (Hacc' : forall k, In k keys ->
                      assoc_get (assoc_set acc ik v) k = None).
    { intros k Hk. rewrite assoc_get_set.
      destruct (str_eqb ik k) eqn:E.
      - apply str_eqb_eq in E. subst k. contradiction.
      - apply Hacc. right. exact Hk. }
    rewrite (IH _ _ Hnd' Hacc' H).
    rewrite map_fst_assoc_set by (apply Hacc; left; reflexivity).
    rewrite <- app_assoc. reflexivity.
Qed.

Lemma item_keys_nodup : NoDup JLR.ITEM_KEYS.
Proof.
  unfold JLR.ITEM_KEYS, JLR.keys_1_to_7. simpl map.
  repeat (constructor;
          [intros H; simpl in H;
           repeat (destruct H as [H | H]; [vm_compute in H; discriminate H|]);
           exact H|]).
  constructor.
Qed.

Lemma coerce_items_values (data : list (str * pyval)) :
  forall keys acc items,
    (forall k v, In (k, v) acc -> item_value v) ->
    JLR.coerce_items rt keys data acc = Ok items ->
    forall k v, In (k, v) items -> item_value v.
Proof.
  induction keys as [|ik keys IH]; intros acc items Hacc H; simpl in H.
  - injection H as <-. exact Hacc.
  - destruct (JLR.coerce_item rt (dict_get data ik)) as [w|e] eqn:Ew;
      simpl in H; [|discriminate].
    apply coerce_item_output in Ew.
    refine (IH (assoc_set acc ik w) items _ H).
    clear H IH. induction acc as [|[k0 v0] acc IHa]; simpl; intros k v.
    + intros [E | []]. injection E as <- <-. exact Ew.
    + destruct (str_eqb k0 ik); simpl.
      * intros [E | Hin].
        -- injection E as <- <-. exact Ew.
        -- apply (Hacc k v). right. exact Hin.
      * intros [E | Hin].
        -- injection E as <- <-. apply (Hacc k0 v0). left. reflexivity.
        -- apply (IHa (fun k' v' Hin' => Hacc k' v' (or_intror Hin'))
                      k v Hin).
Qed.

End CoercionFailure.

Lemma coerce_item_raises_only_witness :
  JLR.coerce_item ascii_runtime (PFloat (FInf true)) = Raise OverflowError
  /\ ((exists neg, PFloat (FInf true) = PFloat (FInf neg)
                   /\ OverflowError = OverflowError)
      \/ (PFloat (FInf true) = PFloat FNan /\ OverflowError = ValueError)
      \/ (exists s sign ds,
            PFloat (FInf true) = PStr s
            /\ SpecCoerce.signed_digits ascii_runtime
                 (strip ascii_runtime s) sign ds
            /\ over_digit_limit ascii_runtime (length ds) = true
            /\ OverflowError = ValueError)).
Proof.
  assert (H : JLR.coerce_item ascii_runtime (PFloat (FInf true))
              = Raise OverflowError) by reflexivity.
  split; [exact H|].
  exact (proj1 (coerce_item_raises_only ascii_runtime
                  (PFloat (FInf true)) OverflowError) H).
Defined.

(** ** The dictionary of the fallback *)

Section FallbackShape.
Variable rt : runtime.

Import SpecFields.

Lemma salvage_reasons_strs (txt : str) :
  forall k v,
    assoc_get (JLR.salvage_reasons rt txt) k = Some v ->
    exists s, v = PStr s.
Proof.
  unfold JLR.salvage_reasons.
  generalize (finditer rt JLR.REASON_LINE txt). intros ms.
  assert (G : forall (acc : list (str * pyval)),
             (forall k v, assoc_get acc k = Some v -> exists s, v = PStr s) ->
             forall k v,
               assoc_get
                 (fold_left
                    (fun reasons m =>
                       match groupn m 1, groupn m 2 with
                       | Some g1, Some g2 =>
                         assoc_set reasons (lit "reason_" ++ g1)
                                   (PStr (strip rt g2))
                       | _, _ => reasons
                       end) ms acc) k = Some v ->
               exists s, v = PStr s).
  { induction ms as [|m ms IH]; intros acc Hacc; simpl; [exact Hacc|].
    apply IH. destruct (groupn m 1) as [g1|]; [|exact Hacc].
    destruct (groupn m 2) as [g2|]; [|exact Hacc].
    intros k v. rewrite assoc_get_set.
    destruct (str_eqb _ k); [|apply Hacc].
    intros H. injection H as <-. eauto. }
  apply G. intros k v H. discriminate H.
Qed.

(** The dictionary the fallback returns is either empty or has exactly the
    fourteen keys [reason_1], [item_1], ..., [reason_7], [item_7], in this
    order, every reason being a string and every item an integer or
    [None]. *)
Theorem fallback_fields_shape (o : outcome) :
  JLR.text_attempt rt o = []
  \/ (map fst (JLR.text_attempt rt o) = FIELD_ORDER
      /\ (forall rk, In rk JLR.REASON_KEYS ->
            exists s, dict_get (JLR.text_attempt rt o) rk = PStr s)
      /\ (forall ik, In ik JLR.ITEM_KEYS ->
            dict_get (JLR.text_attempt rt o) ik = PNone
            \/ exists z, dict_get (JLR.text_attempt rt o) ik = PInt z)).
Proof.
  unfold JLR.text_attempt.
  destruct o as [|[txt|]]; try (left; reflexivity).
  destruct (JLR.salvage_items rt txt) as [items|e] eqn:E;
    [|left; reflexivity].
  right. split; [reflexivity|]. split.
  - intros rk Hrk. rewrite (combine_fields_reason _ _ _ Hrk).
    destruct (assoc_get (JLR.salvage_reasons rt txt) rk) as [v|] eqn:Ev.
    + apply (salvage_reasons_strs txt rk v Ev).
    + eauto.
  - intros ik Hik. rewrite (combine_fields_item _ _ _ Hik).
    destruct (salvage_items_ints rt txt items E ik) as [z Hz].
    unfold dict_get. destruct Hz as [-> | ->]; eauto.
Qed.

End FallbackShape.

(** ** The rows of the study *)

Section RowShape.
Variable rt : runtime.
Variable svc : service.
Variable N_TARGET : nat.

Import SpecFallback SpecFields.

Lemma study_one_row (i : nat) (prof : JLR.profile)
  (log log' : list request) (row : JLR.row) :
  JLR.study_one rt svc N_TARGET i prof log = (Ok row, log') ->
  exists qlang data items,
    row = row_of rt i prof qlang data items
    /\ JLR.coerce_items rt JLR.ITEM_KEYS data [] = Ok items.
Proof.
  intros H.
  destruct (nth_error (JLR.design rt N_TARGET) (i - 1)) as [qlang|] eqn:Eq.
  - destruct (chat_never_raises rt svc
                (study_messages (Spec.rendered qlang prof)) log)
      as (data & log1 & Hc).
    rewrite (study_one_run rt svc N_TARGET i prof qlang log log1 data Eq Hc)
      in H.
    destruct (JLR.coerce_items rt JLR.ITEM_KEYS data []) as [items|e] eqn:Ei;
      [|discriminate].
    injection H as <- <-. exists qlang, data, items. auto.
  - rewrite (study_one_no_design rt svc N_TARGET i prof log Eq) in H.
    discriminate.
Qed.

(** Every row the study emits has the seven reason fields and the seven
    item fields, in key order; its languages are the fixed ones, its
    questionnaire language is English or Mandarin, and each item is an
    integer, a boolean or [None]. *)
Theorem emitted_row_shape (i : nat) (prof : JLR.profile)
  (log log' : list request) (row : JLR.row) :
  JLR.study_one rt svc N_TARGET i prof log = (Ok row, log') ->
  map fst (JLR.reason_fields row) = JLR.REASON_KEYS
  /\ map fst (JLR.item_fields row) = JLR.ITEM_KEYS
  /\ JLR.native_language row = lit "Mandarin"
  /\ JLR.second_language row = lit "English"
  /\ (JLR.questionnaire_language row = lit "English"
      \/ JLR.questionnaire_language row = lit "Mandarin")
  /\ forall k v, In (k, v) (JLR.item_fields row) -> item_value v.
Proof.
  intros H. apply study_one_row in H.
  destruct H as (qlang & data & items & -> & Hi).
  unfold row_of.
  cbn [JLR.reason_fields JLR.item_fields JLR.native_language
       JLR.second_language JLR.questionnaire_language].
  split; [rewrite map_map; cbn [fst]; apply map_id|].
  split.
  { apply (coerce_items_keys rt data JLR.ITEM_KEYS [] items
             item_keys_nodup (fun _ _ => eq_refl) Hi). }
  split; [reflexivity|]. split; [reflexivity|].
  split; [destruct (Spec.is_english qlang); auto|].
  apply (coerce_items_values rt data JLR.ITEM_KEYS [] items); [|exact Hi].
  intros k v [].
Qed.

Lemma usable_attempt (o : outcome) (d : list (str * pyval)) :
  usable_json rt o d -> JLR.json_attempt rt o = Some d.
Proof.
  intros (txt & k & v & -> & Hj & Hin & Hk). simpl. rewrite Hj.
  replace (existsb (fun kv => JLR.expected_key (fst kv)) d) with true;
    [reflexivity|].
  symmetry. apply existsb_exists. exists (k, v). auto.
Qed.

(** A JSON-mode reply that parses to an object with an expected key is
    returned as it is, after that single request: no fallback request is
    made, no key is added or removed. *)
Theorem usable_json_single_request (msgs : list (str * str))
  (log : list request) (d : list (str * pyval)) :
  usable_json rt (svc (length log) (json_request msgs)) d ->
  JLR.chat_completion_json rt svc msgs log
  = (Ok d, log ++ [json_request msgs]).
Proof.
  intros H. apply chat_direct. apply usable_attempt. exact H.
Qed.

Lemma study_one_direct (i : nat) (prof : JLR.profile)
  (log log' : list request) (row : JLR.row) :
  (forall n m, exists d, usable_json rt (svc n (json_request m)) d) ->
  JLR.study_one rt svc N_TARGET i prof log = (Ok row, log') ->
  length log' = S (length log).
Proof.
  intros Hu H.
  destruct (nth_error (JLR.design rt N_TARGET) (i - 1)) as [qlang|] eqn:Eq.
  - remember (study_messages (Spec.rendered qlang prof)) as m eqn:Em.
    destruct (Hu (length log) m) as [d Hd].
    pose proof (chat_direct rt svc m log d (usable_attempt _ _ Hd)) as Hc.
    rewrite Em in Hc.
    rewrite (study_one_run rt svc N_TARGET i prof qlang log _ d Eq Hc) in H.
    destruct (JLR.coerce_items rt JLR.ITEM_KEYS d []); [|discriminate].
    injection H as _ <-. apply length_snoc.
  - rewrite (study_one_no_design rt svc N_TARGET i prof log Eq) in H.
    discriminate.
Qed.

Lemma for_profiles_direct :
  (forall n m, exists d, usable_json rt (svc n (json_request m)) d) ->
  forall ps i acc log out log',
    JLR.for_profiles rt svc N_TARGET i ps acc log = (Ok out, log') ->
    length log' = length log + length ps
    /\ length out = length acc + length ps.
Proof.
  intros Hu. induction ps as [|p ps IH]; intros i acc log out log' H;
    simpl in H.
  - injection H as <- <-. simpl. lia.
  - unfold bind in H.
    destruct (JLR.study_one rt svc N_TARGET i p log) as [[r|e] log1] eqn:E;
      [|discriminate].
    apply (study_one_direct i p log log1 r Hu) in E.
    apply IH in H. destruct H as [H1 H2].
    rewrite length_app in H2. simpl in *. lia.
Qed.

(** When every JSON-mode reply is usable, a completed run has made exactly
    one request per row. *)
Theorem usable_json_one_request_per_row (df : JLR.dataframe)
  (log log' : list request) (rows : list JLR.row) :
  (forall n m, exists d, usable_json rt (svc n (json_request m)) d) ->
  JLR.run_study rt svc N_TARGET df log = (Ok rows, log') ->
  length log' = length log + length rows.
Proof.
  intros Hu. unfold JLR.run_study, bind, lift.
  destruct (JLR.load_profiles_from_xlsx rt df N_TARGET) as [ps|e];
    [|discriminate].
  intros H. apply (for_profiles_direct Hu) in H. simpl in H. lia.
Qed.

End RowShape.

Lemma fallback_fields_shape_witness :
  In (lit "item_1") JLR.ITEM_KEYS
  /\ (dict_get (JLR.text_attempt ascii_runtime
                  (Content (Some Fixture.plain_lines))) (lit "item_1")
      = PNone
      \/ exists z,
           dict_get (JLR.text_attempt ascii_runtime
                       (Content (Some Fixture.plain_lines))) (lit "item_1")
           = PInt z).
Proof.
  assert (H : In (lit "item_1") JLR.ITEM_KEYS) by (left; reflexivity).
  split; [exact H|].
  destruct (fallback_fields_shape ascii_runtime
              (Content (Some Fixture.plain_lines))) as [E | (_ & _ & R)].
  - vm_compute in E. discriminate E.
  - exact (R (lit "item_1") H).
Defined.

Lemma emitted_row_shape_witness :
  exists row log',
    JLR.study_one ascii_runtime Fixture.text_only_service 2 1
      {| JLR.age := 35; JLR.gender_en := lit "male";
         JLR.gender_zh := lit "男" |} []
    = (Ok row, log')
    /\ map fst (JLR.item_fields row) = JLR.ITEM_KEYS.
Proof.
  destruct (JLR.study_one ascii_runtime Fixture.text_only_service 2 1
              {| JLR.age := 35; JLR.gender_en := lit "male";
                 JLR.gender_zh := lit "男" |} [])
    as [[row|e] log'] eqn:E.
  - exists row, log'. split; [reflexivity|].
    exact (proj1 (proj2 (emitted_row_shape ascii_runtime
                           Fixture.text_only_service 2 1 _ [] log' row E))).
  - vm_compute in E. discriminate E.
Defined.

Lemma usable_json_single_request_witness :
  SpecFields.usable_json
    (Fixture2.object_runtime [(lit "item_1", PInt 5)])
    (Fixture2.chatty_service (length (@nil request))
       (SpecFallback.json_request [(lit "user", lit "hello")]))
    [(lit "item_1", PInt 5)]
  /\ JLR.chat_completion_json
       (Fixture2.object_runtime [(lit "item_1", PInt 5)])
       Fixture2.chatty_service [(lit "user", lit "hello")] []
     = (Ok [(lit "item_1", PInt 5)],
        [] ++ [SpecFallback.json_request [(lit "user", lit "hello")]]).
Proof.
  assert (H : SpecFields.usable_json
                (Fixture2.object_runtime [(lit "item_1", PInt 5)])
                (Fixture2.chatty_service (length (@nil request))
                   (SpecFallback.json_request [(lit "user", lit "hello")]))
                [(lit "item_1", PInt 5)]).
  { exists (lit "{}"), (lit "item_1"), (PInt 5).
    repeat split; try reflexivity. left. reflexivity. }
  split; [exact H|].
  exact (usable_json_single_request
           (Fixture2.object_runtime [(lit "item_1", PInt 5)])
           Fixture2.chatty_service [(lit "user", lit "hello")] [] _ H).
Defined.

Lemma usable_json_one_request_per_row_witness :
  (forall n m, exists d,
     SpecFields.usable_json
       (Fixture2.object_runtime [(lit "item_1", PInt 5)])
       (Fixture2.chatty_service n (SpecFallback.json_request m)) d)
  /\ exists rows log',
       JLR.run_study (Fixture2.object_runtime [(lit "item_1", PInt 5)])
         Fixture2.chatty_service 4 Fixture.sheet4 [] = (Ok rows, log')
       /\ length log' = length (@nil request) + length rows.
Proof.
  assert (H : forall n m, exists d,
     SpecFields.usable_json
       (Fixture2.object_runtime [(lit "item_1", PInt 5)])
       (Fixture2.chatty_service n (SpecFallback.json_request m)) d).
  { intros n m. exists [(lit "item_1", PInt 5)].
    exists (lit "{}"), (lit "item_1"), (PInt 5).
    repeat split; try reflexivity. left. reflexivity. }
  split; [exact H|].
  destruct (JLR.run_study (Fixture2.object_runtime [(lit "item_1", PInt 5)])
              Fixture2.chatty_service 4 Fixture.sheet4 [])
    as [[rows|e] log'] eqn:E.
  - exists rows, log'. split; [reflexivity|].
    exact (usable_json_one_request_per_row
             (Fixture2.object_runtime [(lit "item_1", PInt 5)])
             Fixture2.chatty_service 4 Fixture.sheet4 [] log' rows H E).
  - vm_compute in E. discriminate E.
Defined.

(** ** The design *)

Section Design.
Variable rt : runtime.
Variable svc : service.
Variable N_TARGET : nat.

Import SpecDesign.

Lemma design_source_length :
  length (flat_map (fun lvl => repeat lvl (N_TARGET / 2))
                   [lit "English"; lit "Mandarin"])
  = 2 * (N_TARGET / 2).
Proof.
  cbn [flat_map]. rewrite !length_app, !repeat_length. simpl. lia.
Qed.

Lemma for_profiles_within_design :
  forall ps i acc log out log',
    1 <= i ->
    ps <> [] ->
    JLR.for_profiles rt svc N_TARGET i ps acc log = (Ok out, log') ->
    i - 1 + length ps <= length (JLR.design rt N_TARGET).
Proof.
  induction ps as [|p ps IH]; intros i acc log out log' Hi Hne H;
    [contradiction|].
  simpl in H. unfold bind in H.
  destruct (JLR.study_one rt svc N_TARGET i p log) as [[r|e] log1] eqn:E;
    [|discriminate].
  apply study_one_ok in E. destruct E as (_ & _ & qlang & Hq & _).
  assert (Hlt : i - 1 < length (JLR.design rt N_TARGET))
    by (apply nth_error_Some; rewrite Hq; discriminate).
  destruct ps as [|p' ps'].
  - simpl. lia.
  - apply IH in H; [|lia|discriminate]. simpl in *. lia.
Qed.

(** The design has two entries for every pair of participants.  With an
    odd participant count it is one entry short, so the run never delivers
    its rows: the look-up for the last participant is out of range. *)
Theorem odd_target_never_completes (df : JLR.dataframe)
  (log log' : list request) (rows : list JLR.row) :
  (forall l, length (random_shuffle rt l) = length l) ->
  Nat.odd N_TARGET = true ->
  JLR.run_study rt svc N_TARGET df log <> (Ok rows, log').
Proof.
  intros Hlen Hodd H.
  assert (Hd : length (JLR.design rt N_TARGET) = 2 * (N_TARGET / 2))
    by (unfold JLR.design; rewrite Hlen; apply design_source_length).
  unfold JLR.run_study, bind, lift in H.
  destruct (JLR.load_profiles_from_xlsx rt df N_TARGET) as [ps|e] eqn:El;
    [|discriminate].
  apply load_profiles_order in El. destruct El as [Hn (ca & cg & F)].
  apply Forall2_length in F.
  apply Nat.odd_spec in Hodd. destruct Hodd as [k Hk].
  assert (Hps : ps <> []).
  { intros ->. simpl in F. lia. }
  apply for_profiles_within_design in H; [|lia|exact Hps].
  rewrite Hd in H.
  assert (Hdiv : N_TARGET / 2 = k).
  { rewrite Hk. rewrite Nat.mul_comm.
    rewrite Nat.div_add_l by lia. simpl. lia. }
  lia.
Qed.

(** When the shuffle is a permutation, the design gives each of the two
    questionnaire languages to exactly half of the participants (rounded
    down), and to nobody any other language. *)
Theorem design_is_balanced :
  (forall l, Permutation l (random_shuffle rt l)) ->
  assigned rt N_TARGET (lit "English") = N_TARGET / 2
  /\ assigned rt N_TARGET (lit "Mandarin") = N_TARGET / 2
  /\ length (JLR.design rt N_TARGET) = 2 * (N_TARGET / 2)
  /\ forall q, In q (JLR.design rt N_TARGET) ->
               q = lit "English" \/ q = lit "Mandarin".
Proof.
  intros Hp. unfold assigned, JLR.design.
  set (src := flat_map (fun lvl => repeat lvl (N_TARGET / 2))
                       [lit "English"; lit "Mandarin"]).
  pose proof (Hp src) as P.
  assert (Hc : forall q, count_occ str_dec (random_shuffle rt src) q
                         = count_occ str_dec src q).
  { intros q. symmetry. apply Permutation_count_occ. exact P. }
  assert (Hsrc : src = repeat (lit "English") (N_TARGET / 2)
                       ++ repeat (lit "Mandarin") (N_TARGET / 2))
    by (unfold src; cbn [flat_map]; rewrite app_nil_r; reflexivity).
  split; [|split; [|split]].
  - rewrite Hc, Hsrc, count_occ_app.
    rewrite count_occ_repeat_eq by reflexivity.
    rewrite count_occ_repeat_neq; [lia|]. discriminate.
  - rewrite Hc, Hsrc, count_occ_app.
    rewrite count_occ_repeat_neq by discriminate.
    rewrite count_occ_repeat_eq by reflexivity. lia.
  - rewrite <- (Permutation_length P). apply design_source_length.
  - intros q Hq. apply (Permutation_in q (Permutation_sym P)) in Hq.
    rewrite Hsrc in Hq. apply in_app_or in Hq.
    destruct Hq as [Hq | Hq]; apply repeat_spec in Hq; auto.
Qed.

End Design.

Lemma odd_target_never_completes_witness :
  (forall l, length (random_shuffle ascii_runtime l) = length l)
  /\ Nat.odd 3 = true
  /\ JLR.run_study ascii_runtime Fixture.silent_service 3 Fixture2.sheet3 []
     <> (Ok [], []).
Proof.
  assert (H1 : forall l, length (random_shuffle ascii_runtime l) = length l)
    by (intros l; reflexivity).
  assert (H2 : Nat.odd 3 = true) by reflexivity.
  split; [exact H1|]. split; [exact H2|].
  exact (odd_target_never_completes ascii_runtime Fixture.silent_service 3
           Fixture2.sheet3 [] [] [] H1 H2).
Defined.

(** On the three-record sheet the run stops at the third participant,
    after the four requests of the first two. *)
Lemma sheet3_index_error :
  match JLR.run_study ascii_runtime Fixture.silent_service 3
          Fixture2.sheet3 [] with
  | (Raise e, log) => (Some e, length log)
  | _ => (None, 0)
  end
  = (Some IndexError, 4).
Proof. vm_compute. reflexivity. Qed.

Lemma design_is_balanced_witness :
  (forall l, Permutation l (random_shuffle ascii_runtime l))
  /\ SpecDesign.assigned ascii_runtime 308 (lit "English") = 308 / 2.
Proof.
  assert (H : forall l, Permutation l (random_shuffle ascii_runtime l))
    by (intros l; apply Permutation_refl).
  split; [exact H|].
  exact (proj1 (design_is_balanced ascii_runtime 308 H)).
Defined.

(** ** The date placeholders *)

Section Dates.
Variable rt : runtime.

Import SpecDesign.

Lemma en_prefix_keeps_placeholder :
  JLR._EN_HEADER_PREFIX
  = lit "You are participating in a survey study. We invite you to review a donation appeal for Save the Kids, a nonprofit organization dedicated to helping children in need worldwide. "
    ++ lit "Today is {DATE_EN}. "
    ++ lit "You are a native Mandarin speaker who also speaks fluent English, currently living in the US. ".
Proof. vm_compute. reflexivity. Qed.

Lemma zh_prefix_keeps_placeholder :
  JLR._ZH_PREFIX
  = lit "您正在参与一项问卷调查。我们邀请您阅读一份为“儿童救助会”发起的捐款呼吁。该组织致力于帮助全球有需要的儿童。"
    ++ lit "今天是{DATE_ZH}。"
    ++ lit "您是一位母语为普通话的人，同时也能说流利的英语，目前居住在美国。".
Proof. vm_compute. reflexivity. Qed.

Lemma contains_in_prefix (a needle b rest : str) :
  contains ((a ++ needle ++ b) ++ rest) needle.
Proof.
  exists a, (b ++ rest). rewrite <- !app_assoc. reflexivity.
Qed.

(** Neither builder substitutes the date: whatever the profile, the
    English prompt carries the literal text [Today is {DATE_EN}.] and the
    Mandarin prompt the literal text with [{DATE_ZH}]. *)
Theorem date_placeholder_left_in_prompt (gender : str) (age : Z) :
  (exists p, JLR.build_english_prompt rt gender age = Ok p
             /\ contains p (lit "Today is {DATE_EN}. "))
  /\ (exists p, JLR.build_mandarin_prompt rt gender age = Ok p
                /\ contains p (lit "今天是{DATE_ZH}。")).
Proof.
  split.
  - unfold JLR.build_english_prompt. rewrite format_en_bracket.
    cbn [rbind]. eexists. split; [reflexivity|].
    rewrite en_prefix_keeps_placeholder. apply contains_in_prefix.
  - unfold JLR.build_mandarin_prompt. rewrite format_zh_bracket.
    cbn [rbind]. eexists. split; [reflexivity|].
    rewrite zh_prefix_keeps_placeholder. apply contains_in_prefix.
Qed.

End Dates.
